(** * picoclaw: tool-dispatch core

    A shallow embedding of three parts of the repository and the
    properties checked on them:

    - [pkg/mcp] provider manager and remote tool adapter
      ([Manager.StartAndRegister], [MCPToolAdapter]);
    - [pkg/mcp] JSON-RPC clients over stdio and SSE
      ([sendRequest], [readLoop], [NewSSEClient]);
    - [pkg/tools] sandbox filesystem
      ([validatePath], [getSafeRelPath], [hostFs], [sandboxFs]).

    Strings are [string], Go maps are [gmap], Go errors are records that
    carry the message and, for errors of the operating system, the error
    number that [os.IsNotExist] and [os.IsPermission] look at. *)

From Stdlib Require Import ZArith String List Ascii Lia Bool.
From stdpp Require Import base option gmap strings list pretty.

(** ** Go errors *)

(** The error numbers the code distinguishes.  [EESCAPE] is the error of
    [os.Root] for a path that leaves the root ("path escapes from
    parent"). *)
Inductive errno : Type :=
| ENOENT
| EACCES
| EPERM
| EESCAPE
| EOTHER (msg : string).

Definition errno_msg (e : errno) : string :=
  match e with
  | ENOENT => "no such file or directory"
  | EACCES => "permission denied"
  | EPERM => "operation not permitted"
  | EESCAPE => "path escapes from parent"
  | EOTHER m => m
  end.

(** A Go [error]: the text of [err.Error()] and the operating-system
    error found by unwrapping it, if any. *)
Record error : Type := mkError {
  Error : string;
  cause : option errno
}.

(** [errors.New(msg)] and [fmt.Errorf(msg)] without a [%w] verb. *)
Definition Errorf (msg : string) : error :=
  {| Error := msg; cause := None |}.

(** [fmt.Errorf(prefix + "%w", err)]: the text is prefixed and the chain
    is kept. *)
Definition Errorf_w (prefix : string) (err : error) : error :=
  {| Error := prefix +:+ Error err; cause := cause err |}.

(** [&fs.PathError{Op, Path, Err}] as the [os] package returns it. *)
Definition PathError (op path : string) (e : errno) : error :=
  {| Error := op +:+ " " +:+ path +:+ ": " +:+ errno_msg e; cause := Some e |}.

(** [os.IsNotExist] and [os.IsPermission] applied to an error returned by
    the [os] package itself. *)
Definition IsNotExist (err : error) : bool :=
  match cause err with Some ENOENT => true | _ => false end.

Definition IsPermission (err : error) : bool :=
  match cause err with Some EACCES | Some EPERM => true | _ => false end.

(** A Go result pair [(v, err)] in which exactly one side is used. *)
Inductive result (A : Type) : Type :=
| Ok (v : A)
| Err (e : error).
Arguments Ok {A} v.
Arguments Err {A} e.

Definition is_Err {A} (r : result A) : bool :=
  match r with Ok _ => false | Err _ => true end.

(** [strings.Contains(s, sub)]. *)
Fixpoint Contains (s sub : string) : bool :=
  String.prefix sub s ||
  match s with
  | EmptyString => false
  | String _ s' => Contains s' sub
  end.

(** * Part I: the provider manager and the remote tool adapter *)

(** A decoded JSON value, for [map[string]any] arguments and schemas. *)
#[local] Unset Elimination Schemes.
Inductive any : Type :=
| ANull
| ABool (b : bool)
| ANumber (z : Z)
| AString (s : string)
| AArray (l : list any)
| AObject (fields : list (string * any)).
#[local] Set Elimination Schemes.

(** [MCPToolDefinition], [ListToolsResult], [MCPContentBlock] and
    [CallToolResult] of the protocol types. *)
Record MCPToolDefinition : Type := {
  def_Name : string;
  def_Description : string;
  def_InputSchema : any
}.

Record MCPContentBlock : Type := {
  block_Type : string;
  block_Text : string
}.

Record CallToolResult : Type := {
  Content : list MCPContentBlock;
  IsError : bool
}.

(** The [Client] interface.  A client value stands for one live
    connection; its fields give what the peer answers on it.  [handle]
    identifies the connection, so that [Close] can be observed. *)
Record Client : Type := {
  handle : nat;
  Initialize : option error;
  ListTools : result (list MCPToolDefinition);
  CallTool : string -> any -> result CallToolResult
}.

Record MCPToolAdapter : Type := {
  client : Client;
  originalName : string;
  definition : MCPToolDefinition
}.

Definition NewMCPToolAdapter (c : Client) (def : MCPToolDefinition)
    (original : string) : MCPToolAdapter :=
  {| client := c; originalName := original; definition := def |}.

Definition IsDeferred (a : MCPToolAdapter) : bool := true.
Definition Name (a : MCPToolAdapter) : string := def_Name (definition a).
Definition Description (a : MCPToolAdapter) : string :=
  def_Description (definition a).
Definition Parameters (a : MCPToolAdapter) : any :=
  def_InputSchema (definition a).

(** Modelled from the spec: [tools.ToolResult] and its constructors
    [NewToolResult] and [ErrorResult(...).WithError], which are declared
    in another file of [pkg/tools].  The result is the record
    {forLLM, forUser, isError, err}; an error result sets the flag. *)
Record ToolResult : Type := {
  ForLLM : string;
  ForUser : string;
  res_IsError : bool;
  res_Err : option error
}.

Definition NewToolResult (text : string) : ToolResult :=
  {| ForLLM := text; ForUser := ""; res_IsError := false; res_Err := None |}.

Definition ErrorResult (text : string) : ToolResult :=
  {| ForLLM := text; ForUser := text; res_IsError := true; res_Err := None |}.

Definition WithError (r : ToolResult) (e : error) : ToolResult :=
  {| ForLLM := ForLLM r; ForUser := ForUser r;
     res_IsError := res_IsError r; res_Err := Some e |}.

Fixpoint extractTextContent (blocks : list MCPContentBlock) : string :=
  match blocks with
  | [] => ""
  | block :: rest =>
      if decide (block_Type block = "text")
      then block_Text block +:+ String "010"%char (extractTextContent rest)
      else extractTextContent rest
  end.

(** What [Execute] makes of the answer of [CallTool]. *)
Definition tool_result_of (r : result CallToolResult) : ToolResult :=
  match r with
  | Err err => WithError (ErrorResult ("mcp call failed: " +:+ Error err)) err
  | Ok res =>
      if IsError res
      then ErrorResult (extractTextContent (Content res))
      else NewToolResult (extractTextContent (Content res))
  end.

(** [MCPToolAdapter.Execute]: the call goes to the client under
    [originalName]. *)
Definition Execute (a : MCPToolAdapter) (args : any) : ToolResult :=
  tool_result_of (CallTool (client a) (originalName a) args).

(** [ServerConfig]. *)
Record ServerConfig : Type := {
  cfg_Name : string;
  cfg_Type : string;
  cfg_URL : string;
  cfg_Headers : list (string * string);
  cfg_Cmd : string;
  cfg_Args : list string;
  cfg_Env : list string
}.

(** The three constructors [StartAndRegister] chooses from, with the
    arguments it passes. *)
Inductive connect_call : Type :=
| CallNewSSEClient (url : string) (headers : list (string * string))
| CallNewHTTPClient (url : string) (headers : list (string * string))
| CallNewStdioClient (cmd : string) (args env : list string).

(** What [StartAndRegister] does to the outside, in order. *)
Inductive effect : Type :=
| EConnect (c : connect_call)
| EInitialize (h : nat)
| EListTools (h : nat)
| EClose (h : nat)
| ERegister (a : MCPToolAdapter).

Section Manager.

(** The registry of [pkg/tools] is used through [Register] only, so
    its type and the operation are parameters. *)
Variable ToolRegistry : Type.
Variable Register : ToolRegistry -> MCPToolAdapter -> ToolRegistry.

(** The three client constructors, seen from the manager: the
    connection made, or the error.  [NewHTTPClient] returns no error. *)
Variable newSSEClient : string -> list (string * string) -> result Client.
Variable newHTTPClient : string -> list (string * string) -> Client.
Variable newStdioClient : string -> list string -> list string -> result Client.

Record Manager : Type := {
  registry : ToolRegistry;
  clients : gmap string Client
}.

Definition NewManager (r : ToolRegistry) : Manager :=
  {| registry := r; clients := ∅ |}.

(** The state threaded through [StartAndRegister]: the manager and the
    effects so far (latest last). *)
Record run_state : Type := {
  mgr : Manager;
  trace : list effect
}.

Definition emit (e : effect) (s : run_state) : run_state :=
  {| mgr := mgr s; trace := trace s ++ [e] |}.

(** The body of the registration loop for one definition: the adapter
    is built from the prefixed definition and the original name, then
    registered. *)
Definition loop_adapter (cfg : ServerConfig) (c : Client)
    (tDef : MCPToolDefinition) : MCPToolAdapter :=
  let original := def_Name tDef in
  let tDef' := {| def_Name := cfg_Name cfg +:+ "_" +:+ original;
                  def_Description := def_Description tDef;
                  def_InputSchema := def_InputSchema tDef |} in
  NewMCPToolAdapter c tDef' original.

Definition register_one (cfg : ServerConfig) (c : Client)
    (s : run_state) (tDef : MCPToolDefinition) : run_state :=
  let adapter := loop_adapter cfg c tDef in
  {| mgr := {| registry := Register (registry (mgr s)) adapter;
               clients := clients (mgr s) |};
     trace := trace s ++ [ERegister adapter] |}.

(** The branch on [cfg.Type] that builds the client: the constructor
    called and what it returned. *)
Definition build_client (cfg : ServerConfig) : connect_call * result Client :=
  if decide (cfg_Type cfg = "sse")
  then (CallNewSSEClient (cfg_URL cfg) (cfg_Headers cfg),
        newSSEClient (cfg_URL cfg) (cfg_Headers cfg))
  else if decide (cfg_Type cfg = "http")
  then (CallNewHTTPClient (cfg_URL cfg) (cfg_Headers cfg),
        Ok (newHTTPClient (cfg_URL cfg) (cfg_Headers cfg)))
  else (CallNewStdioClient (cfg_Cmd cfg) (cfg_Args cfg) (cfg_Env cfg),
        newStdioClient (cfg_Cmd cfg) (cfg_Args cfg) (cfg_Env cfg)).

(** [Manager.StartAndRegister]: the returned error ([None] is [nil]) and
    the state after the call. *)
Definition StartAndRegister (m : Manager) (cfg : ServerConfig)
    : option error * run_state :=
  let s0 := {| mgr := m; trace := [] |} in
  match clients m !! cfg_Name cfg with
  | Some _ =>
      (Some (Errorf ("mcp server " +:+ cfg_Name cfg +:+ " is already running")),
       s0)
  | None =>
      let s1 := emit (EConnect (fst (build_client cfg))) s0 in
      match snd (build_client cfg) with
      | Err err =>
          (Some (Errorf_w ("failed to connect to " +:+ cfg_Name cfg +:+ ": ") err),
           s1)
      | Ok c =>
          let s2 := emit (EInitialize (handle c)) s1 in
          match Initialize c with
          | Some err =>
              (Some (Errorf_w ("mcp initialization failed for "
                               +:+ cfg_Name cfg +:+ ": ") err),
               emit (EClose (handle c)) s2)
          | None =>
              let s3 := emit (EListTools (handle c)) s2 in
              match ListTools c with
              | Err err =>
                  (Some (Errorf_w ("failed to list tools from "
                                   +:+ cfg_Name cfg +:+ ": ") err),
                   emit (EClose (handle c)) s3)
              | Ok toolsList =>
                  let s4 := fold_left (register_one cfg c) toolsList s3 in
                  (None,
                   {| mgr := {| registry := registry (mgr s4);
                                clients := <[cfg_Name cfg := c]> (clients (mgr s4)) |};
                      trace := trace s4 |})
              end
          end
      end
  end.

(** The adapters handed to [Register], in order. *)
Definition registered (tr : list effect) : list MCPToolAdapter :=
  omap (fun e => match e with ERegister a => Some a | _ => None end) tr.

End Manager.

Arguments Manager : clear implicits.
Arguments run_state : clear implicits.
Arguments registry {ToolRegistry} m.
Arguments clients {ToolRegistry} m.
Arguments mgr {ToolRegistry} r.
Arguments trace {ToolRegistry} r.
Arguments NewManager {ToolRegistry} r.
Arguments emit {ToolRegistry} e s.
Arguments register_one {ToolRegistry} Register cfg c s tDef.
Arguments StartAndRegister {ToolRegistry} Register newSSEClient newHTTPClient
  newStdioClient m cfg.

(** ** A small provider, for the examples *)

Definition echo_def : MCPToolDefinition :=
  {| def_Name := "echo"; def_Description := "echoes";
     def_InputSchema := AObject [("type", AString "object")] |}.

Definition echo_client : Client :=
  {| handle := 7;
     Initialize := None;
     ListTools := Ok [echo_def];
     CallTool := fun name args =>
       if decide (name = "echo")
       then Ok {| Content := [{| block_Type := "text"; block_Text := "hi" |}];
                  IsError := false |}
       else Err (Errorf ("rpc error -32601: unknown tool " +:+ name)) |}.

(** A provider whose handshake is refused. *)
Definition broken_client : Client :=
  {| handle := 8;
     Initialize := Some (Errorf "rpc error -32600: bad handshake");
     ListTools := Ok [echo_def];
     CallTool := fun _ _ => Err (Errorf "unreachable") |}.

(** A registry that keeps the adapters in the order of registration. *)
Definition list_Register (r : list MCPToolAdapter) (a : MCPToolAdapter)
    : list MCPToolAdapter := r ++ [a].

Definition demo_Start (stdio : result Client) :=
  StartAndRegister list_Register
    (fun _ _ => Err (Errorf "failed to connect to SSE endpoint"))
    (fun _ _ => echo_client)
    (fun _ _ _ => stdio).

Definition demo_manager : Manager (list MCPToolAdapter) := NewManager [].

Definition demo_cfg (type : string) : ServerConfig :=
  {| cfg_Name := "alias"; cfg_Type := type; cfg_URL := "";
     cfg_Headers := []; cfg_Cmd := "mcp-echo"; cfg_Args := ["--stdio"];
     cfg_Env := [] |}.

(** ** The environment of a local provider, and the manager's life cycle *)

(** The cut of [BuildEnv] at the first [=] of an entry of [os.Environ()]:
    the name before it and the value after it; [None] when the entry has
    no [=]. *)
Fixpoint cut_eq (envStr : string) : option (string * string) :=
  match envStr with
  | EmptyString => None
  | String c rest =>
      if decide (c = "="%char) then Some ("", rest)
      else match cut_eq rest with
           | Some (k, v) => Some (String c k, v)
           | None => None
           end
  end.

(** The body of the loop of [BuildEnv] over the system environment. *)
Definition env_entry (envMap : gmap string string) (envStr : string)
    : gmap string string :=
  match cut_eq envStr with
  | Some (k, v) => <[k := v]> envMap
  | None => envMap
  end.

(** [fmt.Sprintf("%s=%s", k, v)]. *)
Definition env_format (kv : string * string) : string :=
  kv.1 +:+ "=" +:+ kv.2.

(** The configuration of one server in [config.MCPConfig], with the
    fields [InitFromConfig] reads. *)
Record MCPServerConfig : Type := {
  srv_Type : string;
  srv_URL : string;
  srv_Headers : list (string * string);
  srv_Command : string;
  srv_Args : list string;
  srv_Env : gmap string string
}.

Section Lifecycle.

(** A [for k, v := range m] visits every entry of the map [m] once, in
    an order that Go leaves open: [range m] is the order taken. *)
Variable range : forall A : Type, gmap string A -> list (string * A).

(** [os.Environ()]. *)
Variable Environ : list string.

(** [BuildEnv]. *)
Definition BuildEnv (customEnv : gmap string string) : list string :=
  let sysEnv := Environ in
  if decide (size customEnv = 0) then sysEnv
  else
    let envMap := foldl env_entry ∅ sysEnv in
    let envMap :=
      foldl (fun m kv => <[kv.1 := kv.2]> m) envMap (range _ customEnv) in
    env_format <$> range _ envMap.

Variable ToolRegistry : Type.
Variable Register : ToolRegistry -> MCPToolAdapter -> ToolRegistry.
Variable newSSEClient : string -> list (string * string) -> result Client.
Variable newHTTPClient : string -> list (string * string) -> Client.
Variable newStdioClient : string -> list string -> list string -> result Client.

(** The body of the loop of [Manager.Shutdown]. *)
Definition shutdown_one (s : run_state ToolRegistry) (entry : string * Client)
    : run_state ToolRegistry :=
  {| mgr := {| registry := registry (mgr s);
               clients := delete entry.1 (clients (mgr s)) |};
     trace := trace s ++ [EClose (handle entry.2)] |}.

(** [Manager.Shutdown]. *)
Definition Shutdown (m : Manager ToolRegistry) : run_state ToolRegistry :=
  foldl shutdown_one {| mgr := m; trace := [] |} (range _ (clients m)).

(** The [ServerConfig] that [InitFromConfig] makes of an entry. *)
Definition server_config (name : string) (srvCfg : MCPServerConfig)
    : ServerConfig :=
  {| cfg_Name := name; cfg_Type := srv_Type srvCfg; cfg_URL := srv_URL srvCfg;
     cfg_Headers := srv_Headers srvCfg; cfg_Cmd := srv_Command srvCfg;
     cfg_Args := srv_Args srvCfg; cfg_Env := BuildEnv (srv_Env srvCfg) |}.

(** The body of the loop of [Manager.InitFromConfig]: the error of
    [StartAndRegister] is logged and the loop goes on. *)
Definition init_one (s : run_state ToolRegistry)
    (entry : string * MCPServerConfig) : run_state ToolRegistry :=
  let started :=
    StartAndRegister Register newSSEClient newHTTPClient newStdioClient
      (mgr s) (server_config entry.1 entry.2) in
  {| mgr := mgr (snd started); trace := trace s ++ trace (snd started) |}.

(** [Manager.InitFromConfig]. *)
Definition InitFromConfig (m : Manager ToolRegistry)
    (servers : gmap string MCPServerConfig) : run_state ToolRegistry :=
  foldl init_one {| mgr := m; trace := [] |} (range _ servers).

End Lifecycle.

Arguments Shutdown range {ToolRegistry} m.
Arguments init_one range Environ {ToolRegistry} Register newSSEClient
  newHTTPClient newStdioClient s entry.
Arguments InitFromConfig range Environ {ToolRegistry} Register newSSEClient
  newHTTPClient newStdioClient m servers.
Arguments shutdown_one {ToolRegistry} s entry.

(** The client a successful [StartAndRegister] of [cfg] records: the one
    its constructor returns, when the handshake and the listing of the tools
    succeed. *)
Definition started_client (built : result Client) : option Client :=
  match built with
  | Ok c =>
      match Initialize c, ListTools c with
      | None, Ok _ => Some c
      | _, _ => None
      end
  | Err _ => None
  end.

(** The order of [range] used in the examples. *)
Definition sorted_range (A : Type) (m : gmap string A) : list (string * A) :=
  map_to_list m.

(** A system environment with one entry that has no [=], a custom
    variable that overrides [HOME], a manager that holds two clients, and
    a configuration of two servers, of which the SSE one cannot be
    reached. *)
Definition demo_Environ : list string := ["PATH=/bin:/usr/bin"; "HOME=/root"; "junk"].

Definition demo_customEnv : gmap string string := {[ "HOME" := "/tmp" ]}.

Definition demo_two_clients : Manager (list MCPToolAdapter) :=
  {| registry := []; clients := {[ "a" := echo_client; "b" := broken_client ]} |}.

Definition demo_servers : gmap string MCPServerConfig :=
  {[ "local" := {| srv_Type := "stdio"; srv_URL := ""; srv_Headers := [];
                   srv_Command := "mcp-echo"; srv_Args := ["--stdio"];
                   srv_Env := demo_customEnv |};
     "remote" := {| srv_Type := "sse"; srv_URL := "http://mcp.example/sse";
                    srv_Headers := []; srv_Command := ""; srv_Args := [];
                    srv_Env := ∅ |} ]}.

Definition demo_Init :=
  InitFromConfig sorted_range demo_Environ list_Register
    (fun _ _ => Err (Errorf "failed to connect to SSE endpoint"))
    (fun _ _ => echo_client)
    (fun _ _ _ => Ok echo_client).

(** * Part II: the sandbox filesystem *)

(** ** Go's [path/filepath] on Unix

    The functions of [path/filepath] that the code calls, with the
    behaviour the package documents for Unix paths: elements are
    separated by [/], and [Clean] drops empty and [.] elements and
    resolves [..] against the element before it. *)

Definition slash : ascii := "/"%char.

(** [strings.HasPrefix(s, prefix)]. *)
Definition HasPrefix (s prefix : string) : bool := String.prefix prefix s.

(** [filepath.IsAbs]. *)
Definition IsAbs (path : string) : bool := HasPrefix path "/".

(** [strings.Split(s, "/")]. *)
Fixpoint split_slash (s : string) : list string :=
  match s with
  | EmptyString => [""]
  | String c s' =>
      if decide (c = slash) then "" :: split_slash s'
      else match split_slash s' with
           | [] => [String c ""]
           | e :: es => String c e :: es
           end
  end.

(** [strings.Join(es, "/")]. *)
Fixpoint join_slash (es : list string) : string :=
  match es with
  | [] => ""
  | e :: es' =>
      match es' with
      | [] => e
      | _ :: _ => e +:+ String slash (join_slash es')
      end
  end.

(** The element loop of [Clean]: [out] is the output so far, last element
    first.  An empty or [.] element is skipped; [..] removes the last
    real element, is kept when there is none and the path is relative,
    and is dropped at the root. *)
Fixpoint clean_elems (rooted : bool) (out es : list string) : list string :=
  match es with
  | [] => rev out
  | e :: es' =>
      if decide (e = "") then clean_elems rooted out es'
      else if decide (e = ".") then clean_elems rooted out es'
      else if decide (e = "..") then
        match out with
        | top :: out' =>
            if decide (top = "..") then clean_elems rooted (".." :: out) es'
            else clean_elems rooted out' es'
        | [] =>
            if rooted then clean_elems rooted [] es'
            else clean_elems rooted [".."] es'
        end
      else clean_elems rooted (e :: out) es'
  end.

(** [filepath.Clean]. *)
Definition Clean (path : string) : string :=
  if decide (path = "") then "."
  else
    let es := clean_elems (IsAbs path) [] (split_slash path) in
    if IsAbs path then String slash (join_slash es)
    else match es with
         | [] => "."
         | _ :: _ => join_slash es
         end.

(** [filepath.Join] of two elements. *)
Definition Join (a b : string) : string :=
  if decide (a = "") then (if decide (b = "") then "" else Clean b)
  else Clean (a +:+ String slash b).

Fixpoint has_slash (s : string) : bool :=
  match s with
  | EmptyString => false
  | String c s' => bool_decide (c = slash) || has_slash s'
  end.

(** The part of [path] up to and including its last separator. *)
Fixpoint dir_part (path : string) : string :=
  match path with
  | EmptyString => ""
  | String c s' =>
      if bool_decide (c = slash) || has_slash s'
      then String c (dir_part s')
      else ""
  end.

(** [filepath.Dir]. *)
Definition Dir (path : string) : string := Clean (dir_part path).

(** The elements the scanning loop of [Rel] sees in a cleaned path. *)
Definition rel_elems (s : string) : list string :=
  if decide (s = "") then []
  else if decide (s = "/") then [""]
  else split_slash s.

(** The loop of [Rel] that skips the common leading elements: what is
    left of both, and whether it stopped at two different elements. *)
Fixpoint rel_strip (bs ts : list string) : list string * list string * bool :=
  match bs, ts with
  | b :: bs', t :: ts' =>
      if decide (b = t) then rel_strip bs' ts' else (bs, ts, true)
  | _, _ => (bs, ts, false)
  end.

(** [filepath.Rel]. *)
Definition Rel (basepath targpath : string) : result string :=
  let base := Clean basepath in
  let targ := Clean targpath in
  let cannot :=
    Err (Errorf ("Rel: can't make " +:+ targpath +:+ " relative to " +:+ basepath)) in
  if decide (targ = base) then Ok "."
  else
    let base := if decide (base = ".") then "" else base in
    if negb (eqb (IsAbs base) (IsAbs targ)) then cannot
    else
      match rel_strip (rel_elems base) (rel_elems targ) with
      | (bs, ts, differ) =>
          if differ && bool_decide (head bs = Some "..") then cannot
          else match bs with
               | [] => Ok (join_slash ts)
               | _ :: _ => Ok (join_slash (replicate (length bs) ".." ++ ts))
               end
      end.

(** [filepath.IsLocal]. *)
Definition IsLocal (path : string) : bool :=
  if IsAbs path || bool_decide (path = "") then false
  else
    let hasDots :=
      existsb (fun part => bool_decide (part = ".") || bool_decide (part = ".."))
              (split_slash path) in
    let path := if hasDots then Clean path else path in
    negb (bool_decide (path = "..") || HasPrefix path "../").

(** What the code asks of the host besides file contents: the working
    directory, for [filepath.Abs], and the resolution of symbolic links. *)
Class Host : Type := {
  Getwd : result string;
  EvalSymlinks : string -> result string
}.

(** [os.ErrNotExist]. *)
Definition ErrNotExist : error :=
  {| Error := "file does not exist"; cause := Some ENOENT |}.

(** The error of [resolveExistingAncestor] when the bound of its loop is
    used up; [resolveExistingAncestor_terminates] shows that it never
    is. *)
Definition ErrUnbounded : error :=
  {| Error := "resolveExistingAncestor: too many iterations"; cause := None |}.

Section Validate.

Context `{Host}.

(** [filepath.Abs]. *)
Definition Abs (path : string) : result string :=
  if IsAbs path then Ok (Clean path)
  else match Getwd with
       | Ok wd => Ok (Join wd path)
       | Err err => Err err
       end.

Definition isWithinWorkspace (candidate workspace : string) : bool :=
  match Rel (Clean workspace) (Clean candidate) with
  | Ok rel => IsLocal rel
  | Err _ => false
  end.

(** The loop of [resolveExistingAncestor], at most [n] iterations. *)
Fixpoint resolveExistingAncestor_loop (n : nat) (current : string)
    : result string :=
  match n with
  | O => Err ErrUnbounded
  | S n' =>
      match EvalSymlinks current with
      | Ok resolved => Ok resolved
      | Err err =>
          if negb (IsNotExist err) then Err err
          else if decide (Dir current = current) then Err ErrNotExist
          else resolveExistingAncestor_loop n' (Dir current)
      end
  end.

(** [resolveExistingAncestor]: every iteration but the last shortens
    [current] or sets it to ".", so the length of the path bounds the
    loop. *)
Definition resolveExistingAncestor (path : string) : result string :=
  resolveExistingAncestor_loop (String.length (Clean path) + 2) (Clean path).

(** The symlink-resolved form of the workspace, or its absolute form when
    it cannot be resolved. *)
Definition workspaceReal (absWorkspace : string) : string :=
  match EvalSymlinks absWorkspace with
  | Ok resolved => resolved
  | Err _ => absWorkspace
  end.

(** The absolute form of the input path. *)
Definition absolute_path (absWorkspace path : string) : result string :=
  if IsAbs path then Ok (Clean path)
  else Abs (Join absWorkspace path).

(** The checks of [validatePath] under [restrict]: [None] when the path
    passes. *)
Definition restrict_check (absPath absWorkspace : string) : option error :=
  if negb (isWithinWorkspace absPath absWorkspace)
  then Some (Errorf "access denied: path is outside the workspace")
  else
    match EvalSymlinks absPath with
    | Ok resolved =>
        if negb (isWithinWorkspace resolved (workspaceReal absWorkspace))
        then Some (Errorf "access denied: symlink resolves outside workspace")
        else None
    | Err err =>
        if IsNotExist err then
          match resolveExistingAncestor (Dir absPath) with
          | Ok parentResolved =>
              if negb (isWithinWorkspace parentResolved (workspaceReal absWorkspace))
              then Some (Errorf "access denied: symlink resolves outside workspace")
              else None
          | Err err' =>
              if negb (IsNotExist err')
              then Some (Errorf_w "failed to resolve path: " err')
              else None
          end
        else Some (Errorf_w "failed to resolve path: " err)
    end.

(** [validatePath]: the returned path and error. *)
Definition validatePath (path workspace : string) (restrict : bool)
    : string * option error :=
  if decide (workspace = "") then (path, Some (Errorf "workspace is not defined"))
  else
    match Abs workspace with
    | Err err => ("", Some (Errorf_w "failed to resolve workspace path: " err))
    | Ok absWorkspace =>
        match absolute_path absWorkspace path with
        | Err err => ("", Some (Errorf_w "failed to resolve file path: " err))
        | Ok absPath =>
            if restrict then
              match restrict_check absPath absWorkspace with
              | Some err => ("", Some err)
              | None => (absPath, None)
              end
            else (absPath, None)
        end
    end.

End Validate.

(** Helper to get a safe relative path for [os.Root] usage. *)
Definition getSafeRelPath (workspace path : string) : result string :=
  if decide (workspace = "") then Err (Errorf "workspace is not defined")
  else
    let rel := Clean path in
    let rel' :=
      if IsAbs rel then
        match Rel workspace rel with
        | Ok r => Ok r
        | Err err => Err (Errorf_w "failed to calculate relative path: " err)
        end
      else Ok rel in
    match rel' with
    | Err err => Err err
    | Ok rel =>
        if negb (IsLocal rel) then Err (Errorf ("path escapes workspace: " +:+ path))
        else Ok rel
    end.

(** ** Files

    The files of the host, or of an opened root, as a map from path to
    contents, and the calls made on them, in order. *)

Inductive syscall : Type :=
| SysMkdirAll (dir : string)
| SysWriteFile (path data : string)
| SysRename (oldpath newpath : string)
| SysRemove (path : string)
| SysReadFile (path : string)
| SysReadDir (path : string).

Record world : Type := {
  files : gmap string string;
  calls : list syscall
}.

Record DirEntry : Type := {
  entry_Name : string;
  entry_IsDir : bool
}.

(** What the operating system answers during one operation of the
    filesystem layer: for each call, the error it fails with ([None]:
    it succeeds).  A failed write may leave a file behind, empty or
    partial. *)
Record os_answers : Type := {
  open_root : option errno;
  mkdir_all : option errno;
  write_file : option (errno * option string);
  rename : option errno;
  remove : option errno;
  read_file : option errno;
  read_dir : result (list DirEntry)
}.

Definition called (c : syscall) (w : world) : world :=
  {| files := files w; calls := calls w ++ [c] |}.

Definition set_files (f : gmap string string) (w : world) : world :=
  {| files := f; calls := calls w |}.

Section Syscalls.

Variable os : os_answers.

(** [os.MkdirAll] and [root.MkdirAll]. *)
Definition MkdirAll (dir : string) (w : world) : option error * world :=
  let w := called (SysMkdirAll dir) w in
  match mkdir_all os with
  | Some e => (Some (PathError "mkdir" dir e), w)
  | None => (None, w)
  end.

(** [os.WriteFile] and [root.WriteFile]. *)
Definition WriteFile (path data : string) (w : world) : option error * world :=
  let w := called (SysWriteFile path data) w in
  match write_file os with
  | Some (e, remains) =>
      (Some (PathError "open" path e),
       match remains with
       | Some partial => set_files (<[path := partial]> (files w)) w
       | None => w
       end)
  | None => (None, set_files (<[path := data]> (files w)) w)
  end.

(** [os.Rename] and [root.Rename]. *)
Definition Rename (oldpath newpath : string) (w : world) : option error * world :=
  let w := called (SysRename oldpath newpath) w in
  match rename os with
  | Some e => (Some (PathError "rename" (oldpath +:+ " " +:+ newpath) e), w)
  | None =>
      match files w !! oldpath with
      | None => (Some (PathError "rename" (oldpath +:+ " " +:+ newpath) ENOENT), w)
      | Some data =>
          (None, set_files (<[newpath := data]> (delete oldpath (files w))) w)
      end
  end.

(** [os.Remove] and [root.Remove]; the code drops the error. *)
Definition Remove (path : string) (w : world) : world :=
  let w := called (SysRemove path) w in
  match remove os with
  | Some _ => w
  | None => set_files (delete path (files w)) w
  end.

(** [os.ReadFile] and [root.ReadFile]. *)
Definition ReadFile (path : string) (w : world) : result string * world :=
  let w := called (SysReadFile path) w in
  match read_file os with
  | Some e => (Err (PathError "open" path e), w)
  | None =>
      match files w !! path with
      | Some data => (Ok data, w)
      | None => (Err (PathError "open" path ENOENT), w)
      end
  end.

(** [fs.ReadDir(root.FS(), path)]. *)
Definition ReadDir (path : string) (w : world) : result (list DirEntry) * world :=
  (read_dir os, called (SysReadDir path) w).

(** The name of the temporary file: [fmt.Sprintf("%s.%d.tmp", path, now)]
    for [now] the value of [time.Now().UnixNano()]. *)
Definition tmp_name (path : string) (now : Z) : string :=
  path +:+ "." +:+ pretty now +:+ ".tmp".

(** [hostFs.WriteFile]. *)
Definition hostFs_WriteFile (now : Z) (path data : string) (w : world)
    : option error * world :=
  let dir := Dir path in
  match MkdirAll dir w with
  | (Some err, w) =>
      (Some (Errorf_w "failed to create parent directories: " err), w)
  | (None, w) =>
      let tmpPath := tmp_name path now in
      match WriteFile tmpPath data w with
      | (Some err, w) =>
          let w := Remove tmpPath w in
          (Some (Errorf_w "failed to write temp file: " err), w)
      | (None, w) =>
          match Rename tmpPath path w with
          | (Some err, w) =>
              let w := Remove tmpPath w in
              (Some (Errorf_w "failed to replace original file: " err), w)
          | (None, w) => (None, w)
          end
      end
  end.

(** [sandboxFs.execute]: [fn] runs on the opened root with the safe
    relative path. *)
Definition execute {A : Type} (workspace path : string)
    (fn : string -> world -> result A * world) (w : world) : result A * world :=
  if decide (workspace = "") then (Err (Errorf "workspace is not defined"), w)
  else
    match open_root os with
    | Some e =>
        (Err (Errorf_w "failed to open workspace: " (PathError "open" workspace e)), w)
    | None =>
        match getSafeRelPath workspace path with
        | Err err => (Err err, w)
        | Ok relPath => fn relPath w
        end
    end.

(** [sandboxFs.ReadFile]. *)
Definition sandboxFs_ReadFile (workspace path : string) (w : world)
    : result string * world :=
  execute workspace path (fun relPath w =>
    match ReadFile relPath w with
    | (Err err, w) =>
        if IsNotExist err
        then (Err (Errorf_w "failed to read file: file not found: " err), w)
        else if IsPermission err
                || Contains (Error err) "escapes from parent"
                || Contains (Error err) "permission denied"
        then (Err (Errorf_w "failed to read file: access denied: " err), w)
        else (Err (Errorf_w "failed to read file: " err), w)
    | (Ok fileContent, w) => (Ok fileContent, w)
    end) w.

(** The function [sandboxFs.WriteFile] runs on the root. *)
Definition sandboxFs_write (now : Z) (data relPath : string) (w : world)
    : result unit * world :=
  let dir := Dir relPath in
  let mk :=
    if bool_decide (dir <> ".") && bool_decide (dir <> "/")
    then MkdirAll dir w
    else (None, w) in
  match mk with
  | (Some err, w) =>
      (Err (Errorf_w "failed to create parent directories: " err), w)
  | (None, w) =>
      let tmpRelPath := tmp_name relPath now in
      match WriteFile tmpRelPath data w with
      | (Some err, w) =>
          let w := Remove tmpRelPath w in
          (Err (Errorf_w "failed to write to temp file: " err), w)
      | (None, w) =>
          match Rename tmpRelPath relPath w with
          | (Some err, w) =>
              let w := Remove tmpRelPath w in
              (Err (Errorf_w "failed to rename temp file over target: " err), w)
          | (None, w) => (Ok tt, w)
          end
      end
  end.

(** [sandboxFs.WriteFile]. *)
Definition sandboxFs_WriteFile (now : Z) (workspace path data : string)
    (w : world) : result unit * world :=
  execute workspace path (sandboxFs_write now data) w.

(** [sandboxFs.ReadDir]. *)
Definition sandboxFs_ReadDir (workspace path : string) (w : world)
    : result (list DirEntry) * world :=
  execute workspace path (fun relPath w => ReadDir relPath w) w.

End Syscalls.

(** ** The file tools

    [appendFile], [editFile] and [replaceEditContent], which the append
    and edit tools run on either filesystem, and the functions of
    [strings] they call. *)

(** [s[n:]] and [s[:n]]. *)
Fixpoint slice_from (n : nat) (s : string) : string :=
  match n, s with
  | O, _ => s
  | S n', String _ s' => slice_from n' s'
  | S _, EmptyString => ""
  end.

Fixpoint slice_to (n : nat) (s : string) : string :=
  match n, s with
  | O, _ => ""
  | S n', String c s' => String c (slice_to n' s')
  | S _, EmptyString => ""
  end.

(** [strings.Index(s, substr)]; [None] is -1. *)
Fixpoint Index (s substr : string) : option nat :=
  if String.prefix substr s then Some 0
  else match s with
       | EmptyString => None
       | String _ s' => S <$> Index s' substr
       end.

(** The width in bytes of the UTF-8 sequence that begins with the byte
    [c], followed by [rest], as [utf8.RuneCountInString] steps over it:
    an ASCII byte, a byte that begins no sequence, and a sequence that is
    cut short or has a byte out of range count as one byte. *)
Definition rune_width (c : ascii) (rest : string) : nat :=
  let b := N_of_ascii c in
  let byte (i : nat) : N :=
    match String.get i rest with Some x => N_of_ascii x | None => 0%N end in
  let continues (i : nat) : bool := (128 <=? byte i)%N && (byte i <=? 191)%N in
  let sized (size : nat) (lo hi : N) : nat :=
    if String.length rest <? size - 1 then 1
    else if negb ((lo <=? byte O)%N && (byte O <=? hi)%N) then 1
    else if size =? 2 then 2
    else if negb (continues 1) then 1
    else if size =? 3 then 3
    else if negb (continues 2) then 1
    else 4 in
  if (b <? 128)%N then 1
  else if (b <? 194)%N then 1
  else if (b <? 224)%N then sized 2 128%N 191%N
  else if (b =? 224)%N then sized 3 160%N 191%N
  else if (b =? 237)%N then sized 3 128%N 159%N
  else if (b <? 240)%N then sized 3 128%N 191%N
  else if (b =? 240)%N then sized 4 144%N 191%N
  else if (b <? 244)%N then sized 4 128%N 191%N
  else if (b =? 244)%N then sized 4 128%N 143%N
  else 1.

(** The loop of [utf8.RuneCountInString]; [skip] bytes of the sequence
    counted last are still to be stepped over. *)
Fixpoint rune_count (skip : nat) (s : string) : nat :=
  match s with
  | EmptyString => 0
  | String c rest =>
      match skip with
      | S skip' => rune_count skip' rest
      | O => S (rune_count (rune_width c rest - 1) rest)
      end
  end.

Definition RuneCountInString (s : string) : nat := rune_count 0 s.

(** The loop of [strings.Count] for a non-empty [substr], at most [n]
    iterations: the instances counted do not overlap. *)
Fixpoint Count_loop (n : nat) (s substr : string) : nat :=
  match n with
  | O => 0
  | S n' =>
      match Index s substr with
      | None => 0
      | Some i =>
          S (Count_loop n' (slice_from (i + String.length substr) s) substr)
      end
  end.

(** [strings.Count(s, substr)].  Every iteration of the loop but the
    last shortens [s], so its length bounds the loop. *)
Definition Count (s substr : string) : nat :=
  if decide (substr = "") then RuneCountInString s + 1
  else Count_loop (S (String.length s)) s substr.

(** [strings.Replace(s, old, new, 1)]. *)
Definition Replace1 (s old new : string) : string :=
  match Index s old with
  | None => s
  | Some j => slice_to j s +:+ new +:+ slice_from (j + String.length old) s
  end.

(** [replaceEditContent]. *)
Definition replaceEditContent (content oldText newText : string)
    : result string :=
  let contentStr := content in
  if negb (Contains contentStr oldText) then
    Err (Errorf "old_text not found in file. Make sure it matches exactly")
  else
    let count := Count contentStr oldText in
    if 1 <? count then
      Err (Errorf ("old_text appears " +:+ pretty count
                   +:+ " times. Please provide more context to make it unique"))
    else Ok (Replace1 contentStr oldText newText).

(** [errors.Is(err, fs.ErrNotExist)]: the chain of [%w] is followed. *)
Definition Is_ErrNotExist (err : error) : bool :=
  match cause err with Some ENOENT => true | _ => false end.

(** The [fileSystem] interface. *)
Record fileSystem : Type := {
  fs_ReadFile : string -> world -> result string * world;
  fs_WriteFile : string -> string -> world -> option error * world;
  fs_ReadDir : string -> world -> result (list DirEntry) * world
}.

(** [appendFile]. *)
Definition appendFile (sysFs : fileSystem) (path appendContent : string)
    (w : world) : option error * world :=
  match fs_ReadFile sysFs path w with
  | (Err err, w) =>
      if negb (Is_ErrNotExist err) then (Some err, w)
      else fs_WriteFile sysFs path ("" +:+ appendContent) w
  | (Ok content, w) => fs_WriteFile sysFs path (content +:+ appendContent) w
  end.

(** [editFile]. *)
Definition editFile (sysFs : fileSystem) (path oldText newText : string)
    (w : world) : option error * world :=
  match fs_ReadFile sysFs path w with
  | (Err err, w) => (Some err, w)
  | (Ok content, w) =>
      match replaceEditContent content oldText newText with
      | Err err => (Some err, w)
      | Ok newContent => fs_WriteFile sysFs path newContent w
      end
  end.

(** The text that the loop of [formatDirEntries] builds, one line for
    each entry, and the result made of it. *)
Fixpoint dir_listing (entries : list DirEntry) : string :=
  match entries with
  | [] => ""
  | entry :: rest =>
      (if entry_IsDir entry
       then "DIR:  " +:+ entry_Name entry +:+ String "010"%char ""
       else "FILE: " +:+ entry_Name entry +:+ String "010"%char "")
      +:+ dir_listing rest
  end.

Definition formatDirEntries (entries : list DirEntry) : ToolResult :=
  NewToolResult (dir_listing entries).

(** A name that fits on one line of the listing. *)
Fixpoint one_line (name : string) : bool :=
  match name with
  | EmptyString => true
  | String c rest => negb (bool_decide (c = "010"%char)) && one_line rest
  end.

Section FileSystems.

Variable os : os_answers.

(** [hostFs.ReadFile]. *)
Definition hostFs_ReadFile (path : string) (w : world) : result string * world :=
  match ReadFile os path w with
  | (Err err, w) =>
      if IsNotExist err
      then (Err (Errorf_w "failed to read file: file not found: " err), w)
      else if IsPermission err
      then (Err (Errorf_w "failed to read file: access denied: " err), w)
      else (Err (Errorf_w "failed to read file: " err), w)
  | (Ok content, w) => (Ok content, w)
  end.

(** [hostFs.ReadDir]. *)
Definition hostFs_ReadDir (path : string) (w : world)
    : result (list DirEntry) * world :=
  ReadDir os path w.

(** The two implementations of the interface; [now] is the value of
    [time.Now().UnixNano()] at the write. *)
Definition hostFs (now : Z) : fileSystem :=
  {| fs_ReadFile := hostFs_ReadFile;
     fs_WriteFile := hostFs_WriteFile os now;
     fs_ReadDir := hostFs_ReadDir |}.

Definition sandboxFs (now : Z) (workspace : string) : fileSystem :=
  {| fs_ReadFile := sandboxFs_ReadFile os workspace;
     fs_WriteFile := fun path data w =>
       match sandboxFs_WriteFile os now workspace path data w with
       | (Ok _, w) => (None, w)
       | (Err err, w) => (Some err, w)
       end;
     fs_ReadDir := sandboxFs_ReadDir os workspace |}.

End FileSystems.

(** ** A small host, for the examples

    The workspace [/w] holds [notes.txt] and the symbolic link
    [/w/link] to [/etc]. *)

Definition demo_EvalSymlinks (path : string) : result string :=
  if decide (path = "/") then Ok "/"
  else if decide (path = "/w") then Ok "/w"
  else if decide (path = "/w/notes.txt") then Ok "/w/notes.txt"
  else if decide (path = "/w/link") then Ok "/etc"
  else if decide (path = "/w/link/passwd") then Ok "/etc/passwd"
  else if decide (path = "/etc") then Ok "/etc"
  else if decide (path = "/etc/passwd") then Ok "/etc/passwd"
  else Err (PathError "lstat" path ENOENT).

Definition demo_host : Host :=
  {| Getwd := Ok "/home/agent"; EvalSymlinks := demo_EvalSymlinks |}.

Definition demo_world : world :=
  {| files := {[ "notes.txt" := "old" ]}; calls := [] |}.

(** Every call succeeds. *)
Definition os_fine : os_answers :=
  {| open_root := None; mkdir_all := None; write_file := None; rename := None;
     remove := None; read_file := None; read_dir := Ok [] |}.

(** The disk is full: the write of the temporary file fails and leaves
    an empty file. *)
Definition os_disk_full : os_answers :=
  {| open_root := None; mkdir_all := None;
     write_file := Some (EOTHER "no space left on device", Some "");
     rename := None; remove := None; read_file := None; read_dir := Ok [] |}.

(** The file of a read cannot be opened by this user. *)
Definition os_unreadable : os_answers :=
  {| open_root := None; mkdir_all := None; write_file := None; rename := None;
     remove := None; read_file := Some EACCES; read_dir := Ok [] |}.

(** The workspace cannot be opened: its directory is gone. *)
Definition os_workspace_gone : os_answers :=
  {| open_root := Some ENOENT; mkdir_all := None; write_file := None;
     rename := None; remove := None; read_file := None; read_dir := Ok [] |}.

(** The root refuses the path of a read. *)
Definition os_read_escapes : os_answers :=
  {| open_root := None; mkdir_all := None; write_file := None; rename := None;
     remove := None; read_file := Some EESCAPE; read_dir := Ok [] |}.

(** ** What an atomic write has to do

    [atomic_write os mkdirs tmp target data w failed w']: a write of
    [data] to [target] through the temporary file [tmp], started in [w]
    after the calls [mkdirs], ended in [w'] and reported an error iff
    [failed].  The only file written is [tmp], which is not the target;
    - when the write of [tmp] fails, [tmp] is removed, the call fails and
      the target holds what it held;
    - when the rename fails, [tmp] is removed and the call fails (the
      target, too, holds what it held);
    - otherwise the target holds [data] and [tmp] is gone.
    "Removed" is the call of [Remove]; the file is then absent unless
    [Remove] itself fails. *)
Definition atomic_write (os : os_answers) (mkdirs : list syscall)
    (tmp target data : string) (w : world) (failed : bool) (w' : world) : Prop :=
  tmp <> target /\
  match write_file os, rename os with
  | Some _, _ =>
      failed = true /\
      calls w' = calls w ++ mkdirs ++ [SysWriteFile tmp data; SysRemove tmp] /\
      (remove os = None -> files w' !! tmp = None) /\
      files w' !! target = files w !! target
  | None, Some _ =>
      failed = true /\
      calls w' = calls w ++ mkdirs ++
                 [SysWriteFile tmp data; SysRename tmp target; SysRemove tmp] /\
      (remove os = None -> files w' !! tmp = None) /\
      files w' !! target = files w !! target
  | None, None =>
      failed = false /\
      calls w' = calls w ++ mkdirs ++ [SysWriteFile tmp data; SysRename tmp target] /\
      files w' !! tmp = None /\
      files w' !! target = Some data
  end.

(** The directories [sandboxFs.WriteFile] creates for a relative path. *)
Definition sandbox_mkdirs (relPath : string) : list syscall :=
  if bool_decide (Dir relPath <> ".") && bool_decide (Dir relPath <> "/")
  then [SysMkdirAll (Dir relPath)] else [].

(** ** What the claims about paths speak of *)

(** The elements of a path once cleaned. *)
Definition elements (path : string) : list string :=
  clean_elems (IsAbs path) [] (split_slash path).

(** [outside t w]: the absolute path [t] is neither [w] nor below it:
    the elements of [w] are not the first elements of [t]. *)
Definition outside (t w : string) : Prop :=
  IsAbs t = true /\ IsAbs w = true /\ ~ elements w `prefix_of` elements t.

(** [nearest_existing cur t]: walking up from [cur] through [Dir], the
    first path that exists resolves to [t]. *)
Inductive nearest_existing `{Host} : string -> string -> Prop :=
| nearest_here cur t :
    EvalSymlinks cur = Ok t -> nearest_existing cur t
| nearest_up cur err t :
    EvalSymlinks cur = Err err ->
    IsNotExist err = true ->
    Dir cur <> cur ->
    nearest_existing (Dir cur) t ->
    nearest_existing cur t.

(** [resolves_to absPath t]: resolving the symbolic links of [absPath]
    gives [t]; when [absPath] does not exist, [t] is what its nearest
    existing ancestor resolves to. *)
Definition resolves_to `{Host} (absPath t : string) : Prop :=
  EvalSymlinks absPath = Ok t \/
  (exists err, EvalSymlinks absPath = Err err /\ IsNotExist err = true /\
               nearest_existing (Clean (Dir absPath)) t).

(** The bound of the loop of [resolveExistingAncestor] is enough when the path is a fixed point of
    [Dir] or shorter than the bound by two. *)
Definition enough (n : nat) (current : string) : Prop :=
  1 <= n /\ (Dir current = current \/ String.length current + 2 <= n).

(** The path a sandboxed operation is asked for, relative to the
    workspace, before the check that it stays inside. *)
Definition relative_form (workspace path : string) : result string :=
  if IsAbs (Clean path) then Rel workspace (Clean path) else Ok (Clean path).

(** A relative path that leaves the directory it starts from: it is [..]
    or begins with [../]. *)
Definition leaves_root (rel : string) : Prop :=
  rel = ".." \/ HasPrefix rel "../" = true.

(** [walks_up cur r]: the walk from [cur] up through [Dir] ends with [r]:
    the resolution of the first path that exists, the first error that
    is not "does not exist", or [ErrNotExist] when the walk reaches a
    path that is its own [Dir] and nothing existed on the way. *)
Inductive walks_up `{Host} : string -> result string -> Prop :=
| walk_found cur t :
    EvalSymlinks cur = Ok t -> walks_up cur (Ok t)
| walk_error cur err :
    EvalSymlinks cur = Err err -> IsNotExist err = false ->
    walks_up cur (Err err)
| walk_top cur err :
    EvalSymlinks cur = Err err -> IsNotExist err = true ->
    Dir cur = cur ->
    walks_up cur (Err ErrNotExist)
| walk_step cur err r :
    EvalSymlinks cur = Err err -> IsNotExist err = true ->
    Dir cur <> cur ->
    walks_up (Dir cur) r ->
    walks_up cur r.

(** The operating system fails none of the calls it is asked for: a
    read fails only for a file that does not exist. *)
Definition os_succeeds (os : os_answers) : Prop :=
  open_root os = None /\ mkdir_all os = None /\ write_file os = None /\
  rename os = None /\ read_file os = None.

(** * Part III: the JSON-RPC clients

    [StdioClient] and [SSEClient] run several goroutines on one client
    value: the callers of [sendRequest], the reader [readLoop], whoever
    calls [Close].  Each client is a machine whose state holds the fields
    of the struct, the buffers of the response channels, and where every
    goroutine stands; a label names the goroutine that moves next and
    what the outside answers it.  A step is defined when the goroutine
    can move: a [select] with no ready case and a send on a full channel
    have no step. *)

Record JSONRPCError : Type := {
  Code : Z;
  Message : string
}.

Record JSONRPCMessage : Type := {
  JSONRPC : string;
  ID : option string;
  Method : string;
  Params : string;
  Result : string;
  msg_Error : option JSONRPCError
}.

(** The libraries the clients call: [encoding/json] on the parameters
    and on the message, and [net/url] to resolve the announced endpoint
    against the SSE address ([None]: the announced text does not parse
    as a URL). *)
Class Libraries : Type := {
  Marshal_params : any -> result string;
  Marshal : JSONRPCMessage -> result string;
  Unmarshal : string -> option JSONRPCMessage;
  ResolveReference : string -> string -> option string
}.

(** [atomic.AddUint64(&c.nextID, 1)]. *)
Definition AddUint64 (n : Z) : Z := (n + 1) mod 2 ^ 64.

(** [context.Canceled] and [context.DeadlineExceeded], the values of
    [ctx.Err()]. *)
Definition Canceled : error := Errorf "context canceled".
Definition DeadlineExceeded : error := Errorf "context deadline exceeded".

(** Where a call of [sendRequest] stands.  [ch] is the response channel
    made for the call, an index into the channel buffers. *)
Inductive pc : Type :=
| AtStart (method : string) (params : any)
| AtInstall (id reqBytes : string)
| AtSend (id : string) (ch : nat) (reqBytes : string)
| AtSelect (id : string) (ch : nat)
| AtDefer (id : string) (r : result JSONRPCMessage)
| Done (id : string) (r : result JSONRPCMessage).

(** A caller: where it stands, and its context ([None]: not done). *)
Record thread : Type := {
  at_pc : pc;
  ctx_Err : option error
}.

Definition move (t : thread) (p : pc) : thread :=
  {| at_pc := p; ctx_Err := ctx_Err t |}.

(** The request message of [sendRequest]. *)
Definition request (id method paramsRaw : string) : JSONRPCMessage :=
  {| JSONRPC := "2.0"; ID := Some id; Method := method; Params := paramsRaw;
     Result := ""; msg_Error := None |}.

(** The cases of the [select] that ends [sendRequest]. *)
Inductive select_case : Type :=
| CaseCtxDone
| CaseClientDone
| CaseResponse.

(** What [sendRequest] returns for a received message. *)
Definition response_result (resp : JSONRPCMessage) : result JSONRPCMessage :=
  match msg_Error resp with
  | Some e =>
      Err (Errorf ("rpc error " +:+ pretty (Code e) +:+ ": " +:+ Message e))
  | None => Ok resp
  end.

(** The [select] of [sendRequest], when the runtime picks case [c]: the
    value returned and whether the channel was read.  [None]: the case
    is not ready.  [closed] is the error of the second case. *)
Definition select_wait (closed : error) (ctx : option error) (client_done : bool)
    (buffer : option JSONRPCMessage) (c : select_case)
    : option (result JSONRPCMessage * bool) :=
  match c with
  | CaseCtxDone =>
      match ctx with
      | Some e => Some (Err e, false)
      | None => None
      end
  | CaseClientDone =>
      if client_done then Some (Err closed, false) else None
  | CaseResponse =>
      match buffer with
      | Some resp => Some (response_result resp, true)
      | None => None
      end
  end.

(** Where a reader stands: scanning its input, in the send of a message
    on a response channel, or returned. *)
Inductive reader : Type :=
| Scanning
| Sending (ch : nat) (msg : JSONRPCMessage)
| Returned.

(** The dispatch of a decoded message, in [StdioClient.readLoop] and in
    [SSEClient.handleMessage]: with an id that has a slot, the reader
    goes on to send on the channel of the slot. *)
Definition dispatch (pending : gmap string nat) (msg : JSONRPCMessage) : reader :=
  match ID msg with
  | Some id =>
      match pending !! id with
      | Some ch => Sending ch msg
      | None => Scanning
      end
  | None => Scanning
  end.

Module Stdio.

(** The fields of [StdioClient] ([stdin] as the lines written to it),
    the channel buffers, and the goroutines. *)
Record state : Type := {
  stdin : list string;
  stdin_closed : bool;
  nextID : Z;
  pending : gmap string nat;
  ctx_done : bool;
  chans : list (option JSONRPCMessage);
  threads : list thread;
  readLoop : reader
}.

(** The client [NewStdioClient] returns once the process has started. *)
Definition NewStdioClient : state :=
  {| stdin := []; stdin_closed := false; nextID := 0; pending := ∅;
     ctx_done := false; chans := []; threads := []; readLoop := Scanning |}.

Inductive label : Type :=
| LCall (method : string) (params : any)
| LCancel (i : nat) (e : error)
| LRun (i : nat)
| LWrite (i : nat) (err : option errno)
| LSelect (i : nat) (c : select_case)
| LRead (line : string)
| LDeliver
| LEOF
| LClose.

Definition set_thread (i : nat) (t : thread) (s : state) : state :=
  {| stdin := stdin s; stdin_closed := stdin_closed s; nextID := nextID s;
     pending := pending s; ctx_done := ctx_done s; chans := chans s;
     threads := <[i := t]> (threads s); readLoop := readLoop s |}.

Definition set_readLoop (r : reader) (s : state) : state :=
  {| stdin := stdin s; stdin_closed := stdin_closed s; nextID := nextID s;
     pending := pending s; ctx_done := ctx_done s; chans := chans s;
     threads := threads s; readLoop := r |}.

Definition set_chans (c : list (option JSONRPCMessage)) (s : state) : state :=
  {| stdin := stdin s; stdin_closed := stdin_closed s; nextID := nextID s;
     pending := pending s; ctx_done := ctx_done s; chans := c;
     threads := threads s; readLoop := readLoop s |}.

Definition set_pending (m : gmap string nat) (s : state) : state :=
  {| stdin := stdin s; stdin_closed := stdin_closed s; nextID := nextID s;
     pending := m; ctx_done := ctx_done s; chans := chans s;
     threads := threads s; readLoop := readLoop s |}.

(** [c.cancel()]. *)
Definition cancel (s : state) : state :=
  {| stdin := stdin s; stdin_closed := stdin_closed s; nextID := nextID s;
     pending := pending s; ctx_done := true; chans := chans s;
     threads := threads s; readLoop := readLoop s |}.

(** The error of the second case of the [select]. *)
Definition closed : error := Errorf "client closed while waiting for response".

Section Machine.

Context `{Libraries}.

(** [sendRequest] up to the two [json.Marshal] calls: the id is drawn,
    and a marshalling error is returned at once. *)
Definition draw_id (i : nat) (t : thread) (method : string) (params : any)
    (s : state) : state :=
  let n := AddUint64 (nextID s) in
  let id := pretty n in
  let s :=
    {| stdin := stdin s; stdin_closed := stdin_closed s; nextID := n;
       pending := pending s; ctx_done := ctx_done s; chans := chans s;
       threads := threads s; readLoop := readLoop s |} in
  match Marshal_params params with
  | Err err => set_thread i (move t (Done id (Err err))) s
  | Ok paramsRaw =>
      match Marshal (request id method paramsRaw) with
      | Err err => set_thread i (move t (Done id (Err err))) s
      | Ok reqBytes => set_thread i (move t (AtInstall id reqBytes)) s
      end
  end.

(** [c.pending[id] = respCh] for a new channel of capacity one; the
    deferred delete is armed. *)
Definition install (i : nat) (t : thread) (id reqBytes : string) (s : state)
    : state :=
  let ch := length (chans s) in
  set_thread i (move t (AtSend id ch reqBytes))
    (set_pending (<[id := ch]> (pending s)) (set_chans (chans s ++ [None]) s)).

(** The deferred [delete(c.pending, id)], then the return. *)
Definition deferred (i : nat) (t : thread) (id : string)
    (r : result JSONRPCMessage) (s : state) : state :=
  set_thread i (move t (Done id r)) (set_pending (delete id (pending s)) s).

(** [c.stdin.Write(reqBytes)] with the outcome [err].  A write on the
    closed pipe does not succeed. *)
Definition write (i : nat) (t : thread) (id : string) (ch : nat)
    (reqBytes : string) (err : option errno) (s : state) : option state :=
  match err with
  | Some e =>
      Some (set_thread i
              (move t (AtDefer id
                 (Err (Errorf_w "failed to write request: "
                         (PathError "write" "|1" e)))))
              s)
  | None =>
      if stdin_closed s then None
      else
        Some (set_thread i (move t (AtSelect id ch))
                {| stdin := stdin s ++ [reqBytes +:+ String "010"%char ""];
                   stdin_closed := stdin_closed s; nextID := nextID s;
                   pending := pending s; ctx_done := ctx_done s; chans := chans s;
                   threads := threads s; readLoop := readLoop s |})
  end.

(** The [select] with the case the runtime picks. *)
Definition select (i : nat) (t : thread) (id : string) (ch : nat)
    (c : select_case) (s : state) : option state :=
  buffer ← chans s !! ch;
  '(r, received) ← select_wait closed (ctx_Err t) (ctx_done s) buffer c;
  Some (set_thread i (move t (AtDefer id r))
          (if received : bool then set_chans (<[ch := None]> (chans s)) s else s)).

(** One more line scanned by [readLoop]. *)
Definition read_line (line : string) (s : state) : state :=
  match Unmarshal line with
  | None => s
  | Some msg => set_readLoop (dispatch (pending s) msg) s
  end.

Definition step (s : state) (l : label) : option state :=
  match l with
  | LCall method params =>
      Some {| stdin := stdin s; stdin_closed := stdin_closed s; nextID := nextID s;
              pending := pending s; ctx_done := ctx_done s; chans := chans s;
              threads := threads s ++ [{| at_pc := AtStart method params;
                                          ctx_Err := None |}];
              readLoop := readLoop s |}
  | LCancel i e =>
      t ← threads s !! i;
      Some (set_thread i {| at_pc := at_pc t;
                            ctx_Err := Some (default e (ctx_Err t)) |} s)
  | LRun i =>
      t ← threads s !! i;
      match at_pc t with
      | AtStart method params => Some (draw_id i t method params s)
      | AtInstall id reqBytes => Some (install i t id reqBytes s)
      | AtDefer id r => Some (deferred i t id r s)
      | _ => None
      end
  | LWrite i err =>
      t ← threads s !! i;
      match at_pc t with
      | AtSend id ch reqBytes => write i t id ch reqBytes err s
      | _ => None
      end
  | LSelect i c =>
      t ← threads s !! i;
      match at_pc t with
      | AtSelect id ch => select i t id ch c s
      | _ => None
      end
  | LRead line =>
      match readLoop s with
      | Scanning => Some (read_line line s)
      | _ => None
      end
  | LDeliver =>
      match readLoop s with
      | Sending ch msg =>
          match chans s !! ch with
          | Some None =>
              Some (set_readLoop Scanning (set_chans (<[ch := Some msg]> (chans s)) s))
          | _ => None
          end
      | _ => None
      end
  | LEOF =>
      match readLoop s with
      | Scanning => Some (set_readLoop Returned (cancel s))
      | _ => None
      end
  | LClose =>
      Some {| stdin := stdin s; stdin_closed := true; nextID := nextID s;
              pending := pending s; ctx_done := true; chans := chans s;
              threads := threads s; readLoop := readLoop s |}
  end.

Fixpoint run (s : state) (ls : list label) : option state :=
  match ls with
  | [] => Some s
  | l :: ls' =>
      match step s l with
      | Some s' => run s' ls'
      | None => None
      end
  end.

End Machine.

End Stdio.

(** ** Strings of the SSE reader *)

(** The white space of [unicode.IsSpace], as it stands in a string, which
    Go holds in UTF-8.  In one byte: tab, line feed, vertical tab, form
    feed, carriage return and space. *)
Definition is_space (c : ascii) : bool :=
  bool_decide (c = " "%char) || bool_decide (c = "009"%char)
  || bool_decide (c = "010"%char) || bool_decide (c = "011"%char)
  || bool_decide (c = "012"%char) || bool_decide (c = "013"%char).

(** In two bytes: U+0085 ([C2 85]) and U+00A0 ([C2 A0]). *)
Definition is_space2 (b1 b2 : ascii) : bool :=
  bool_decide (b1 = "194"%char)
  && (bool_decide (b2 = "133"%char) || bool_decide (b2 = "160"%char)).

(** In three bytes: U+1680 ([E1 9A 80]), U+2000 to U+200A ([E2 80 80] to
    [E2 80 8A]), U+2028, U+2029 and U+202F ([E2 80 A8], [E2 80 A9],
    [E2 80 AF]), U+205F ([E2 81 9F]) and U+3000 ([E3 80 80]). *)
Definition is_space3 (b1 b2 b3 : ascii) : bool :=
  let n := N_of_ascii b3 in
  (bool_decide (b1 = "225"%char) && bool_decide (b2 = "154"%char)
   && bool_decide (b3 = "128"%char))
  || (bool_decide (b1 = "226"%char) && bool_decide (b2 = "128"%char)
      && ((128 <=? n)%N && (n <=? 138)%N
          || bool_decide (b3 = "168"%char) || bool_decide (b3 = "169"%char)
          || bool_decide (b3 = "175"%char)))
  || (bool_decide (b1 = "226"%char) && bool_decide (b2 = "129"%char)
      && bool_decide (b3 = "159"%char))
  || (bool_decide (b1 = "227"%char) && bool_decide (b2 = "128"%char)
      && bool_decide (b3 = "128"%char)).

(** The string without the runes it begins with that are of the given
    kind, in one, two or three bytes.  Bytes that encode no rune stand
    for U+FFFD, which is no white space, and so does a rune of four
    bytes: the scan stops there. *)
Fixpoint trim_runes (one : ascii -> bool) (two : ascii -> ascii -> bool)
    (three : ascii -> ascii -> ascii -> bool) (s : string) : string :=
  match s with
  | EmptyString => ""
  | String b1 s1 =>
      if one b1 then trim_runes one two three s1
      else
        match s1 with
        | EmptyString => s
        | String b2 s2 =>
            if two b1 b2 then trim_runes one two three s2
            else
              match s2 with
              | EmptyString => s
              | String b3 s3 =>
                  if three b1 b2 b3 then trim_runes one two three s3 else s
              end
        end
  end.

Fixpoint trim_left (f : ascii -> bool) (s : string) : string :=
  match s with
  | EmptyString => ""
  | String c s' => if f c then trim_left f s' else s
  end.

Definition trim_right (f : ascii -> bool) (s : string) : string :=
  String.rev (trim_left f (String.rev s)).

(** [strings.TrimSpace]: the white space is removed at the start, rune
    by rune, then at the end.  At the end Go decodes the last rune
    backwards, from the nearest byte that can start a rune; a white
    space is found there exactly when its bytes end the string, and the
    scan below reads them in reverse. *)
Definition TrimSpace (s : string) : string :=
  let s := trim_runes is_space is_space2 is_space3 s in
  String.rev
    (trim_runes is_space (fun b2 b1 => is_space2 b1 b2)
       (fun b3 b2 b1 => is_space3 b1 b2 b3) (String.rev s)).

(** U+00A0, U+2028 and U+200B in UTF-8.  The first two are white space;
    the third, the zero-width space, is not. *)
Definition nbsp : string := String "194"%char (String "160"%char "").
Definition line_separator : string :=
  String "226"%char (String "128"%char (String "168"%char "")).
Definition zero_width_space : string :=
  String "226"%char (String "128"%char (String "139"%char "")).

(** [strings.TrimRight(s, "\r")]. *)
Definition TrimRight_cr (s : string) : string :=
  trim_right (fun c => bool_decide (c = "013"%char)) s.

(** [strings.TrimPrefix]. *)
Definition TrimPrefix (s prefix : string) : string :=
  if HasPrefix s prefix
  then substring (String.length prefix) (String.length s - String.length prefix) s
  else s.

Module SSE.

(** Where [NewSSEClient] stands in its final [select]: about to poll the
    cases, waiting for one to become ready, returned with the client, or
    returned with an error. *)
Inductive handshake_pc : Type :=
| Polling
| Waiting
| Ready
| Failed (e : error).

(** The fields of [SSEClient] ([postReady] is true once the channel is
    closed), the POST requests sent so far with their URL and body, the
    channel buffers, the goroutines, the two variables of [readLoop],
    and the call of [NewSSEClient]: where it stands, the context it was
    given, and whether the fifteen seconds of its timer have passed. *)
Record state : Type := {
  sseURL : string;
  postURL : string;
  postReady : bool;
  nextID : Z;
  pending : gmap string nat;
  ctx_done : bool;
  posts : list (string * string);
  chans : list (option JSONRPCMessage);
  threads : list thread;
  readLoop : reader;
  currentEvent : string;
  dataBuffer : string;
  handshake : handshake_pc;
  caller_ctx : option error;
  timer_fired : bool
}.

Inductive post_answer : Type :=
| NewRequestFails (e : error)
| DoFails (e : error)
| Status (code : Z) (body : string).

(** The cases of the [select] that ends [NewSSEClient]. *)
Inductive handshake_case : Type :=
| CasePostReady
| CaseTimeout
| CaseCallerDone.

Inductive label : Type :=
| LHandshake (c : handshake_case)
| LTimer
| LCancelCaller (e : error)
| LCall (method : string) (params : any)
| LCancel (i : nat) (e : error)
| LRun (i : nat)
| LPost (i : nat) (a : post_answer)
| LSelect (i : nat) (c : select_case)
| LRead (line : string)
| LDeliver
| LEOF
| LClose.

Definition set_thread (i : nat) (t : thread) (s : state) : state :=
  {| sseURL := sseURL s; postURL := postURL s; postReady := postReady s;
     nextID := nextID s; pending := pending s; ctx_done := ctx_done s;
     posts := posts s; chans := chans s; threads := <[i := t]> (threads s);
     readLoop := readLoop s; currentEvent := currentEvent s;
     dataBuffer := dataBuffer s; handshake := handshake s;
     caller_ctx := caller_ctx s; timer_fired := timer_fired s |}.

Definition set_readLoop (r : reader) (s : state) : state :=
  {| sseURL := sseURL s; postURL := postURL s; postReady := postReady s;
     nextID := nextID s; pending := pending s; ctx_done := ctx_done s;
     posts := posts s; chans := chans s; threads := threads s; readLoop := r;
     currentEvent := currentEvent s; dataBuffer := dataBuffer s;
     handshake := handshake s; caller_ctx := caller_ctx s;
     timer_fired := timer_fired s |}.

Definition set_chans (c : list (option JSONRPCMessage)) (s : state) : state :=
  {| sseURL := sseURL s; postURL := postURL s; postReady := postReady s;
     nextID := nextID s; pending := pending s; ctx_done := ctx_done s;
     posts := posts s; chans := c; threads := threads s;
     readLoop := readLoop s; currentEvent := currentEvent s;
     dataBuffer := dataBuffer s; handshake := handshake s;
     caller_ctx := caller_ctx s; timer_fired := timer_fired s |}.

Definition set_pending (m : gmap string nat) (s : state) : state :=
  {| sseURL := sseURL s; postURL := postURL s; postReady := postReady s;
     nextID := nextID s; pending := m; ctx_done := ctx_done s;
     posts := posts s; chans := chans s; threads := threads s;
     readLoop := readLoop s; currentEvent := currentEvent s;
     dataBuffer := dataBuffer s; handshake := handshake s;
     caller_ctx := caller_ctx s; timer_fired := timer_fired s |}.

Definition set_event (event data : string) (s : state) : state :=
  {| sseURL := sseURL s; postURL := postURL s; postReady := postReady s;
     nextID := nextID s; pending := pending s; ctx_done := ctx_done s;
     posts := posts s; chans := chans s; threads := threads s;
     readLoop := readLoop s; currentEvent := event; dataBuffer := data;
     handshake := handshake s; caller_ctx := caller_ctx s;
     timer_fired := timer_fired s |}.

Definition set_handshake (h : handshake_pc) (s : state) : state :=
  {| sseURL := sseURL s; postURL := postURL s; postReady := postReady s;
     nextID := nextID s; pending := pending s; ctx_done := ctx_done s;
     posts := posts s; chans := chans s; threads := threads s;
     readLoop := readLoop s; currentEvent := currentEvent s;
     dataBuffer := dataBuffer s; handshake := h; caller_ctx := caller_ctx s;
     timer_fired := timer_fired s |}.

(** [c.cancel()]. *)
Definition cancel (s : state) : state :=
  {| sseURL := sseURL s; postURL := postURL s; postReady := postReady s;
     nextID := nextID s; pending := pending s; ctx_done := true;
     posts := posts s; chans := chans s; threads := threads s;
     readLoop := readLoop s; currentEvent := currentEvent s;
     dataBuffer := dataBuffer s; handshake := handshake s;
     caller_ctx := caller_ctx s; timer_fired := timer_fired s |}.

(** [close(c.postReady)]. *)
Definition close_postReady (s : state) : state :=
  {| sseURL := sseURL s; postURL := postURL s; postReady := true;
     nextID := nextID s; pending := pending s; ctx_done := ctx_done s;
     posts := posts s; chans := chans s; threads := threads s;
     readLoop := readLoop s; currentEvent := currentEvent s;
     dataBuffer := dataBuffer s; handshake := handshake s;
     caller_ctx := caller_ctx s; timer_fired := timer_fired s |}.

Definition set_postURL (url : string) (s : state) : state :=
  {| sseURL := sseURL s; postURL := url; postReady := postReady s;
     nextID := nextID s; pending := pending s; ctx_done := ctx_done s;
     posts := posts s; chans := chans s; threads := threads s;
     readLoop := readLoop s; currentEvent := currentEvent s;
     dataBuffer := dataBuffer s; handshake := handshake s;
     caller_ctx := caller_ctx s; timer_fired := timer_fired s |}.

(** The error of the second case of the [select] of [sendRequest]. *)
Definition closed : error := Errorf "sse connection closed".

(** What the GET of the event stream comes to. *)
Inductive get_answer : Type :=
| GetNewRequestFails (e : error)
| GetDoFails (e : error)
| Response (status : Z) (contentType body : string).

Definition timeout_error : error :=
  Errorf "timeout (15s) waiting for 'endpoint' event from remote SSE server".

Definition caller_done_error : error :=
  Errorf "context cancelled while waiting for SSE endpoint".

Section Machine.

Context `{Libraries}.

(** [NewSSEClient] up to its final [select]: an error, or the client with
    its reader started and the [select] about to poll.  [ctx] is the
    context of the caller and [get] what the GET comes to. *)
Definition NewSSEClient (ctx : option error) (sseEndpoint : string)
    (get : get_answer) : result state :=
  let c :=
    {| sseURL := sseEndpoint; postURL := sseEndpoint; postReady := false;
       nextID := 0; pending := ∅; ctx_done := false; posts := [];
       chans := []; threads := []; readLoop := Returned;
       currentEvent := ""; dataBuffer := ""; handshake := Polling;
       caller_ctx := ctx; timer_fired := false |} in
  match get with
  | GetNewRequestFails err =>
      Err (Errorf_w "failed to create SSE request: " err)
  | GetDoFails err =>
      Err (Errorf_w "failed to connect to SSE endpoint: " err)
  | Response status contentType body =>
      if negb (status =? 200)%Z then
        Err (Errorf ("unexpected status code " +:+ pretty status
                     +:+ ". Body: " +:+ substring 0 2048 body))
      else if negb (Contains contentType "text/event-stream") then
        Err (Errorf ("server did not return an SSE stream (got "
                     +:+ contentType +:+ "). Response: "
                     +:+ substring 0 2048 body))
      else
        let c := close_postReady c in
        Ok (set_readLoop Scanning c)
  end.

(** The return of [NewSSEClient] through case [c] of its [select]. *)
Definition finish (c : handshake_case) (s : state) : state :=
  match c with
  | CasePostReady => set_handshake Ready s
  | CaseTimeout => set_handshake (Failed timeout_error) (cancel s)
  | CaseCallerDone => set_handshake (Failed caller_done_error) (cancel s)
  end.

(** The final [select] of [NewSSEClient] when the runtime picks case [c].
    At the poll the timer, which the [select] has just made, has not
    fired: a case that is ready is taken, and when none is the call
    waits.  While it waits, a case is taken once it is ready. *)
Definition select_handshake (c : handshake_case) (s : state) : option state :=
  match handshake s with
  | Polling =>
      if postReady s || bool_decide (is_Some (caller_ctx s)) then
        match c with
        | CasePostReady => if postReady s then Some (finish c s) else None
        | CaseTimeout => None
        | CaseCallerDone =>
            if bool_decide (is_Some (caller_ctx s)) then Some (finish c s) else None
        end
      else Some (set_handshake Waiting s)
  | Waiting =>
      match c with
      | CasePostReady => if postReady s then Some (finish c s) else None
      | CaseTimeout => if timer_fired s then Some (finish c s) else None
      | CaseCallerDone =>
          if bool_decide (is_Some (caller_ctx s)) then Some (finish c s) else None
      end
  | Ready | Failed _ => None
  end.

(** [sendRequest] up to the slot: the id is drawn; the errors of the two
    [json.Marshal] calls are dropped. *)
Definition draw_id (i : nat) (t : thread) (method : string) (params : any)
    (s : state) : state :=
  let n := AddUint64 (nextID s) in
  let id := pretty n in
  let paramsRaw := match Marshal_params params with Ok b => b | Err _ => "" end in
  let reqBytes :=
    match Marshal (request id method paramsRaw) with Ok b => b | Err _ => "" end in
  set_thread i (move t (AtInstall id reqBytes))
    {| sseURL := sseURL s; postURL := postURL s; postReady := postReady s;
       nextID := n; pending := pending s; ctx_done := ctx_done s;
       posts := posts s; chans := chans s; threads := threads s;
       readLoop := readLoop s; currentEvent := currentEvent s;
       dataBuffer := dataBuffer s; handshake := handshake s;
       caller_ctx := caller_ctx s; timer_fired := timer_fired s |}.

Definition install (i : nat) (t : thread) (id reqBytes : string) (s : state)
    : state :=
  let ch := length (chans s) in
  set_thread i (move t (AtSend id ch reqBytes))
    (set_pending (<[id := ch]> (pending s)) (set_chans (chans s ++ [None]) s)).

Definition deferred (i : nat) (t : thread) (id : string)
    (r : result JSONRPCMessage) (s : state) : state :=
  set_thread i (move t (Done id r)) (set_pending (delete id (pending s)) s).

(** The POST of the request to [c.postURL], as it is when the request is
    built.  On a status other than 200 and 202 the body of the response
    is read after [resp.Body.Close()]: the read of a closed body gives no
    byte, and the message ends after "Server says: ". *)
Definition post (i : nat) (t : thread) (id : string) (ch : nat)
    (reqBytes : string) (a : post_answer) (s : state) : state :=
  let sent :=
    {| sseURL := sseURL s; postURL := postURL s; postReady := postReady s;
       nextID := nextID s; pending := pending s; ctx_done := ctx_done s;
       posts := posts s ++ [(postURL s, reqBytes)]; chans := chans s;
       threads := threads s; readLoop := readLoop s;
       currentEvent := currentEvent s; dataBuffer := dataBuffer s;
       handshake := handshake s; caller_ctx := caller_ctx s;
       timer_fired := timer_fired s |} in
  match a with
  | NewRequestFails err => set_thread i (move t (AtDefer id (Err err))) s
  | DoFails err => set_thread i (move t (AtDefer id (Err err))) sent
  | Status code body =>
      if negb (code =? 200)%Z && negb (code =? 202)%Z
      then set_thread i
             (move t (AtDefer id
                (Err (Errorf ("POST request failed with status: " +:+ pretty code
                              +:+ ". Server says: ")))))
             sent
      else set_thread i (move t (AtSelect id ch)) sent
  end.

Definition select (i : nat) (t : thread) (id : string) (ch : nat)
    (c : select_case) (s : state) : option state :=
  buffer ← chans s !! ch;
  '(r, received) ← select_wait closed (ctx_Err t) (ctx_done s) buffer c;
  Some (set_thread i (move t (AtDefer id r))
          (if received : bool then set_chans (<[ch := None]> (chans s)) s else s)).

(** [resolvePostURL]. *)
Definition resolvePostURL (endpointPath : string) (s : state) : state :=
  match ResolveReference (sseURL s) endpointPath with
  | Some url => set_postURL url s
  | None => set_postURL endpointPath s
  end.

(** [handleMessage]. *)
Definition handleMessage (data : string) (s : state) : state :=
  match Unmarshal data with
  | None => s
  | Some msg => set_readLoop (dispatch (pending s) msg) s
  end.

(** One more line scanned by [readLoop]. *)
Definition read_line (line : string) (s : state) : state :=
  let line := TrimRight_cr line in
  if decide (line = "") then
    let s :=
      if decide (currentEvent s = "endpoint")
      then close_postReady (resolvePostURL (dataBuffer s) s)
      else if negb (bool_decide (dataBuffer s = ""))
      then handleMessage (dataBuffer s) s
      else s in
    set_event "" "" s
  else if HasPrefix line "event:" then
    set_event (TrimSpace (TrimPrefix line "event:")) (dataBuffer s) s
  else if HasPrefix line "data:" then
    set_event (currentEvent s)
      (dataBuffer s +:+ TrimSpace (TrimPrefix line "data:")) s
  else s.

(** A caller can use the client once [NewSSEClient] has returned it. *)
Definition step (s : state) (l : label) : option state :=
  match l with
  | LHandshake c => select_handshake c s
  | LTimer =>
      match handshake s with
      | Waiting => Some {| sseURL := sseURL s; postURL := postURL s;
                         postReady := postReady s; nextID := nextID s;
                         pending := pending s; ctx_done := ctx_done s;
                         posts := posts s; chans := chans s;
                         threads := threads s; readLoop := readLoop s;
                         currentEvent := currentEvent s;
                         dataBuffer := dataBuffer s;
                         handshake := handshake s;
                         caller_ctx := caller_ctx s; timer_fired := true |}
      | _ => None
      end
  | LCancelCaller e =>
      Some {| sseURL := sseURL s; postURL := postURL s;
                postReady := postReady s; nextID := nextID s;
                pending := pending s; ctx_done := ctx_done s;
                posts := posts s; chans := chans s; threads := threads s;
                readLoop := readLoop s; currentEvent := currentEvent s;
                dataBuffer := dataBuffer s; handshake := handshake s;
                caller_ctx := Some (default e (caller_ctx s));
                timer_fired := timer_fired s |}
  | LCall method params =>
      match handshake s with
      | Ready =>
          Some {| sseURL := sseURL s; postURL := postURL s;
                    postReady := postReady s; nextID := nextID s;
                    pending := pending s; ctx_done := ctx_done s;
                    posts := posts s; chans := chans s;
                    threads := threads s ++ [{| at_pc := AtStart method params; ctx_Err := None |}];
                    readLoop := readLoop s; currentEvent := currentEvent s;
                    dataBuffer := dataBuffer s; handshake := handshake s;
                    caller_ctx := caller_ctx s; timer_fired := timer_fired s |}
      | _ => None
      end
  | LCancel i e =>
      t ← threads s !! i;
      Some (set_thread i {| at_pc := at_pc t;
                            ctx_Err := Some (default e (ctx_Err t)) |} s)
  | LRun i =>
      t ← threads s !! i;
      match at_pc t with
      | AtStart method params => Some (draw_id i t method params s)
      | AtInstall id reqBytes => Some (install i t id reqBytes s)
      | AtDefer id r => Some (deferred i t id r s)
      | _ => None
      end
  | LPost i a =>
      t ← threads s !! i;
      match at_pc t with
      | AtSend id ch reqBytes => Some (post i t id ch reqBytes a s)
      | _ => None
      end
  | LSelect i c =>
      t ← threads s !! i;
      match at_pc t with
      | AtSelect id ch => select i t id ch c s
      | _ => None
      end
  | LRead line =>
      match readLoop s with
      | Scanning => Some (read_line line s)
      | _ => None
      end
  | LDeliver =>
      match readLoop s with
      | Sending ch msg =>
          match chans s !! ch with
          | Some None =>
              Some (set_readLoop Scanning (set_chans (<[ch := Some msg]> (chans s)) s))
          | _ => None
          end
      | _ => None
      end
  | LEOF =>
      match readLoop s with
      | Scanning => Some (set_readLoop Returned (cancel s))
      | _ => None
      end
  | LClose =>
      match handshake s with
      | Ready => Some (cancel s)
      | _ => None
      end
  end.

Fixpoint run (s : state) (ls : list label) : option state :=
  match ls with
  | [] => Some s
  | l :: ls' =>
      match step s l with
      | Some s' => run s' ls'
      | None => None
      end
  end.

End Machine.

End SSE.

(** ** The slots of the pending table

    What the pending table has to do with the callers: a caller has no id
    yet, has drawn its id, holds the slot of its id (from the insertion
    to the deferred delete), or has returned. *)

Inductive phase : Type :=
| NoId
| HasId (id : string)
| Holds (id : string)
| Finished (id : string).

Definition phase_of (p : pc) : phase :=
  match p with
  | AtStart _ _ => NoId
  | AtInstall id _ => HasId id
  | AtSend id _ _ | AtSelect id _ | AtDefer id _ => Holds id
  | Done id _ => Finished id
  end.

Definition phase_id (p : phase) : option string :=
  match p with
  | NoId => None
  | HasId id | Holds id | Finished id => Some id
  end.

Definition phases (ts : list thread) : list phase :=
  map (fun t => phase_of (at_pc t)) ts.

(** The number of callers that have drawn an id. *)
Fixpoint drawn (ph : list phase) : nat :=
  match ph with
  | [] => 0
  | NoId :: ph' => drawn ph'
  | _ :: ph' => S (drawn ph')
  end.

(** The counter is the number of ids drawn; the ids are the decimal
    numbers up to the counter and differ from caller to caller; every
    entry of the table belongs to a caller that holds it. *)
Record slots_inv (nextID : Z) (pending : gmap string nat) (ph : list phase)
    : Prop := {
  inv_count : nextID = Z.of_nat (drawn ph);
  inv_range : forall i p id,
    ph !! i = Some p -> phase_id p = Some id ->
    exists n, id = pretty n /\ (1 <= n <= nextID)%Z;
  inv_distinct : forall i j p q id,
    ph !! i = Some p -> ph !! j = Some q ->
    phase_id p = Some id -> phase_id q = Some id -> i = j;
  inv_pending : forall id ch,
    pending !! id = Some ch -> exists i, ph !! i = Some (Holds id)
}.

(** The moves of the callers, seen on counter, table and phases. *)
Inductive slot_step :
    Z * gmap string nat * list phase -> Z * gmap string nat * list phase -> Prop :=
| slot_same n m ph :
    slot_step (n, m, ph) (n, m, ph)
| slot_call n m ph :
    slot_step (n, m, ph) (n, m, ph ++ [NoId])
| slot_draw n m ph i p :
    ph !! i = Some NoId ->
    p = HasId (pretty (AddUint64 n)) \/ p = Finished (pretty (AddUint64 n)) ->
    slot_step (n, m, ph) (AddUint64 n, m, <[i := p]> ph)
| slot_install n m ph i id ch :
    ph !! i = Some (HasId id) ->
    slot_step (n, m, ph) (n, <[id := ch]> m, <[i := Holds id]> ph)
| slot_delete n m ph i id :
    ph !! i = Some (Holds id) ->
    slot_step (n, m, ph) (n, delete id m, <[i := Finished id]> ph).

Definition Stdio_view (s : Stdio.state) : Z * gmap string nat * list phase :=
  (Stdio.nextID s, Stdio.pending s, phases (Stdio.threads s)).

Definition SSE_view (s : SSE.state) : Z * gmap string nat * list phase :=
  (SSE.nextID s, SSE.pending s, phases (SSE.threads s)).

(** ** The routing of the responses

    Every response channel is made for one call and belongs to the id of
    that call: [ids] lists the ids by channel.  The table sends an id to
    its channel; a message that waits in a channel, or that the reader is
    about to send on it, carries the id of the channel; a caller waits on
    the channel of its id, and a response it has taken carries its id
    and no error. *)

Definition thread_routed (ids : list string) (p : pc) : Prop :=
  match p with
  | AtSend id ch _ | AtSelect id ch => ids !! ch = Some id
  | AtDefer id (Ok resp) | Done id (Ok resp) =>
      ID resp = Some id /\ msg_Error resp = None
  | _ => True
  end.

Definition reader_routed (ids : list string) (r : reader) : Prop :=
  match r with
  | Sending ch msg => exists id, ID msg = Some id /\ ids !! ch = Some id
  | _ => True
  end.

Record routed (ids : list string) (pending : gmap string nat)
    (chans : list (option JSONRPCMessage)) (ts : list thread) (r : reader)
    : Prop := {
  routed_length : length ids = length chans;
  routed_pending : forall id ch, pending !! id = Some ch -> ids !! ch = Some id;
  routed_chans : forall ch msg,
    chans !! ch = Some (Some msg) ->
    exists id, ID msg = Some id /\ ids !! ch = Some id;
  routed_reader : reader_routed ids r;
  routed_threads : forall i t, ts !! i = Some t -> thread_routed ids (at_pc t)
}.

(** The id of a call, once drawn. *)
Definition call_id (t : thread) : option string :=
  phase_id (phase_of (at_pc t)).

(** The slot of a caller that has installed it and not yet returned from
    the wait: its id and its channel. *)
Definition pc_slot (p : pc) : option (string * nat) :=
  match p with
  | AtSend id ch _ | AtSelect id ch => Some (id, ch)
  | _ => None
  end.

(** Every caller that waits has its slot in the table. *)
Definition slots_held (pending : gmap string nat) (ts : list thread) : Prop :=
  forall i t id ch,
    ts !! i = Some t -> pc_slot (at_pc t) = Some (id, ch) ->
    pending !! id = Some ch.

Definition Stdio_routed (s : Stdio.state) : Prop :=
  exists ids,
    routed ids (Stdio.pending s) (Stdio.chans s) (Stdio.threads s) (Stdio.readLoop s).

Definition SSE_routed (s : SSE.state) : Prop :=
  exists ids,
    routed ids (SSE.pending s) (SSE.chans s) (SSE.threads s) (SSE.readLoop s).

(** ** What the claim about the end of the stream speaks of *)

(** The error [sendRequest] of the stdio client makes of a failed
    write. *)
Definition write_error (e : errno) : error :=
  Errorf_w "failed to write request: " (PathError "write" "|1" e).

(** The results of a call that gets no response: the error of one of the
    two [json.Marshal] calls, of the write, of the caller's context, or
    the error for the closed client. *)
Definition late_result `{Libraries} (t : thread) (r : result JSONRPCMessage)
    : Prop :=
  match r with
  | Ok _ => False
  | Err e =>
      (exists params, Marshal_params params = Err e) \/
      (exists msg, Marshal msg = Err e) \/
      (exists en, e = write_error en) \/
      ctx_Err t = Some e \/
      e = Stdio.closed
  end.

(** A caller whose response channel, once made, is empty, and whose
    result, once set, is one of the above. *)
Definition late_ok `{Libraries} (chans : list (option JSONRPCMessage))
    (t : thread) : Prop :=
  match at_pc t with
  | AtStart _ _ | AtInstall _ _ => True
  | AtSend _ ch _ | AtSelect _ ch => chans !! ch = Some None
  | AtDefer _ r | Done _ r => late_result t r
  end.

(** The moves a call of [sendRequest] has left before it has returned. *)
Definition moves_left (p : pc) : nat :=
  match p with
  | AtStart _ _ => 5
  | AtInstall _ _ => 4
  | AtSend _ _ _ => 3
  | AtSelect _ _ => 2
  | AtDefer _ _ => 1
  | Done _ _ => 0
  end.

(** The moves of call [i] alone: the steps of its own code, its write to
    stdin (or its POST) with what the outside answers it, and the second
    case of its [select].  No other goroutine moves. *)
Definition Stdio_own_move (i : nat) (err : option errno) (l : Stdio.label) : Prop :=
  l = Stdio.LRun i \/ l = Stdio.LWrite i err \/ l = Stdio.LSelect i CaseClientDone.

Definition SSE_own_move (i : nat) (a : SSE.post_answer) (l : SSE.label) : Prop :=
  l = SSE.LRun i \/ l = SSE.LPost i a \/ l = SSE.LSelect i CaseClientDone.

(** The channel a caller has made. *)
Definition pc_chan (p : pc) : option nat :=
  match p with
  | AtSend _ ch _ | AtSelect _ ch => Some ch
  | _ => None
  end.

(** ** What the claims about the endpoint speak of *)

(** A line of the stream that is no part of an event: not empty, and
    neither an [event:] nor a [data:] line.  A comment line is one. *)
Definition comment_line (line : string) : Prop :=
  TrimRight_cr line <> "" /\
  HasPrefix (TrimRight_cr line) "event:" = false /\
  HasPrefix (TrimRight_cr line) "data:" = false.

(** A step on which the reader gets no event from the server: the lines
    it scans are comment lines. *)
Definition quiet (l : SSE.label) : Prop :=
  match l with
  | SSE.LRead line => comment_line line
  | _ => True
  end.

(** ** A small wire format, for the examples

    A request is written as "<id> <method> <params>"; the line
    "<id> ok <result>" is a response and "<id> error <message>" an error
    response.  An endpoint that begins with "/" is resolved against the
    host of the stream. *)

Definition demo_Unmarshal (line : string) : option JSONRPCMessage :=
  match String.words line with
  | [id; kind; body] =>
      if decide (kind = "ok") then
        Some {| JSONRPC := "2.0"; ID := Some id; Method := ""; Params := "";
                Result := body; msg_Error := None |}
      else if decide (kind = "error") then
        Some {| JSONRPC := "2.0"; ID := Some id; Method := ""; Params := "";
                Result := "";
                msg_Error := Some {| Code := -32000; Message := body |} |}
      else None
  | _ => None
  end.

Definition demo_libraries : Libraries :=
  {| Marshal_params := fun _ => Ok "{}";
     Marshal := fun msg =>
       Ok (default "" (ID msg) +:+ " " +:+ Method msg +:+ " " +:+ Params msg);
     Unmarshal := demo_Unmarshal;
     ResolveReference := fun base ref =>
       if HasPrefix ref "/" then Some ("http://mcp.example" +:+ ref)
       else Some ref |}.

(** The same libraries for parameters that [json.Marshal] cannot
    encode. *)
Definition demo_unencodable : Libraries :=
  {| Marshal_params := fun _ => Err (Errorf "json: unsupported type: chan int");
     Marshal := @Marshal demo_libraries;
     Unmarshal := @Unmarshal demo_libraries;
     ResolveReference := @ResolveReference demo_libraries |}.

Definition demo_sse_url : string := "http://mcp.example/sse".

Definition demo_stream : SSE.get_answer := SSE.Response 200 "text/event-stream" "".

(** A call of [tools/list] on a stdio client, answered by the server. *)
Definition demo_stdio_call : list Stdio.label :=
  [Stdio.LCall "tools/list" ANull; Stdio.LRun 0; Stdio.LRun 0;
   Stdio.LWrite 0 None; Stdio.LRead "1 ok {}"; Stdio.LDeliver;
   Stdio.LSelect 0 CaseResponse; Stdio.LRun 0].

(** A call that waits for its response when the stream ends. *)
Definition demo_stdio_waiting : list Stdio.label :=
  [Stdio.LCall "tools/list" ANull; Stdio.LRun 0; Stdio.LRun 0;
   Stdio.LWrite 0 None; Stdio.LEOF].

(** The server process dies; a call is made afterwards and its write
    fails on the broken pipe. *)
Definition demo_stdio_late : list Stdio.label :=
  [Stdio.LCall "tools/list" ANull; Stdio.LRun 1; Stdio.LRun 1;
   Stdio.LWrite 1 (Some (EOTHER "broken pipe")); Stdio.LRun 1].

Definition stdio_after (ls : list Stdio.label) : Stdio.state :=
  default Stdio.NewStdioClient (@Stdio.run demo_libraries Stdio.NewStdioClient ls).

(** A call up to its write, and what the first call of a run returned
    together with its slot of the pending table. *)
Definition demo_stdio_sent : list Stdio.label :=
  [Stdio.LCall "tools/list" ANull; Stdio.LRun 0; Stdio.LRun 0].

Definition stdio_outcome (ls : list Stdio.label) : option string * option nat :=
  let s := stdio_after ls in
  (match at_pc <$> Stdio.threads s !! 0%nat with
   | Some (Done _ (Err err)) => Some (Error err)
   | _ => None
   end,
   Stdio.pending s !! "1").

(** The client of the SSE scenarios, as [NewSSEClient] makes it for a
    stream that opens. *)
Definition demo_sse_client : SSE.state :=
  {| SSE.sseURL := demo_sse_url; SSE.postURL := demo_sse_url;
     SSE.postReady := true; SSE.nextID := 0; SSE.pending := ∅;
     SSE.ctx_done := false; SSE.posts := []; SSE.chans := [];
     SSE.threads := []; SSE.readLoop := Scanning; SSE.currentEvent := "";
     SSE.dataBuffer := ""; SSE.handshake := SSE.Polling;
     SSE.caller_ctx := None; SSE.timer_fired := false |}.

Definition sse_after (ls : list SSE.label) : SSE.state :=
  default demo_sse_client (@SSE.run demo_libraries demo_sse_client ls).

(** The server has sent a comment line only; [NewSSEClient] returns and
    [initialize] is called, up to its POST. *)
Definition demo_sse_race : list SSE.label :=
  [SSE.LRead ": keep-alive"; SSE.LHandshake SSE.CasePostReady;
   SSE.LCall "initialize" ANull; SSE.LRun 0; SSE.LRun 0].

(** The same call carried through: the request is posted, then the
    endpoint event and the response arrive. *)
Definition demo_sse_call : list SSE.label :=
  demo_sse_race ++
  [SSE.LPost 0 (SSE.Status 202 ""); SSE.LRead "event: endpoint";
   SSE.LRead "data: /rpc"; SSE.LRead ""; SSE.LRead "data: 1 ok {}";
   SSE.LRead ""; SSE.LDeliver; SSE.LSelect 0 CaseResponse; SSE.LRun 0].

(** Two calls on a stdio client whose responses arrive in the other
    order. *)
Definition demo_stdio_two_calls : list Stdio.label :=
  [Stdio.LCall "tools/list" ANull; Stdio.LCall "tools/call" ANull;
   Stdio.LRun 0; Stdio.LRun 1; Stdio.LRun 0; Stdio.LRun 1;
   Stdio.LWrite 0 None; Stdio.LWrite 1 None;
   Stdio.LRead "2 ok second"; Stdio.LDeliver;
   Stdio.LRead "1 ok first"; Stdio.LDeliver;
   Stdio.LSelect 1 CaseResponse; Stdio.LSelect 0 CaseResponse;
   Stdio.LRun 1; Stdio.LRun 0].

(** A call whose context is cancelled before the server answers. *)
Definition demo_stdio_cancelled : list Stdio.label :=
  demo_stdio_sent ++
  [Stdio.LWrite 0 None; Stdio.LCancel 0 Canceled; Stdio.LSelect 0 CaseCtxDone;
   Stdio.LRun 0].

(** The same on an SSE client; the data of the late response has been
    read, the empty line that ends the event has not. *)
Definition demo_sse_cancelled : list SSE.label :=
  demo_sse_race ++
  [SSE.LPost 0 (SSE.Status 202 ""); SSE.LCancel 0 Canceled;
   SSE.LSelect 0 CaseCtxDone; SSE.LRun 0; SSE.LRead "data: 1 ok late"].

(** A call that waits for its response, on either client, and the SSE
    stream that ends while it waits. *)
Definition demo_stdio_written : list Stdio.label :=
  demo_stdio_sent ++ [Stdio.LWrite 0 None].

Definition demo_sse_posted : list SSE.label :=
  demo_sse_race ++ [SSE.LPost 0 (SSE.Status 202 "")].

Definition demo_sse_ended : list SSE.label :=
  demo_sse_posted ++ [SSE.LEOF].

(** * Properties *)

(** ** Strings *)

Lemma append_cons c s t : String c s +:+ t = String c (s +:+ t).
Proof. reflexivity. Qed.

Lemma append_nil_l s : "" +:+ s = s.
Proof. reflexivity. Qed.

Lemma append_length s t :
  String.length (s +:+ t) = String.length s + String.length t.
Proof.
  induction s as [|c s IH]; [done|].
  rewrite append_cons. cbn [String.length]. by rewrite IH.
Qed.

Lemma append_assoc s t u : (s +:+ t) +:+ u = s +:+ (t +:+ u).
Proof.
  induction s as [|c s IH]; [done|]. rewrite !append_cons. by rewrite IH.
Qed.

Lemma prefix_nil s : String.prefix "" s = true.
Proof. by destruct s. Qed.

Lemma prefix_append p a b :
  String.prefix p a = true -> String.prefix p (a +:+ b) = true.
Proof.
  revert a. induction p as [|c p IH]; intros a; [intros _; apply prefix_nil|].
  destruct a as [|c' a]; [intros [=]|]. rewrite append_cons. cbn.
  destruct (ascii_dec c c'); [apply IH|intros [=]].
Qed.

Lemma Contains_unfold s sub :
  Contains s sub =
  String.prefix sub s ||
  match s with EmptyString => false | String _ s' => Contains s' sub end.
Proof. by destruct s. Qed.

Lemma Contains_append_l a b sub :
  Contains a sub = true -> Contains (a +:+ b) sub = true.
Proof.
  induction a as [|c a IH].
  - rewrite Contains_unfold, orb_false_r. intros Hp.
    rewrite Contains_unfold. apply orb_true_iff. left.
    by apply (prefix_append sub "" b).
  - rewrite Contains_unfold. intros [Hp | Hc]%orb_true_iff.
    + rewrite Contains_unfold. apply orb_true_iff. left. by apply prefix_append.
    + rewrite append_cons, Contains_unfold. apply orb_true_iff. right. by apply IH.
Qed.

Lemma Contains_append_r a b sub :
  Contains b sub = true -> Contains (a +:+ b) sub = true.
Proof.
  intros Hb. induction a as [|c a IH]; [done|].
  rewrite append_cons, Contains_unfold. apply orb_true_iff. by right.
Qed.

Lemma append_neq_self s t : t <> "" -> s +:+ t <> s.
Proof.
  intros Ht Heq. apply (f_equal String.length) in Heq.
  rewrite append_length in Heq. destruct t; [done|]. cbn in Heq. lia.
Qed.

(** The temporary file is never the target. *)
Lemma tmp_name_neq path now : tmp_name path now <> path.
Proof.
  unfold tmp_name. apply append_neq_self.
  rewrite append_cons. discriminate.
Qed.

(** ** The atomic write *)

(** The write-then-rename core shared by [hostFs.WriteFile] and
    [sandboxFs.WriteFile], once the parent directories exist. *)
Lemma write_then_rename os tmp target data (w0 w : world) mkdirs :
  tmp <> target ->
  files w = files w0 ->
  calls w = calls w0 ++ mkdirs ->
  forall err w',
    match WriteFile os tmp data w with
    | (Some e, w1) => (true, Remove os tmp w1)
    | (None, w1) =>
        match Rename os tmp target w1 with
        | (Some e, w2) => (true, Remove os tmp w2)
        | (None, w2) => (false, w2)
        end
    end = (err, w') ->
    atomic_write os mkdirs tmp target data w0 err w'.
Proof.
  intros Hne Hf Hc err w'. unfold atomic_write, WriteFile, Rename, Remove.
  destruct (write_file os) as [[e [partial|]]|] eqn:Hw;
    [| |destruct (rename os) as [e|] eqn:Hr];
    destruct (remove os) as [e'|] eqn:Hrm; cbn;
    rewrite ?lookup_insert_eq; cbn;
    intros [= <- <-]; cbn; rewrite Hc, <- ?app_assoc; cbn;
    repeat split; try done; try (intros [=]);
    rewrite ?lookup_delete_eq, ?lookup_delete_ne, ?lookup_insert_ne,
      ?lookup_delete_eq, ?lookup_insert_eq by done;
    by rewrite ?Hf.
Qed.

(** C4.  [WriteFile] on the host and in the sandbox writes the data to
    the temporary file "<path>.<nanoseconds>.tmp" (in the sandbox: of the
    path relative to the root) and renames it over the target, and writes
    no other file.  When the write of the temporary file or the rename
    fails, the temporary file is removed and an error is returned; when
    the write of the temporary file fails, the target holds what it held
    before.  This is for the calls that reach the write: the parent
    directories exist or were created. *)
Theorem WriteFile_atomic (os : os_answers) (now : Z) (path data : string) (w : world) :
  mkdir_all os = None ->
  atomic_write os [SysMkdirAll (Dir path)]
    (path +:+ "." +:+ pretty now +:+ ".tmp") path data w
    (bool_decide (is_Some (fst (hostFs_WriteFile os now path data w))))
    (snd (hostFs_WriteFile os now path data w)) /\
  forall workspace relPath,
    workspace <> "" ->
    open_root os = None ->
    getSafeRelPath workspace path = Ok relPath ->
    atomic_write os (sandbox_mkdirs relPath)
      (relPath +:+ "." +:+ pretty now +:+ ".tmp") relPath data w
      (is_Err (fst (sandboxFs_WriteFile os now workspace path data w)))
      (snd (sandboxFs_WriteFile os now workspace path data w)).
Proof.
  intros Hmk. split.
  - apply (write_then_rename os _ _ _ w (called (SysMkdirAll (Dir path)) w));
      [apply tmp_name_neq|done|done|].
    unfold hostFs_WriteFile, MkdirAll. rewrite Hmk.
    fold (tmp_name path now).
    destruct (WriteFile os _ data _) as [[e|] w1]; [done|].
    destruct (Rename os _ path w1) as [[e|] w2]; done.
  - intros workspace relPath Hws Hroot Hrel.
    unfold sandboxFs_WriteFile, execute.
    rewrite decide_False by done. rewrite Hroot, Hrel.
    unfold sandboxFs_write, sandbox_mkdirs.
    fold (tmp_name relPath now).
    destruct (bool_decide (Dir relPath <> ".") && bool_decide (Dir relPath <> "/")).
    + apply (write_then_rename os _ _ _ w (called (SysMkdirAll (Dir relPath)) w));
        [apply tmp_name_neq|done|done|].
      unfold MkdirAll. rewrite Hmk.
      destruct (WriteFile os _ data _) as [[e|] w1]; [done|].
      destruct (Rename os _ relPath w1) as [[e|] w2]; done.
    + apply (write_then_rename os _ _ _ w w);
        [apply tmp_name_neq|done|by rewrite app_nil_r|].
      destruct (WriteFile os _ data _) as [[e|] w1]; [done|].
      destruct (Rename os _ relPath w1) as [[e|] w2]; done.
Qed.


Section ManagerProperties.

Context {ToolRegistry : Type}.
Variable Register : ToolRegistry -> MCPToolAdapter -> ToolRegistry.
Variable newSSEClient : string -> list (string * string) -> result Client.
Variable newHTTPClient : string -> list (string * string) -> Client.
Variable newStdioClient : string -> list string -> list string -> result Client.

Local Abbreviation build := (build_client newSSEClient newHTTPClient newStdioClient).
Local Abbreviation Start :=
  (StartAndRegister Register newSSEClient newHTTPClient newStdioClient).

Lemma registered_app (tr1 tr2 : list effect) :
  registered (tr1 ++ tr2) = registered tr1 ++ registered tr2.
Proof. unfold registered. apply omap_app. Qed.

(** The registration loop appends one [ERegister] per definition and
    touches nothing but the registry. *)
Lemma register_loop cfg c defs (s : run_state ToolRegistry) :
  let s' := fold_left (register_one Register cfg c) defs s in
  clients (mgr s') = clients (mgr s) /\
  trace s' = trace s ++ map (fun d => ERegister (loop_adapter cfg c d)) defs /\
  registry (mgr s') =
    fold_left Register (map (loop_adapter cfg c) defs) (registry (mgr s)).
Proof.
  revert s. induction defs as [|d defs IH]; intros s; cbn zeta.
  - cbn. by rewrite app_nil_r.
  - cbn [fold_left map]. destruct (IH (register_one Register cfg c s d)) as (Hc & Ht & Hr).
    split; [exact Hc|]. split.
    + rewrite Ht. cbn. by rewrite <- app_assoc.
    + rewrite Hr. done.
Qed.

Lemma registered_map_ERegister (l : list MCPToolAdapter) :
  registered (map ERegister l) = l.
Proof.
  unfold registered. induction l as [|a l IH]; cbn; [done|]. by rewrite IH.
Qed.

Lemma registered_start x h h' {A} (f : A -> MCPToolAdapter) (l : list A) :
  registered (EConnect x :: EInitialize h :: EListTools h'
              :: map (fun d => ERegister (f d)) l) = map f l.
Proof.
  change (registered (map (fun d => ERegister (f d)) l) = map f l).
  rewrite <- (map_map f ERegister). apply registered_map_ERegister.
Qed.

(** The result of [StartAndRegister] once the client exists, by the
    outcome of the handshake and of the enumeration. *)
Lemma Start_unfold (m : Manager ToolRegistry) cfg c :
  clients m !! cfg_Name cfg = None ->
  snd (build cfg) = Ok c ->
  Start m cfg =
    let s2 := {| mgr := m;
                 trace := [EConnect (fst (build cfg)); EInitialize (handle c)] |} in
    match Initialize c with
    | Some err =>
        (Some (Errorf_w ("mcp initialization failed for "
                         +:+ cfg_Name cfg +:+ ": ") err),
         emit (EClose (handle c)) s2)
    | None =>
        let s3 := emit (EListTools (handle c)) s2 in
        match ListTools c with
        | Err err =>
            (Some (Errorf_w ("failed to list tools from "
                             +:+ cfg_Name cfg +:+ ": ") err),
             emit (EClose (handle c)) s3)
        | Ok toolsList =>
            let s4 := fold_left (register_one Register cfg c) toolsList s3 in
            (None,
             {| mgr := {| registry := registry (mgr s4);
                          clients := <[cfg_Name cfg := c]> (clients (mgr s4)) |};
                trace := trace s4 |})
        end
    end.
Proof.
  intros Hfree Hc. unfold StartAndRegister. rewrite Hfree, Hc. reflexivity.
Qed.

(** C6.  When the client was created and [Initialize] or [ListTools]
    fails with [e], [StartAndRegister] returns an error that wraps [e],
    its last action is to close that client, no adapter was handed to
    the registry, and the registry and the client map are what they
    were: the provider is not recorded. *)
Theorem StartAndRegister_all_or_nothing (m : Manager ToolRegistry) cfg c e :
  clients m !! cfg_Name cfg = None ->
  snd (build cfg) = Ok c ->
  Initialize c = Some e \/ (Initialize c = None /\ ListTools c = Err e) ->
  (exists prefix, fst (Start m cfg) = Some (Errorf_w prefix e)) /\
  last (trace (snd (Start m cfg))) = Some (EClose (handle c)) /\
  registered (trace (snd (Start m cfg))) = [] /\
  registry (mgr (snd (Start m cfg))) = registry m /\
  clients (mgr (snd (Start m cfg))) = clients m /\
  clients (mgr (snd (Start m cfg))) !! cfg_Name cfg = None.
Proof.
  intros Hfree Hc Hfail. rewrite (Start_unfold m cfg c Hfree Hc). cbn zeta.
  destruct Hfail as [Hi | [Hi Hl]].
  - rewrite Hi. cbn. eauto 10.
  - rewrite Hi, Hl. cbn. eauto 10.
Qed.

(** C9.  When the provider registered under alias [cfg.Name] answers
    [ListTools] with [defs], the call succeeds and hands to [Register]
    one adapter per definition, in order: the adapter of the definition
    named [N] is called [cfg.Name_N], is deferred, and its [Execute]
    calls the provider's [CallTool] under [N]. *)
Theorem StartAndRegister_namespaced_adapters (m : Manager ToolRegistry) cfg c defs :
  clients m !! cfg_Name cfg = None ->
  snd (build cfg) = Ok c ->
  Initialize c = None ->
  ListTools c = Ok defs ->
  fst (Start m cfg) = None /\
  length (registered (trace (snd (Start m cfg)))) = length defs /\
  registry (mgr (snd (Start m cfg))) =
    fold_left Register (registered (trace (snd (Start m cfg)))) (registry m) /\
  forall i d, defs !! i = Some d ->
    exists a, registered (trace (snd (Start m cfg))) !! i = Some a /\
      Name a = cfg_Name cfg +:+ "_" +:+ def_Name d /\
      IsDeferred a = true /\
      originalName a = def_Name d /\
      forall args, Execute a args = tool_result_of (CallTool c (def_Name d) args).
Proof.
  intros Hfree Hc Hi Hl. rewrite (Start_unfold m cfg c Hfree Hc). cbn zeta.
  rewrite Hi, Hl. cbn [fst snd mgr trace registry].
  match goal with |- context [fold_left _ defs ?s] =>
    destruct (register_loop cfg c defs s) as (_ & Ht & Hr) end.
  rewrite Ht, Hr. cbn [trace emit mgr registry app].
  rewrite registered_start.
  split; [done|]. split; [by rewrite length_map|]. split; [done|].
  intros i d Hd. exists (loop_adapter cfg c d). split.
  - by rewrite list_lookup_fmap, Hd.
  - done.
Qed.

(** C10.  A configuration whose type is neither "sse" nor "http" takes
    the stdio branch: the constructor called is [NewStdioClient] on
    [cfg.Cmd], [cfg.Args] and [cfg.Env], the whole call behaves as it
    does for the empty type string, and it succeeds whenever the alias is
    free, the process starts and the handshake and the enumeration
    succeed.  No error depends on the type string. *)
Theorem StartAndRegister_unknown_type_is_stdio (m : Manager ToolRegistry) cfg :
  cfg_Type cfg <> "sse" ->
  cfg_Type cfg <> "http" ->
  build cfg =
    (CallNewStdioClient (cfg_Cmd cfg) (cfg_Args cfg) (cfg_Env cfg),
     newStdioClient (cfg_Cmd cfg) (cfg_Args cfg) (cfg_Env cfg)) /\
  (clients m !! cfg_Name cfg = None ->
     head (trace (snd (Start m cfg))) =
       Some (EConnect (CallNewStdioClient (cfg_Cmd cfg) (cfg_Args cfg) (cfg_Env cfg)))) /\
  Start m cfg =
    Start m {| cfg_Name := cfg_Name cfg; cfg_Type := ""; cfg_URL := cfg_URL cfg;
               cfg_Headers := cfg_Headers cfg; cfg_Cmd := cfg_Cmd cfg;
               cfg_Args := cfg_Args cfg; cfg_Env := cfg_Env cfg |} /\
  (forall c defs,
     clients m !! cfg_Name cfg = None ->
     newStdioClient (cfg_Cmd cfg) (cfg_Args cfg) (cfg_Env cfg) = Ok c ->
     Initialize c = None ->
     ListTools c = Ok defs ->
     fst (Start m cfg) = None).
Proof.
  intros Hsse Hhttp.
  assert (Hb : build cfg =
    (CallNewStdioClient (cfg_Cmd cfg) (cfg_Args cfg) (cfg_Env cfg),
     newStdioClient (cfg_Cmd cfg) (cfg_Args cfg) (cfg_Env cfg))).
  { unfold build_client. rewrite !decide_False by done. done. }
  split; [exact Hb|]. split; [|split].
  - intros Hfree. unfold StartAndRegister. rewrite Hfree, Hb. cbn [fst snd].
    destruct (newStdioClient _ _ _) as [c|err]; [|done].
    destruct (Initialize c); [done|]. destruct (ListTools c) as [defs|]; [|done].
    cbn [trace].
    match goal with |- context [fold_left _ defs ?s] =>
      destruct (register_loop cfg c defs s) as (_ & Ht & _) end.
    rewrite Ht. done.
  - unfold StartAndRegister. rewrite Hb. unfold build_client. cbn.
    reflexivity.
  - intros c defs Hfree Hc Hi Hl.
    rewrite (Start_unfold m cfg c Hfree); [|by rewrite Hb].
    cbn zeta. by rewrite Hi, Hl.
Qed.

End ManagerProperties.

(** Examples of the three manager properties on the echo provider. *)

Lemma StartAndRegister_all_or_nothing_witness :
  let m := demo_manager in
  let cfg := demo_cfg "stdio" in
  let r := demo_Start (Ok broken_client) m cfg in
  clients m !! cfg_Name cfg = None /\
  last (trace (snd r)) = Some (EClose 8) /\
  registry (mgr (snd r)) = [] /\
  clients (mgr (snd r)) !! "alias" = None.
Proof.
  cbn zeta.
  destruct (StartAndRegister_all_or_nothing list_Register
              (fun _ _ => Err (Errorf "failed to connect to SSE endpoint"))
              (fun _ _ => echo_client) (fun _ _ _ => Ok broken_client)
              demo_manager (demo_cfg "stdio") broken_client
              (Errorf "rpc error -32600: bad handshake"))
    as (_ & Hlast & _ & Hreg & _ & Hcl).
  - reflexivity.
  - reflexivity.
  - left. reflexivity.
  - split; [reflexivity|]. split; [exact Hlast|]. split; [exact Hreg|exact Hcl].
Defined.

Lemma StartAndRegister_namespaced_adapters_witness :
  let r := demo_Start (Ok echo_client) demo_manager (demo_cfg "stdio") in
  fst r = None /\
  exists a, registered (trace (snd r)) !! 0%nat = Some a /\
    Name a = "alias_echo" /\ IsDeferred a = true /\ originalName a = "echo".
Proof.
  cbn zeta.
  destruct (StartAndRegister_namespaced_adapters list_Register
              (fun _ _ => Err (Errorf "failed to connect to SSE endpoint"))
              (fun _ _ => echo_client) (fun _ _ _ => Ok echo_client)
              demo_manager (demo_cfg "stdio") echo_client [echo_def])
    as (Hok & _ & _ & Hall); try reflexivity.
  split; [exact Hok|].
  destruct (Hall 0%nat echo_def eq_refl) as (a & Ha & Hn & Hd & Ho & _).
  exists a. split; [exact Ha|]. split; [exact Hn|]. split; [exact Hd|exact Ho].
Defined.

Lemma StartAndRegister_unknown_type_is_stdio_witness :
  let cfg := demo_cfg "websocket" in
  cfg_Type cfg <> "sse" /\ cfg_Type cfg <> "http" /\
  fst (demo_Start (Ok echo_client) demo_manager cfg) = None /\
  head (trace (snd (demo_Start (Ok echo_client) demo_manager cfg))) =
    Some (EConnect (CallNewStdioClient "mcp-echo" ["--stdio"] [])).
Proof.
  cbn zeta.
  assert (H1 : cfg_Type (demo_cfg "websocket") <> "sse") by (cbn; congruence).
  assert (H2 : cfg_Type (demo_cfg "websocket") <> "http") by (cbn; congruence).
  destruct (StartAndRegister_unknown_type_is_stdio list_Register
              (fun _ _ => Err (Errorf "failed to connect to SSE endpoint"))
              (fun _ _ => echo_client) (fun _ _ _ => Ok echo_client)
              demo_manager (demo_cfg "websocket") H1 H2)
    as (_ & Hhead & _ & Hok).
  split; [exact H1|]. split; [exact H2|]. split.
  - apply (Hok echo_client [echo_def]); reflexivity.
  - apply Hhead. reflexivity.
Defined.

(** ** Paths: the length of a cleaned path *)

(** The length of a path counted by elements: every element with the
    separator after it. *)
Local Abbreviation weight := (sum_list_with (fun e : string => S (String.length e))).

(** The same without the empty elements, which [Clean] skips. *)
Local Abbreviation weight_ne :=
  (sum_list_with (fun e : string =>
     if decide (e = "") then 0%nat else S (String.length e))).

Lemma split_slash_cons s : exists e es, split_slash s = e :: es.
Proof.
  destruct s as [|c s]; cbn; [eauto|].
  destruct (decide (c = slash)); [eauto|].
  destruct (split_slash s); eauto.
Qed.

Lemma weight_split s : weight (split_slash s) = S (String.length s).
Proof.
  induction s as [|c s IH]; [done|]. cbn [split_slash].
  destruct (decide (c = slash)).
  - cbn. by rewrite IH.
  - destruct (split_slash_cons s) as (e & es & Hs). rewrite Hs in *.
    cbn in *. lia.
Qed.

Lemma split_slash_snoc s : split_slash (s +:+ "/") = split_slash s ++ [""].
Proof.
  induction s as [|c s IH]; [done|].
  rewrite append_cons. cbn [split_slash].
  destruct (decide (c = slash)); [by rewrite IH|].
  rewrite IH. destruct (split_slash_cons s) as (e & es & ->). done.
Qed.

Lemma length_join es : es <> [] -> S (String.length (join_slash es)) = weight es.
Proof.
  induction es as [|e es IH]; [done|]. intros _.
  destruct es as [|e' es]; [cbn; lia|].
  change (join_slash (e :: e' :: es))
    with (e +:+ String slash (join_slash (e' :: es))).
  rewrite append_length. cbn [String.length].
  specialize (IH ltac:(done)).
  change (weight (e :: e' :: es)) with (S (String.length e) + weight (e' :: es)).
  lia.
Qed.

Lemma weight_app (l1 l2 : list string) : weight (l1 ++ l2) = weight l1 + weight l2.
Proof. apply sum_list_with_app. Qed.

Lemma weight_rev (l : list string) : weight (rev l) = weight l.
Proof.
  induction l as [|e l IH]; [done|]. cbn [rev]. rewrite weight_app, IH. cbn. lia.
Qed.

Lemma weight_ne_le (l : list string) : weight_ne l <= weight l.
Proof.
  induction l as [|e l IH]; [done|]. cbn. destruct (decide (e = "")); lia.
Qed.

Lemma weight_ne_snoc_empty (l : list string) : weight_ne (l ++ [""]) = weight_ne l.
Proof.
  rewrite sum_list_with_app. cbn [sum_list_with].
  rewrite decide_True by done. lia.
Qed.

Lemma clean_elems_weight rooted out es :
  weight (clean_elems rooted out es) <= weight out + weight_ne es.
Proof.
  revert out. induction es as [|e es IH]; intros out; cbn [clean_elems].
  - rewrite weight_rev. cbn. lia.
  - cbn [sum_list_with].
    destruct (decide (e = "")); [apply IH|].
    destruct (decide (e = ".")); [etrans; [apply IH|lia]|].
    destruct (decide (e = "..")) as [->|].
    + destruct out as [|top out'].
      * destruct rooted; (etrans; [apply IH|cbn; lia]).
      * destruct (decide (top = "..")); (etrans; [apply IH|cbn; lia]).
    + etrans; [apply IH|cbn; lia].
Qed.

Lemma IsAbs_cons c s : IsAbs (String c s) = bool_decide (c = slash).
Proof.
  unfold IsAbs, HasPrefix.
  change (String.prefix "/" (String c s))
    with (if ascii_dec "/" c then String.prefix "" s else false).
  destruct (ascii_dec "/" c) as [<-|Hne].
  - by rewrite prefix_nil, bool_decide_eq_true_2.
  - by rewrite bool_decide_eq_false_2.
Qed.

Lemma IsAbs_nil : IsAbs "" = false.
Proof. reflexivity. Qed.

(** [Clean] does not lengthen a path, the empty path apart. *)
Lemma Clean_length x : x <> "" -> String.length (Clean x) <= String.length x.
Proof.
  intros Hx. unfold Clean. rewrite decide_False by done.
  pose proof (weight_split x) as Hw.
  destruct (IsAbs x) eqn:Habs.
  - destruct x as [|c x']; [done|]. rewrite IsAbs_cons in Habs.
    apply bool_decide_eq_true_1 in Habs as ->.
    cbn [split_slash] in *. rewrite decide_True in * by done.
    cbn [clean_elems]. rewrite decide_True by done.
    pose proof (clean_elems_weight true [] (split_slash x')) as Hc.
    pose proof (weight_ne_le (split_slash x')) as Hle.
    cbn [sum_list_with String.length] in *.
    destruct (clean_elems true [] (split_slash x')) as [|e es] eqn:He.
    + cbn. lia.
    + pose proof (length_join (e :: es) ltac:(done)) as Hj.
      cbn [String.length sum_list_with] in *. lia.
  - pose proof (clean_elems_weight false [] (split_slash x)) as Hc.
    pose proof (weight_ne_le (split_slash x)) as Hle.
    destruct (clean_elems false [] (split_slash x)) as [|e es] eqn:He.
    + destruct x; [done|]. cbn. lia.
    + pose proof (length_join (e :: es) ltac:(done)) as Hj.
      cbn [sum_list_with] in *. lia.
Qed.

Lemma has_slash_dir_part s : has_slash s = true -> dir_part s <> "".
Proof.
  destruct s as [|c s]; [done|]. cbn [has_slash dir_part]. by intros ->.
Qed.

Lemma dir_part_length p :
  dir_part p = p \/ String.length (dir_part p) < String.length p.
Proof.
  induction p as [|c p IH]; [by left|]. cbn [dir_part].
  destruct (bool_decide (c = slash) || has_slash p).
  - destruct IH as [-> | IH]; [by left|right]. cbn. lia.
  - right. cbn. lia.
Qed.

(** The directory part of a path is empty or ends with a separator. *)
Lemma dir_part_cases p : dir_part p = "" \/ exists s, dir_part p = s +:+ "/".
Proof.
  induction p as [|c p IH]; [by left|]. cbn [dir_part].
  destruct (bool_decide (c = slash)) eqn:Hc; cbn [orb].
  - right. apply bool_decide_eq_true_1 in Hc as ->.
    destruct IH as [-> | [s ->]]; [by exists ""|].
    exists (String slash s). by rewrite append_cons.
  - destruct (has_slash p) eqn:Hs; [|by left]. right.
    destruct IH as [Hd | [s ->]]; [by apply has_slash_dir_part in Hs|].
    exists (String c s). by rewrite append_cons.
Qed.

(** [Clean] removes a trailing separator, the one of the root apart. *)
Lemma Clean_trailing_slash s :
  s <> "" -> String.length (Clean (s +:+ "/")) < String.length (s +:+ "/").
Proof.
  intros Hs. destruct s as [|c s]; [done|].
  unfold Clean. rewrite append_cons, decide_False by done.
  rewrite IsAbs_cons, <- append_cons, split_slash_snoc, append_length.
  pose proof (weight_split (String c s)) as Hw.
  cbn [split_slash] in *.
  destruct (decide (c = slash)) as [->|Hne].
  - rewrite bool_decide_eq_true_2 by done.
    cbn [app clean_elems]. rewrite decide_True by done.
    pose proof (clean_elems_weight true [] (split_slash s ++ [""])) as Hc.
    rewrite weight_ne_snoc_empty in Hc.
    pose proof (weight_ne_le (split_slash s)) as Hle.
    destruct (clean_elems true [] (split_slash s ++ [""])) as [|e es] eqn:He.
    + cbn. lia.
    + pose proof (length_join (e :: es) ltac:(done)) as Hj.
      cbn [String.length sum_list_with] in *. lia.
  - rewrite bool_decide_eq_false_2 by done.
    destruct (split_slash_cons s) as (e0 & es0 & Hsp). rewrite Hsp in *.
    change (clean_elems false [] ((String c e0 :: es0) ++ [""]))
      with (clean_elems false [] (String c e0 :: es0 ++ [""])).
    pose proof (clean_elems_weight false [] (String c e0 :: es0 ++ [""])) as Hc.
    change (String c e0 :: es0 ++ [""]) with ((String c e0 :: es0) ++ [""]) in Hc at 2.
    rewrite weight_ne_snoc_empty in Hc.
    pose proof (weight_ne_le (String c e0 :: es0)) as Hle.
    destruct (clean_elems false [] (String c e0 :: es0 ++ [""])) as [|e es] eqn:He.
    + cbn. lia.
    + pose proof (length_join (e :: es) ltac:(done)) as Hj.
      cbn [String.length sum_list_with] in *. lia.
Qed.

(** One step up: [Dir] leaves the path as it is, gives ".", or shortens
    it. *)
Lemma Dir_shrinks p :
  Dir p = p \/ Dir p = "." \/ String.length (Dir p) < String.length p.
Proof.
  unfold Dir. destruct (dir_part_cases p) as [-> | [s Hs]]; [by right; left|].
  rewrite Hs. destruct (decide (s = "")) as [-> | Hne].
  - destruct (dir_part_length p) as [Hp | Hp]; rewrite Hs in Hp.
    + left. by rewrite <- Hp.
    + right; right. exact Hp.
  - right; right. pose proof (Clean_trailing_slash s Hne).
    destruct (dir_part_length p) as [Hp | Hp]; rewrite Hs in Hp.
    + by rewrite <- Hp.
    + lia.
Qed.


(** ** The sandbox *)

Lemma prefix_exists p s : String.prefix p s = true -> exists t, s = p +:+ t.
Proof.
  revert s. induction p as [|c p IH]; intros s Hp; [by exists s|].
  destruct s as [|c' s]; [done|].
  change (String.prefix (String c p) (String c' s))
    with (if ascii_dec c c' then String.prefix p s else false) in Hp.
  destruct (ascii_dec c c') as [<-|]; [|done].
  destruct (IH s Hp) as [t ->]. by exists t.
Qed.

Lemma split_slash_dotdot s : split_slash ("../" +:+ s) = ".." :: split_slash s.
Proof.
  change ("../" +:+ s) with (String "." (String "." (String slash s))).
  cbn [split_slash]. rewrite decide_False by done.
  rewrite (decide_True (P := slash = slash)) by done. done.
Qed.

(** A leading [..] of a relative path survives [Clean]. *)
Lemma clean_elems_keeps_dotdot out es :
  last out = Some ".." -> exists rest, clean_elems false out es = ".." :: rest.
Proof.
  revert out. induction es as [|e es IH]; intros out Hlast; cbn [clean_elems].
  - destruct out as [|x out _] using rev_ind; [done|].
    rewrite last_snoc in Hlast. injection Hlast as ->.
    rewrite rev_app_distr. cbn. eauto.
  - destruct (decide (e = "")); [by apply IH|].
    destruct (decide (e = ".")); [by apply IH|].
    destruct (decide (e = "..")).
    + destruct out as [|top out']; [done|].
      destruct (decide (top = "..")) as [->|Hne]; apply IH.
      * by rewrite last_cons, Hlast.
      * destruct out' as [|y out']; [cbn in Hlast; congruence|].
        by rewrite last_cons_cons in Hlast.
    + apply IH. by rewrite last_cons, Hlast.
Qed.

Lemma join_slash_dotdot rest :
  join_slash (".." :: rest) = ".." \/ HasPrefix (join_slash (".." :: rest)) "../" = true.
Proof.
  destruct rest as [|e rest]; [by left|right].
  change (join_slash (".." :: e :: rest))
    with ("../" +:+ join_slash (e :: rest)).
  unfold HasPrefix. apply (prefix_append "../" "../"). reflexivity.
Qed.

Lemma IsAbs_dotdot s : IsAbs ("../" +:+ s) = false.
Proof.
  change ("../" +:+ s) with (String "." (String "." (String slash s))).
  by rewrite IsAbs_cons, bool_decide_eq_false_2.
Qed.

Lemma dotdot_nonempty s : "../" +:+ s <> "".
Proof. by change ("../" +:+ s) with (String "." (String "." (String slash s))). Qed.

Lemma Clean_dotdot s :
  Clean ("../" +:+ s) = ".." \/ HasPrefix (Clean ("../" +:+ s)) "../" = true.
Proof.
  unfold Clean. rewrite (decide_False (P := _ = "")) by apply dotdot_nonempty.
  rewrite IsAbs_dotdot, split_slash_dotdot. cbn [clean_elems].
  rewrite (decide_False (P := ".." = "")), (decide_False (P := ".." = ".")) by done.
  rewrite (decide_True (P := ".." = "..")) by done.
  destruct (clean_elems_keeps_dotdot [".."] (split_slash s) eq_refl) as [rest ->].
  apply join_slash_dotdot.
Qed.

(** A path that begins with [..] is not local. *)
Lemma leaves_root_not_local rel : leaves_root rel -> IsLocal rel = false.
Proof.
  intros [-> | Hp]; [reflexivity|].
  apply prefix_exists in Hp as [s ->].
  unfold IsLocal. rewrite IsAbs_dotdot.
  rewrite (bool_decide_eq_false_2 (_ = "")) by apply dotdot_nonempty. cbn [orb].
  rewrite split_slash_dotdot. cbn [existsb].
  rewrite (bool_decide_eq_true_2 (".." = "..")) by done.
  rewrite orb_true_r. cbn [orb].
  destruct (Clean_dotdot s) as [-> | ->]; [reflexivity|].
  by rewrite orb_true_r.
Qed.

(** [getSafeRelPath] in terms of the relative form of the path. *)
Lemma getSafeRelPath_relative_form workspace path :
  workspace <> "" ->
  getSafeRelPath workspace path =
    match relative_form workspace path with
    | Err err => Err (Errorf_w "failed to calculate relative path: " err)
    | Ok rel =>
        if negb (IsLocal rel) then Err (Errorf ("path escapes workspace: " +:+ path))
        else Ok rel
    end.
Proof.
  intros Hws. unfold getSafeRelPath, relative_form.
  rewrite decide_False by done.
  destruct (IsAbs (Clean path)); [|done]. by destruct (Rel workspace (Clean path)).
Qed.

(** C8, as the code has it.
    - A sandboxed read, write or list of a path that has no form relative
      to the workspace, or whose relative form leaves it (the form is
      [..] or begins with [../]), fails before any call on the root, the
      three of them with the same error, and the error is not rewritten
      to "access denied".  Its message is "workspace is not defined" for
      an empty workspace, "failed to open workspace: " and the error of
      the opening when the workspace cannot be opened,
      "failed to calculate relative path: " and the error of
      [filepath.Rel] when the path has no relative form, and
      "path escapes workspace: " and the path otherwise.
    - When the workspace opens and [getSafeRelPath] lets the path
      through, a sandboxed read that the root refuses, with its escape
      error or a permission error, fails with a message that contains
      "access denied". *)
Theorem sandbox_escape_rejected (os : os_answers) (now : Z)
    (workspace path data : string) (w : world) :
  ((forall rel, relative_form workspace path = Ok rel -> leaves_root rel) ->
   exists err,
     sandboxFs_ReadFile os workspace path w = (Err err, w) /\
     sandboxFs_WriteFile os now workspace path data w = (Err err, w) /\
     sandboxFs_ReadDir os workspace path w = (Err err, w) /\
     Error err =
       if decide (workspace = "") then "workspace is not defined"
       else
         match open_root os, relative_form workspace path with
         | Some e, _ =>
             "failed to open workspace: " +:+ Error (PathError "open" workspace e)
         | None, Err e => "failed to calculate relative path: " +:+ Error e
         | None, Ok _ => "path escapes workspace: " +:+ path
         end) /\
  (forall rel e,
     open_root os = None ->
     getSafeRelPath workspace path = Ok rel ->
     read_file os = Some e ->
     e = EESCAPE \/ e = EACCES \/ e = EPERM ->
     exists err,
       fst (sandboxFs_ReadFile os workspace path w) = Err err /\
       Contains (Error err) "access denied" = true).
Proof.
  split.
  - intros Hout.
    unfold sandboxFs_ReadFile, sandboxFs_WriteFile, sandboxFs_ReadDir, execute.
    destruct (decide (workspace = "")) as [Hempty|Hws]; [by eexists|].
    destruct (open_root os) as [e|]; [by eexists|].
    rewrite (getSafeRelPath_relative_form workspace path Hws).
    destruct (relative_form workspace path) as [rel|e] eqn:Hrel; [|by eexists].
    rewrite (leaves_root_not_local rel (Hout rel eq_refl)). by eexists.
  - intros rel e Hroot Hsafe Hread He.
    assert (Hws : workspace <> "").
    { intros ->. unfold getSafeRelPath in Hsafe.
      by rewrite decide_True in Hsafe. }
    unfold sandboxFs_ReadFile, execute, ReadFile.
    rewrite decide_False by done. rewrite Hroot, Hsafe, Hread.
    assert (Hcase : IsNotExist (PathError "open" rel e) = false /\
      (IsPermission (PathError "open" rel e)
       || Contains (Error (PathError "open" rel e)) "escapes from parent"
       || Contains (Error (PathError "open" rel e)) "permission denied") = true).
    { destruct He as [-> | [-> | ->]]; (split; [done|]); [|done..].
      apply orb_true_iff; left. apply orb_true_iff; right.
      cbn [Error PathError errno_msg].
      do 3 apply Contains_append_r. reflexivity. }
    destruct Hcase as [-> ->]. cbn [fst].
    eexists. split; [done|]. cbn [Error Errorf_w].
    by apply Contains_append_l.
Qed.

(** ** The sandbox on the small host *)

Lemma WriteFile_atomic_witness :
  mkdir_all os_disk_full = None /\
  "/w" <> "" /\
  open_root os_disk_full = None /\
  getSafeRelPath "/w" "notes.txt" = Ok "notes.txt" /\
  atomic_write os_disk_full [SysMkdirAll "."]
    "notes.txt.1700000000000000042.tmp" "notes.txt" "AAAA" demo_world true
    (snd (hostFs_WriteFile os_disk_full 1700000000000000042 "notes.txt" "AAAA"
            demo_world)) /\
  atomic_write os_disk_full []
    "notes.txt.1700000000000000042.tmp" "notes.txt" "AAAA" demo_world true
    (snd (sandboxFs_WriteFile os_disk_full 1700000000000000042 "/w" "notes.txt"
            "AAAA" demo_world)).
Proof.
  destruct (WriteFile_atomic os_disk_full 1700000000000000042 "notes.txt" "AAAA"
              demo_world eq_refl) as [Hhost Hsandbox].
  split; [reflexivity|]. split; [discriminate|]. split; [reflexivity|].
  split; [reflexivity|]. split; [exact Hhost|].
  exact (Hsandbox "/w" "notes.txt" ltac:(discriminate) eq_refl eq_refl).
Defined.

(** C8 as stated fails: a sandboxed read, write or list of [../secret] is
    refused with "path escapes workspace: ../secret", which does not
    contain "access denied". *)
Lemma sandbox_escape_message_counterexample :
  relative_form "/w" "../secret" = Ok "../secret" /\
  leaves_root "../secret" /\
  exists err,
    fst (sandboxFs_ReadFile os_fine "/w" "../secret" demo_world) = Err err /\
    fst (sandboxFs_WriteFile os_fine 42 "/w" "../secret" "x" demo_world) = Err err /\
    fst (sandboxFs_ReadDir os_fine "/w" "../secret" demo_world) = Err err /\
    Error err = "path escapes workspace: ../secret" /\
    Contains (Error err) "access denied" = false.
Proof.
  split; [reflexivity|]. split; [right; reflexivity|].
  exists (Errorf "path escapes workspace: ../secret").
  repeat split; reflexivity.
Qed.

Lemma sandbox_escape_rejected_witness :
  (exists err,
     sandboxFs_ReadFile os_read_escapes "/w" "../secret" demo_world
       = (Err err, demo_world) /\
     sandboxFs_WriteFile os_read_escapes 42 "/w" "../secret" "x" demo_world
       = (Err err, demo_world) /\
     sandboxFs_ReadDir os_read_escapes "/w" "../secret" demo_world
       = (Err err, demo_world) /\
     Error err = "path escapes workspace: ../secret") /\
  (exists err,
     sandboxFs_ReadFile os_fine "ws" "/etc/passwd" demo_world = (Err err, demo_world) /\
     sandboxFs_WriteFile os_fine 42 "ws" "/etc/passwd" "x" demo_world
       = (Err err, demo_world) /\
     sandboxFs_ReadDir os_fine "ws" "/etc/passwd" demo_world = (Err err, demo_world) /\
     Error err = "failed to calculate relative path: "
                 +:+ "Rel: can't make /etc/passwd relative to ws") /\
  (exists err,
     sandboxFs_ReadFile os_workspace_gone "/w" "../secret" demo_world
       = (Err err, demo_world) /\
     sandboxFs_WriteFile os_workspace_gone 42 "/w" "../secret" "x" demo_world
       = (Err err, demo_world) /\
     sandboxFs_ReadDir os_workspace_gone "/w" "../secret" demo_world
       = (Err err, demo_world) /\
     Error err = "failed to open workspace: open /w: no such file or directory") /\
  open_root os_read_escapes = None /\
  getSafeRelPath "/w" "link/passwd" = Ok "link/passwd" /\
  read_file os_read_escapes = Some EESCAPE /\
  (exists err,
     fst (sandboxFs_ReadFile os_read_escapes "/w" "link/passwd" demo_world) = Err err /\
     Contains (Error err) "access denied" = true).
Proof.
  assert (Hout : forall rel,
            relative_form "/w" "../secret" = Ok rel -> leaves_root rel)
    by (intros rel [= <-]; right; reflexivity).
  assert (Hnone : forall rel,
            relative_form "ws" "/etc/passwd" = Ok rel -> leaves_root rel)
    by (intros rel Hrel; vm_compute in Hrel; discriminate).
  split.
  { exact (proj1 (sandbox_escape_rejected os_read_escapes 42 "/w" "../secret" "x"
                    demo_world) Hout). }
  split.
  { exact (proj1 (sandbox_escape_rejected os_fine 42 "ws" "/etc/passwd" "x"
                    demo_world) Hnone). }
  split.
  { exact (proj1 (sandbox_escape_rejected os_workspace_gone 42 "/w" "../secret" "x"
                    demo_world) Hout). }
  split; [reflexivity|]. split; [reflexivity|]. split; [reflexivity|].
  exact (proj2 (sandbox_escape_rejected os_read_escapes 42 "/w" "link/passwd" "x"
                  demo_world) "link/passwd" EESCAPE eq_refl eq_refl eq_refl
               (or_introl eq_refl)).
Defined.

(** * The JSON-RPC clients *)

(** ** The slots of the pending table *)

Lemma drawn_le ph : drawn ph <= length ph.
Proof. induction ph as [|[] ph IH]; cbn; lia. Qed.

Lemma drawn_app ph1 ph2 : drawn (ph1 ++ ph2) = drawn ph1 + drawn ph2.
Proof. induction ph1 as [|[] ph1 IH]; cbn; lia. Qed.

Lemma drawn_insert_NoId ph i p :
  ph !! i = Some NoId -> p <> NoId -> drawn (<[i := p]> ph) = S (drawn ph).
Proof.
  revert i. induction ph as [|q ph IH]; intros i Hi Hp; [done|].
  destruct i as [|i].
  - injection Hi as ->. by destruct p.
  - change (<[S i := p]> (q :: ph)) with (q :: <[i := p]> ph).
    cbn [drawn]. rewrite (IH i Hi Hp). by destruct q.
Qed.

Lemma drawn_insert_lt ph i : ph !! i = Some NoId -> drawn ph < length ph.
Proof.
  revert i. induction ph as [|q ph IH]; intros i Hi; [done|].
  destruct i as [|i].
  - injection Hi as ->. pose proof (drawn_le ph). cbn. lia.
  - specialize (IH i Hi). destruct q; cbn; lia.
Qed.

Lemma drawn_insert_id ph i p q :
  ph !! i = Some p -> p <> NoId -> q <> NoId -> drawn (<[i := q]> ph) = drawn ph.
Proof.
  revert i. induction ph as [|r ph IH]; intros i Hi Hp Hq; [done|].
  destruct i as [|i].
  - injection Hi as ->. by destruct p, q.
  - change (<[S i := q]> (r :: ph)) with (r :: <[i := q]> ph).
    cbn [drawn]. by rewrite (IH i Hi Hp Hq).
Qed.

Lemma slots_inv_init : slots_inv 0 ∅ [].
Proof. by split. Qed.

(** A caller that has returned has no entry in the table, and neither
    has one that has not yet added its slot. *)
Lemma slots_inv_finished n m ph i id :
  slots_inv n m ph -> ph !! i = Some (Finished id) -> m !! id = None.
Proof.
  intros Hinv Hi. destruct (m !! id) as [ch|] eqn:Hm; [|done].
  destruct (inv_pending _ _ _ Hinv id ch Hm) as [j Hj].
  pose proof (inv_distinct _ _ _ Hinv i j _ _ id Hi Hj eq_refl eq_refl) as ->.
  congruence.
Qed.

Lemma slot_step_length a b :
  slot_step a b -> length (snd a) <= length (snd b).
Proof.
  destruct 1; cbn; rewrite ?length_app, ?length_insert; lia.
Qed.

(** Every move keeps the invariant, as long as the counter has not
    wrapped around. *)
Lemma slot_step_inv n m ph n' m' ph' :
  slot_step (n, m, ph) (n', m', ph') ->
  (Z.of_nat (length ph') < 2 ^ 64)%Z ->
  slots_inv n m ph -> slots_inv n' m' ph'.
Proof.
  intros Hstep Hlen [Hcount Hrange Hdist Hpend].
  inversion Hstep as [| | ? ? ? i p Hi Hp | ? ? ? i id ch Hi | ? ? ? i id Hi];
    subst; clear Hstep.
  - by split.
  - split.
    + rewrite drawn_app. cbn. lia.
    + intros i p id [Hi | [_ Hi]]%lookup_app_Some; [eauto|].
      apply list_lookup_singleton_Some in Hi as [_ <-]. done.
    + intros i j p q id [Hi | [_ Hi]]%lookup_app_Some;
        [|apply list_lookup_singleton_Some in Hi as [_ <-]; done].
      intros [Hj | [_ Hj]]%lookup_app_Some;
        [eauto|apply list_lookup_singleton_Some in Hj as [_ <-]; done].
    + intros id ch Hm. destruct (Hpend id ch Hm) as [i Hi].
      exists i. by apply lookup_app_l_Some.
  - rewrite length_insert in Hlen.
    pose proof (drawn_insert_lt ph i Hi) as Hlt.
    assert (Hadd : AddUint64 (Z.of_nat (drawn ph)) = (Z.of_nat (drawn ph) + 1)%Z).
    { unfold AddUint64. apply Z.mod_small. lia. }
    assert (Hfresh : forall j q id, ph !! j = Some q -> phase_id q = Some id ->
                       id <> pretty (AddUint64 (Z.of_nat (drawn ph)))).
    { intros j q id Hj Hq ->. destruct (Hrange j q _ Hj Hq) as (k & Hk & Hle).
      apply (inj pretty) in Hk. lia. }
    assert (Hpid : phase_id p = Some (pretty (AddUint64 (Z.of_nat (drawn ph)))))
      by (by destruct Hp as [-> | ->]).
    split.
    + rewrite drawn_insert_NoId; [lia|done|]. by destruct Hp as [-> | ->].
    + intros j q id Hj Hq.
      destruct (decide (i = j)) as [<-|Hne].
      * rewrite list_lookup_insert_eq in Hj by (by eapply lookup_lt_Some).
        injection Hj as <-. rewrite Hpid in Hq. injection Hq as <-.
        exists (AddUint64 (Z.of_nat (drawn ph))). split; [done|]. lia.
      * rewrite list_lookup_insert_ne in Hj by done.
        destruct (Hrange j q id Hj Hq) as (k & Hk & Hle).
        exists k. split; [done|]. lia.
    + intros j1 j2 q1 q2 id Hj1 Hj2 Hq1 Hq2.
      destruct (decide (i = j1)) as [<-|Hne1], (decide (i = j2)) as [<-|Hne2];
        [done| | |].
      * rewrite list_lookup_insert_eq in Hj1 by (by eapply lookup_lt_Some).
        rewrite list_lookup_insert_ne in Hj2 by done.
        injection Hj1 as <-. rewrite Hpid in Hq1. injection Hq1 as <-.
        by destruct (Hfresh j2 q2 _ Hj2 Hq2).
      * rewrite list_lookup_insert_eq in Hj2 by (by eapply lookup_lt_Some).
        rewrite list_lookup_insert_ne in Hj1 by done.
        injection Hj2 as <-. rewrite Hpid in Hq2. injection Hq2 as <-.
        by destruct (Hfresh j1 q1 _ Hj1 Hq1).
      * rewrite list_lookup_insert_ne in Hj1, Hj2 by done. eauto.
    + intros id ch Hm. destruct (Hpend id ch Hm) as [j Hj].
      exists j. rewrite list_lookup_insert_ne; [done|]. intros ->. congruence.
  - rewrite length_insert in Hlen. split.
    + by rewrite (drawn_insert_id ph i (HasId id)).
    + intros j q id' Hj Hq.
      destruct (decide (i = j)) as [<-|Hne].
      * rewrite list_lookup_insert_eq in Hj by (by eapply lookup_lt_Some).
        injection Hj as <-. injection Hq as <-. by apply (Hrange i (HasId id)).
      * rewrite list_lookup_insert_ne in Hj by done. eauto.
    + intros j1 j2 q1 q2 id' Hj1 Hj2 Hq1 Hq2.
      destruct (decide (i = j1)) as [<-|Hne1], (decide (i = j2)) as [<-|Hne2];
        [done| | |].
      * rewrite list_lookup_insert_eq in Hj1 by (by eapply lookup_lt_Some).
        rewrite list_lookup_insert_ne in Hj2 by done.
        injection Hj1 as <-. injection Hq1 as <-.
        by apply (Hdist i j2 (HasId id) q2 id).
      * rewrite list_lookup_insert_eq in Hj2 by (by eapply lookup_lt_Some).
        rewrite list_lookup_insert_ne in Hj1 by done.
        injection Hj2 as <-. injection Hq2 as <-.
        by apply (Hdist j1 i q1 (HasId id) id).
      * rewrite list_lookup_insert_ne in Hj1, Hj2 by done. eauto.
    + intros id' ch' Hm.
      destruct (decide (id = id')) as [<-|Hne].
      * exists i. by rewrite list_lookup_insert_eq by (by eapply lookup_lt_Some).
      * rewrite lookup_insert_ne in Hm by done.
        destruct (Hpend id' ch' Hm) as [j Hj]. exists j.
        rewrite list_lookup_insert_ne; [done|]. intros ->. congruence.
  - rewrite length_insert in Hlen. split.
    + by rewrite (drawn_insert_id ph i (Holds id)).
    + intros j q id' Hj Hq.
      destruct (decide (i = j)) as [<-|Hne].
      * rewrite list_lookup_insert_eq in Hj by (by eapply lookup_lt_Some).
        injection Hj as <-. injection Hq as <-. by apply (Hrange i (Holds id)).
      * rewrite list_lookup_insert_ne in Hj by done. eauto.
    + intros j1 j2 q1 q2 id' Hj1 Hj2 Hq1 Hq2.
      destruct (decide (i = j1)) as [<-|Hne1], (decide (i = j2)) as [<-|Hne2];
        [done| | |].
      * rewrite list_lookup_insert_eq in Hj1 by (by eapply lookup_lt_Some).
        rewrite list_lookup_insert_ne in Hj2 by done.
        injection Hj1 as <-. injection Hq1 as <-.
        by apply (Hdist i j2 (Holds id) q2 id).
      * rewrite list_lookup_insert_eq in Hj2 by (by eapply lookup_lt_Some).
        rewrite list_lookup_insert_ne in Hj1 by done.
        injection Hj2 as <-. injection Hq2 as <-.
        by apply (Hdist j1 i q1 (Holds id) id).
      * rewrite list_lookup_insert_ne in Hj1, Hj2 by done. eauto.
    + intros id' ch' Hm.
      destruct (decide (id = id')) as [<-|Hne];
        [by rewrite lookup_delete_eq in Hm|].
      rewrite lookup_delete_ne in Hm by done.
      destruct (Hpend id' ch' Hm) as [j Hj]. exists j.
      rewrite list_lookup_insert_ne; [done|]. intros ->.
      rewrite Hi in Hj. by injection Hj as ->.
Qed.

Lemma phases_insert ts i t :
  phases (<[i := t]> ts) = <[i := phase_of (at_pc t)]> (phases ts).
Proof. unfold phases. by rewrite list_fmap_insert. Qed.

Lemma phases_lookup ts i t :
  ts !! i = Some t -> phases ts !! i = Some (phase_of (at_pc t)).
Proof. intros Hi. unfold phases. by rewrite list_lookup_fmap, Hi. Qed.

Lemma phases_lookup_inv ts i p :
  phases ts !! i = Some p -> exists t, ts !! i = Some t /\ phase_of (at_pc t) = p.
Proof.
  unfold phases. rewrite list_lookup_fmap.
  destruct (ts !! i) as [t|]; [|done]. intros [= <-]. eauto.
Qed.

(** A move of a caller that keeps its phase is no move of the slots. *)
Lemma phases_insert_same ts i t p :
  ts !! i = Some t -> phase_of (at_pc t) = phase_of p ->
  phases (<[i := move t p]> ts) = phases ts.
Proof.
  intros Hi Hp. rewrite phases_insert. cbn. rewrite <- Hp.
  apply list_insert_id. by apply phases_lookup.
Qed.

Lemma phases_insert_ctx ts i t e :
  ts !! i = Some t ->
  phases (<[i := {| at_pc := at_pc t; ctx_Err := e |}]> ts) = phases ts.
Proof.
  intros Hi. rewrite phases_insert. cbn.
  apply list_insert_id. by apply phases_lookup.
Qed.

Section ClientProperties.

Context `{Libraries}.

(** Every step of the stdio client is a move of the slots. *)
Lemma Stdio_step_slot s l s' :
  Stdio.step s l = Some s' -> slot_step (Stdio_view s) (Stdio_view s').
Proof.
  unfold Stdio_view.
  destruct l as [method params | i e | i | i err | i c | line | | |]; cbn [Stdio.step].
  - intros [= <-]. cbn. unfold phases. rewrite map_app. apply slot_call.
  - destruct (Stdio.threads s !! i) as [t|] eqn:Hi; [|done]. cbn.
    intros [= <-]. cbn. rewrite (phases_insert_ctx _ _ _ _ Hi). apply slot_same.
  - destruct (Stdio.threads s !! i) as [t|] eqn:Hi; [|done]. cbn.
    pose proof (phases_lookup _ _ _ Hi) as Hph.
    destruct (at_pc t) as [method params | id reqBytes | | | id r |] eqn:Hpc;
      try done; intros [= <-].
    + unfold Stdio.draw_id.
      destruct (Marshal_params params) as [paramsRaw|err];
        [destruct (Marshal _) as [reqBytes|err]|];
        cbn; rewrite phases_insert; cbn; apply slot_draw; auto.
    + cbn. rewrite phases_insert. cbn. by apply slot_install.
    + cbn. rewrite phases_insert. cbn. by apply slot_delete.
  - destruct (Stdio.threads s !! i) as [t|] eqn:Hi; [|done]. cbn.
    destruct (at_pc t) as [| | id ch reqBytes | | |] eqn:Hpc; try done.
    unfold Stdio.write. destruct err as [e|].
    + intros [= <-]. cbn. rewrite (phases_insert_same _ _ _ _ Hi) by (by rewrite Hpc).
      apply slot_same.
    + destruct (Stdio.stdin_closed s); [done|]. intros [= <-]. cbn.
      rewrite (phases_insert_same _ _ _ _ Hi) by (by rewrite Hpc). apply slot_same.
  - destruct (Stdio.threads s !! i) as [t|] eqn:Hi; [|done]. cbn.
    destruct (at_pc t) as [| | | id ch | |] eqn:Hpc; try done.
    unfold Stdio.select. destruct (Stdio.chans s !! ch) as [buffer|]; [|done]. cbn.
    destruct (select_wait _ _ _ _ _) as [[r received]|]; [|done]. cbn.
    intros [= <-]. destruct received; cbn;
      rewrite (phases_insert_same _ _ _ _ Hi) by (by rewrite Hpc); apply slot_same.
  - destruct (Stdio.readLoop s); try done. intros [= <-].
    unfold Stdio.read_line. destruct (Unmarshal line); apply slot_same.
  - destruct (Stdio.readLoop s) as [|ch msg|]; try done.
    destruct (Stdio.chans s !! ch) as [[|]|]; try done. intros [= <-]. apply slot_same.
  - destruct (Stdio.readLoop s); try done. intros [= <-]. apply slot_same.
  - intros [= <-]. apply slot_same.
Qed.

(** Every step of the SSE client is a move of the slots. *)
Lemma SSE_step_slot s l s' :
  SSE.step s l = Some s' -> slot_step (SSE_view s) (SSE_view s').
Proof.
  unfold SSE_view.
  destruct l as [c | | e | method params | i e | i | i a | i c | line | | |];
    cbn [SSE.step].
  - unfold SSE.select_handshake.
    destruct (SSE.handshake s); try done;
      repeat (match goal with
              | |- context [if ?b then _ else _] => destruct b
              | |- context [match ?c with SSE.CasePostReady => _ | _ => _ end] =>
                  destruct c
              end; try done);
      intros [= <-]; apply slot_same.
  - destruct (SSE.handshake s); try done. intros [= <-]. apply slot_same.
  - intros [= <-]. apply slot_same.
  - destruct (SSE.handshake s); try done. intros [= <-]. cbn.
    unfold phases. rewrite map_app. apply slot_call.
  - destruct (SSE.threads s !! i) as [t|] eqn:Hi; [|done]. cbn.
    intros [= <-]. cbn. rewrite (phases_insert_ctx _ _ _ _ Hi). apply slot_same.
  - destruct (SSE.threads s !! i) as [t|] eqn:Hi; [|done]. cbn.
    pose proof (phases_lookup _ _ _ Hi) as Hph.
    destruct (at_pc t) as [method params | id reqBytes | | | id r |] eqn:Hpc;
      try done; intros [= <-].
    + unfold SSE.draw_id. cbn. rewrite phases_insert. cbn. apply slot_draw; auto.
    + cbn. rewrite phases_insert. cbn. by apply slot_install.
    + cbn. rewrite phases_insert. cbn. by apply slot_delete.
  - destruct (SSE.threads s !! i) as [t|] eqn:Hi; [|done]. cbn.
    destruct (at_pc t) as [| | id ch reqBytes | | |] eqn:Hpc; try done.
    intros [= <-]. unfold SSE.post.
    destruct a as [e | e | code body]; [| |destruct (_ && _)]; cbn;
      rewrite (phases_insert_same _ _ _ _ Hi) by (by rewrite Hpc); apply slot_same.
  - destruct (SSE.threads s !! i) as [t|] eqn:Hi; [|done]. cbn.
    destruct (at_pc t) as [| | | id ch | |] eqn:Hpc; try done.
    unfold SSE.select. destruct (SSE.chans s !! ch) as [buffer|]; [|done]. cbn.
    destruct (select_wait _ _ _ _ _) as [[r received]|]; [|done]. cbn.
    intros [= <-]. destruct received; cbn;
      rewrite (phases_insert_same _ _ _ _ Hi) by (by rewrite Hpc); apply slot_same.
  - destruct (SSE.readLoop s); try done. intros [= <-].
    unfold SSE.read_line, SSE.handleMessage, SSE.resolvePostURL.
    repeat (match goal with
            | |- context [if ?b then _ else _] => destruct b
            | |- context [match ?x with Some _ => _ | None => _ end] => destruct x
            end; cbn); apply slot_same.
  - destruct (SSE.readLoop s) as [|ch msg|]; try done.
    destruct (SSE.chans s !! ch) as [[|]|]; try done. intros [= <-]. apply slot_same.
  - destruct (SSE.readLoop s); try done. intros [= <-]. apply slot_same.
  - destruct (SSE.handshake s); try done. intros [= <-]. apply slot_same.
Qed.

Lemma phases_length ts : length (phases ts) = length ts.
Proof. unfold phases. apply length_map. Qed.

Lemma Stdio_run_length s ls s' :
  Stdio.run s ls = Some s' ->
  length (Stdio.threads s) <= length (Stdio.threads s').
Proof.
  revert s. induction ls as [|l ls IH]; intros s; cbn [Stdio.run].
  - by intros [= <-].
  - destruct (Stdio.step s l) as [s1|] eqn:Hstep; [|done]. intros Hrun.
    pose proof (slot_step_length _ _ (Stdio_step_slot _ _ _ Hstep)) as Hle.
    cbn in Hle. rewrite !phases_length in Hle. specialize (IH s1 Hrun). lia.
Qed.

Lemma SSE_run_length s ls s' :
  SSE.run s ls = Some s' ->
  length (SSE.threads s) <= length (SSE.threads s').
Proof.
  revert s. induction ls as [|l ls IH]; intros s; cbn [SSE.run].
  - by intros [= <-].
  - destruct (SSE.step s l) as [s1|] eqn:Hstep; [|done]. intros Hrun.
    pose proof (slot_step_length _ _ (SSE_step_slot _ _ _ Hstep)) as Hle.
    cbn in Hle. rewrite !phases_length in Hle. specialize (IH s1 Hrun). lia.
Qed.

(** The invariant of the slots holds along every run on which fewer than
    2^64 calls were made. *)
Lemma Stdio_run_slots s ls s' :
  Stdio.run s ls = Some s' ->
  (Z.of_nat (length (Stdio.threads s')) < 2 ^ 64)%Z ->
  slots_inv (Stdio.nextID s) (Stdio.pending s) (phases (Stdio.threads s)) ->
  slots_inv (Stdio.nextID s') (Stdio.pending s') (phases (Stdio.threads s')).
Proof.
  revert s. induction ls as [|l ls IH]; intros s; cbn [Stdio.run].
  - by intros [= <-].
  - destruct (Stdio.step s l) as [s1|] eqn:Hstep; [|done]. intros Hrun Hlen Hinv.
    apply (IH s1 Hrun Hlen).
    apply (slot_step_inv _ _ _ _ _ _ (Stdio_step_slot _ _ _ Hstep)); [|done].
    rewrite phases_length. pose proof (Stdio_run_length _ _ _ Hrun). lia.
Qed.

Lemma SSE_run_slots s ls s' :
  SSE.run s ls = Some s' ->
  (Z.of_nat (length (SSE.threads s')) < 2 ^ 64)%Z ->
  slots_inv (SSE.nextID s) (SSE.pending s) (phases (SSE.threads s)) ->
  slots_inv (SSE.nextID s') (SSE.pending s') (phases (SSE.threads s')).
Proof.
  revert s. induction ls as [|l ls IH]; intros s; cbn [SSE.run].
  - by intros [= <-].
  - destruct (SSE.step s l) as [s1|] eqn:Hstep; [|done]. intros Hrun Hlen Hinv.
    apply (IH s1 Hrun Hlen).
    apply (slot_step_inv _ _ _ _ _ _ (SSE_step_slot _ _ _ Hstep)); [|done].
    rewrite phases_length. pose proof (SSE_run_length _ _ _ Hrun). lia.
Qed.

Lemma NewSSEClient_fresh ctx url get c :
  SSE.NewSSEClient ctx url get = Ok c ->
  SSE.nextID c = 0%Z /\ SSE.pending c = ∅ /\ SSE.threads c = [] /\
  SSE.chans c = [] /\ SSE.posts c = [] /\
  SSE.sseURL c = url /\ SSE.postURL c = url /\ SSE.postReady c = true /\
  SSE.readLoop c = Scanning /\ SSE.handshake c = SSE.Polling /\
  SSE.caller_ctx c = ctx /\ SSE.ctx_done c = false /\ SSE.timer_fired c = false.
Proof.
  unfold SSE.NewSSEClient. destruct get as [e | e | status contentType body]; try done.
  destruct (negb (status =? 200)%Z); [done|].
  destruct (negb (Contains contentType "text/event-stream")); [done|].
  intros [= <-]. cbn. done.
Qed.

(** C5.  On a stdio client and on an SSE client, in every state the
    client can reach from its construction, a call of [sendRequest] that
    has returned, with whatever result, has no entry under its id in the
    pending table.  The states are those with fewer than 2^64 calls
    made, so that the id counter has not wrapped around. *)
Theorem sendRequest_removes_slot :
  (forall ls s i t id r,
     Stdio.run Stdio.NewStdioClient ls = Some s ->
     (Z.of_nat (length (Stdio.threads s)) < 2 ^ 64)%Z ->
     Stdio.threads s !! i = Some t ->
     at_pc t = Done id r ->
     Stdio.pending s !! id = None) /\
  (forall ctx url get c ls s i t id r,
     SSE.NewSSEClient ctx url get = Ok c ->
     SSE.run c ls = Some s ->
     (Z.of_nat (length (SSE.threads s)) < 2 ^ 64)%Z ->
     SSE.threads s !! i = Some t ->
     at_pc t = Done id r ->
     SSE.pending s !! id = None).
Proof.
  split.
  - intros ls s i t id r Hrun Hlen Hi Hpc.
    pose proof (Stdio_run_slots _ _ _ Hrun Hlen slots_inv_init) as Hinv.
    apply (slots_inv_finished _ _ _ i id Hinv).
    rewrite (phases_lookup _ _ _ Hi), Hpc. done.
  - intros ctx url get c ls s i t id r Hnew Hrun Hlen Hi Hpc.
    destruct (NewSSEClient_fresh _ _ _ _ Hnew) as (Hn & Hp & Ht & _).
    assert (Hinit : slots_inv (SSE.nextID c) (SSE.pending c) (phases (SSE.threads c)))
      by (rewrite Hn, Hp, Ht; apply slots_inv_init).
    pose proof (SSE_run_slots _ _ _ Hrun Hlen Hinit) as Hinv.
    apply (slots_inv_finished _ _ _ i id Hinv).
    rewrite (phases_lookup _ _ _ Hi), Hpc. done.
Qed.

(** ** The end of the stream of a stdio client *)

Lemma Stdio_run_ind (P : Stdio.state -> Prop) :
  (forall s l s', P s -> Stdio.step s l = Some s' -> P s') ->
  forall ls s s', P s -> Stdio.run s ls = Some s' -> P s'.
Proof.
  intros Hstep ls. induction ls as [|l ls IH]; intros s s' HP; cbn [Stdio.run].
  - by intros [= <-].
  - destruct (Stdio.step s l) as [s1|] eqn:Hs; [|done]. eauto.
Qed.

Lemma Stdio_run_app s ls1 ls2 :
  Stdio.run s (ls1 ++ ls2) = Stdio.run s ls1 ≫= fun s1 => Stdio.run s1 ls2.
Proof.
  revert s. induction ls1 as [|l ls1 IH]; intros s; [done|]. cbn.
  destruct (Stdio.step s l); [apply IH|done].
Qed.

(** In [Hi : <[j := t']> ts !! i = Some t], tell [i = j] from the rest. *)
Ltac thread_cases Hi Hj :=
  match type of Hi with
  | <[?j := _]> _ !! ?i = Some _ =>
      destruct (decide (j = i)) as [->|];
      [rewrite list_lookup_insert_eq in Hi by (by eapply lookup_lt_Some);
       injection Hi as <-; cbn in *
      |rewrite list_lookup_insert_ne in Hi by done]
  end.

Lemma dispatch_not_Returned m msg : dispatch m msg <> Returned.
Proof. unfold dispatch. by repeat case_match. Qed.

(** Once the reader has returned the context of the client is done, and
    the channel of a caller is one of the channels made. *)
Lemma Stdio_reachable ls s :
  Stdio.run Stdio.NewStdioClient ls = Some s ->
  (Stdio.readLoop s = Returned -> Stdio.ctx_done s = true) /\
  (forall i t ch, Stdio.threads s !! i = Some t ->
     pc_chan (at_pc t) = Some ch -> ch < length (Stdio.chans s)).
Proof.
  apply (Stdio_run_ind (fun s =>
    (Stdio.readLoop s = Returned -> Stdio.ctx_done s = true) /\
    (forall i t ch, Stdio.threads s !! i = Some t ->
       pc_chan (at_pc t) = Some ch -> ch < length (Stdio.chans s)))); [|done].
  clear ls s. intros s l s' [Hctx Hch] Hstep.
  destruct l as [method params | j e | j | j err | j c | line | | |];
    cbn [Stdio.step] in Hstep.
  - injection Hstep as <-. cbn. split; [done|].
    intros i t ch [Hi | [_ Hi]]%lookup_app_Some; [eauto|].
    apply list_lookup_singleton_Some in Hi as [_ <-]. done.
  - destruct (Stdio.threads s !! j) as [tj|] eqn:Hj; [|done].
    injection Hstep as <-. cbn. split; [done|].
    intros i t ch Hi. thread_cases Hi Hj; eauto.
  - destruct (Stdio.threads s !! j) as [tj|] eqn:Hj; [|done]. cbn in Hstep.
    destruct (at_pc tj) as [method params | id reqBytes | | | id r |] eqn:Hpc;
      try done; injection Hstep as <-.
    + unfold Stdio.draw_id.
      destruct (Marshal_params params) as [paramsRaw|err];
        [destruct (Marshal _) as [reqBytes|err]|];
        cbn; (split; [done|]); intros i t ch Hi; thread_cases Hi Hj; eauto; done.
    + cbn. split; [done|]. intros i t ch Hi. rewrite length_app. cbn.
      thread_cases Hi Hj.
      * intros [= <-]. lia.
      * intros Hc. specialize (Hch _ _ _ Hi Hc). lia.
    + cbn. split; [done|]. intros i t ch Hi. thread_cases Hi Hj; eauto; done.
  - destruct (Stdio.threads s !! j) as [tj|] eqn:Hj; [|done]. cbn in Hstep.
    destruct (at_pc tj) as [| | id ch0 reqBytes | | |] eqn:Hpc; try done.
    unfold Stdio.write in Hstep. destruct err as [e|].
    + injection Hstep as <-. cbn. split; [done|].
      intros i t ch Hi. thread_cases Hi Hj; eauto; done.
    + destruct (Stdio.stdin_closed s); [done|]. injection Hstep as <-. cbn.
      split; [done|]. intros i t ch Hi. thread_cases Hi Hj; [|eauto].
      intros [= <-]. apply (Hch _ _ _ Hj). by rewrite Hpc.
  - destruct (Stdio.threads s !! j) as [tj|] eqn:Hj; [|done]. cbn in Hstep.
    destruct (at_pc tj) as [| | | id ch0 | |] eqn:Hpc; try done.
    unfold Stdio.select in Hstep.
    destruct (Stdio.chans s !! ch0) as [buffer|]; [|done]. cbn in Hstep.
    destruct (select_wait _ _ _ _ _) as [[r received]|]; [|done]. cbn in Hstep.
    injection Hstep as <-. destruct received; cbn; (split; [done|]);
      intros i t ch Hi; rewrite ?length_insert; thread_cases Hi Hj; eauto; done.
  - destruct (Stdio.readLoop s) eqn:Hr; try done. injection Hstep as <-.
    unfold Stdio.read_line. destruct (Unmarshal line) as [msg|]; cbn.
    + split; [|done]. intros Hr'. by apply dispatch_not_Returned in Hr'.
    + split; [|done]. by rewrite Hr.
  - destruct (Stdio.readLoop s) as [|ch0 msg|]; try done.
    destruct (Stdio.chans s !! ch0) as [[|]|]; try done. injection Hstep as <-.
    cbn. split; [done|]. intros i t ch. rewrite length_insert. eauto.
  - destruct (Stdio.readLoop s); try done. by injection Hstep as <-.
  - by injection Hstep as <-.
Qed.

Lemma late_ok_chans_app chans t x :
  (forall ch, pc_chan (at_pc t) = Some ch -> ch < length chans) ->
  late_ok chans t -> late_ok (chans ++ [x]) t.
Proof.
  unfold late_ok. intros Hlt.
  destruct (at_pc t); try done; intros Hc; by apply lookup_app_l_Some.
Qed.

Lemma late_ok_chans_clear chans t ch :
  late_ok chans t -> late_ok (<[ch := None]> chans) t.
Proof.
  unfold late_ok.
  destruct (at_pc t) as [| | id ch' req | id ch' | |]; try done; intros Hc;
    (destruct (decide (ch = ch')) as [->|];
     [rewrite list_lookup_insert_eq by (by eapply lookup_lt_Some)
     |rewrite list_lookup_insert_ne by done]; done).
Qed.

Lemma late_ok_cancel chans t e :
  late_ok chans t ->
  late_ok chans {| at_pc := at_pc t; ctx_Err := Some (default e (ctx_Err t)) |}.
Proof.
  unfold late_ok, late_result. cbn.
  destruct (at_pc t) as [| | | | id r | id r]; try done;
    (destruct r as [|err]; [done|]);
    intros [Hm | [Hm | [Hw | [Hc | Hc]]]]; eauto 6;
    rewrite Hc; cbn; eauto 6.
Qed.

(** After the reader has returned, a step keeps every later caller
    without a response. *)
Lemma Stdio_late_step n0 s l s' :
  Stdio.readLoop s = Returned ->
  Stdio.ctx_done s = true ->
  (forall i t ch, Stdio.threads s !! i = Some t ->
     pc_chan (at_pc t) = Some ch -> ch < length (Stdio.chans s)) ->
  (forall i t, n0 <= i -> Stdio.threads s !! i = Some t ->
     late_ok (Stdio.chans s) t) ->
  Stdio.step s l = Some s' ->
  Stdio.readLoop s' = Returned /\
  Stdio.ctx_done s' = true /\
  (forall i t, n0 <= i -> Stdio.threads s' !! i = Some t ->
     late_ok (Stdio.chans s') t).
Proof.
  intros Hr Hctx Hch Hlate Hstep.
  destruct l as [method params | j e | j | j err | j c | line | | |];
    cbn [Stdio.step] in Hstep.
  - injection Hstep as <-. cbn. split; [done|]. split; [done|].
    intros i t Hn [Hi | [_ Hi]]%lookup_app_Some; [eauto|].
    apply list_lookup_singleton_Some in Hi as [_ <-]. done.
  - destruct (Stdio.threads s !! j) as [tj|] eqn:Hj; [|done].
    injection Hstep as <-. cbn. split; [done|]. split; [done|].
    intros i t Hn Hi. thread_cases Hi Hj; [|eauto].
    apply late_ok_cancel. eauto.
  - destruct (Stdio.threads s !! j) as [tj|] eqn:Hj; [|done]. cbn in Hstep.
    destruct (at_pc tj) as [method params | id reqBytes | | | id r |] eqn:Hpc;
      try done; injection Hstep as <-.
    + unfold Stdio.draw_id.
      destruct (Marshal_params params) as [paramsRaw|err] eqn:Hm1;
        [destruct (Marshal _) as [reqBytes|err] eqn:Hm2|];
        cbn; (split; [done|]); (split; [done|]);
        intros i t Hn Hi; thread_cases Hi Hj; eauto;
        unfold late_ok, late_result; cbn; eauto.
    + cbn. split; [done|]. split; [done|]. intros i t Hn Hi.
      thread_cases Hi Hj.
      * unfold late_ok. cbn. by rewrite lookup_app_r, Nat.sub_diag.
      * apply late_ok_chans_app; eauto.
    + cbn. split; [done|]. split; [done|]. intros i t Hn Hi.
      thread_cases Hi Hj; [|eauto].
      specialize (Hlate _ _ Hn Hj). unfold late_ok in *.
      rewrite Hpc in Hlate. done.
  - destruct (Stdio.threads s !! j) as [tj|] eqn:Hj; [|done]. cbn in Hstep.
    destruct (at_pc tj) as [| | id ch0 reqBytes | | |] eqn:Hpc; try done.
    unfold Stdio.write in Hstep. destruct err as [e|].
    + injection Hstep as <-. cbn. split; [done|]. split; [done|].
      intros i t Hn Hi. thread_cases Hi Hj; [|eauto].
      unfold late_ok, late_result, write_error. cbn. eauto 6.
    + destruct (Stdio.stdin_closed s); [done|]. injection Hstep as <-. cbn.
      split; [done|]. split; [done|]. intros i t Hn Hi.
      thread_cases Hi Hj; [|eauto].
      specialize (Hlate _ _ Hn Hj). unfold late_ok in *.
      rewrite Hpc in Hlate. done.
  - destruct (Stdio.threads s !! j) as [tj|] eqn:Hj; [|done]. cbn in Hstep.
    destruct (at_pc tj) as [| | | id ch0 | |] eqn:Hpc; try done.
    unfold Stdio.select in Hstep.
    destruct (Stdio.chans s !! ch0) as [buffer|] eqn:Hbuf; [|done]. cbn in Hstep.
    destruct (select_wait _ _ _ _ _) as [[r received]|] eqn:Hsel; [|done].
    cbn in Hstep. injection Hstep as <-.
    assert (Hres : n0 <= j -> late_result tj r).
    { intros Hn. specialize (Hlate _ _ Hn Hj). unfold late_ok in Hlate.
      rewrite Hpc, Hbuf in Hlate. injection Hlate as ->.
      unfold select_wait in Hsel. destruct c.
      - destruct (ctx_Err tj) as [e|] eqn:He; [|done].
        injection Hsel as <- <-. cbn. eauto 6.
      - rewrite Hctx in Hsel. injection Hsel as <- <-. cbn. eauto 6.
      - done. }
    destruct received; cbn; (split; [done|]); (split; [done|]);
      intros i t Hn Hi; thread_cases Hi Hj;
      try (unfold late_ok; cbn; by apply Hres);
      try apply late_ok_chans_clear; eauto.
  - by rewrite Hr in Hstep.
  - by rewrite Hr in Hstep.
  - by rewrite Hr in Hstep.
  - injection Hstep as <-. cbn. eauto.
Qed.

Lemma Stdio_run_snoc s ls l s1 s' :
  Stdio.run s ls = Some s1 -> Stdio.step s1 l = Some s' ->
  Stdio.run s (ls ++ [l]) = Some s'.
Proof.
  intros Hrun Hstep. rewrite Stdio_run_app, Hrun. cbn. by rewrite Hstep.
Qed.

Lemma Stdio_late_run n0 ls' :
  forall ls0 s s',
    Stdio.run Stdio.NewStdioClient ls0 = Some s ->
    Stdio.readLoop s = Returned ->
    (forall i t, n0 <= i -> Stdio.threads s !! i = Some t ->
       late_ok (Stdio.chans s) t) ->
    Stdio.run s ls' = Some s' ->
    forall i t, n0 <= i -> Stdio.threads s' !! i = Some t ->
      late_ok (Stdio.chans s') t.
Proof.
  induction ls' as [|l ls' IH]; intros ls0 s s' Hreach Hr Hlate; cbn [Stdio.run].
  - by intros [= <-].
  - destruct (Stdio.step s l) as [s1|] eqn:Hstep; [|done]. intros Hrun.
    destruct (Stdio_reachable _ _ Hreach) as [Hctx Hch].
    destruct (Stdio_late_step n0 s l s1 Hr (Hctx Hr) Hch Hlate Hstep)
      as (Hr1 & _ & Hlate1).
    exact (IH (ls0 ++ [l]) s1 s' (Stdio_run_snoc _ _ _ _ _ Hreach Hstep)
             Hr1 Hlate1 Hrun).
Qed.

(** Once the context of the client is done, a caller that has not
    returned moves on its own, whatever its write to stdin returns, and
    the move brings it closer to its return. *)
Lemma Stdio_own_step s i t err :
  Stdio.ctx_done s = true ->
  (err = None -> Stdio.stdin_closed s = false) ->
  (forall ch, pc_chan (at_pc t) = Some ch -> ch < length (Stdio.chans s)) ->
  Stdio.threads s !! i = Some t ->
  moves_left (at_pc t) <> 0 ->
  exists l s' t',
    Stdio_own_move i err l /\
    Stdio.step s l = Some s' /\ Stdio.threads s' !! i = Some t' /\
    moves_left (at_pc t') < moves_left (at_pc t) /\
    Stdio.ctx_done s' = true /\
    Stdio.stdin_closed s' = Stdio.stdin_closed s /\
    (forall ch, pc_chan (at_pc t') = Some ch -> ch < length (Stdio.chans s')).
Proof.
  intros Hctx Herr Hch Hi Hleft.
  pose proof (lookup_lt_Some _ _ _ Hi) as Hlt.
  destruct (at_pc t) as [method params | id reqBytes | id ch reqBytes | id ch
                         | id r | id r] eqn:Hpc; [| | | | |done].
  - exists (Stdio.LRun i). cbn [Stdio.step]. rewrite Hi. cbn. rewrite Hpc.
    unfold Stdio.draw_id.
    destruct (Marshal_params params) as [paramsRaw|e];
      [destruct (Marshal _) as [reqBytes|e]|];
      eexists _, _; (split; [by left|]); (split; [done|]); cbn;
      rewrite list_lookup_insert_eq by done; (split; [done|]); cbn;
      (split; [lia|]); done.
  - exists (Stdio.LRun i). cbn [Stdio.step]. rewrite Hi. cbn. rewrite Hpc.
    eexists _, _. split; [by left|]. split; [done|]. cbn.
    rewrite list_lookup_insert_eq by done. split; [done|]. cbn.
    split; [lia|]. split; [done|]. split; [done|].
    intros ch' [= <-]. rewrite length_app. cbn. lia.
  - exists (Stdio.LWrite i err). cbn [Stdio.step]. rewrite Hi. cbn. rewrite Hpc.
    unfold Stdio.write. destruct err as [e|].
    + eexists _, _. split; [by right; left|]. split; [done|]. cbn.
      rewrite list_lookup_insert_eq by done. split; [done|]. cbn.
      split; [lia|]. done.
    + rewrite (Herr eq_refl).
      eexists _, _. split; [by right; left|]. split; [done|]. cbn.
      rewrite list_lookup_insert_eq by done. split; [done|]. cbn.
      split; [lia|]. split; [done|]. split; [done|].
      intros ch' [= <-]. by apply Hch.
  - exists (Stdio.LSelect i CaseClientDone).
    cbn [Stdio.step]. rewrite Hi. cbn. rewrite Hpc. unfold Stdio.select.
    destruct (lookup_lt_is_Some_2 (Stdio.chans s) ch (Hch ch eq_refl)) as [buffer ->].
    cbn. rewrite Hctx. cbn.
    eexists _, _. split; [by right; right|]. split; [done|]. cbn.
    rewrite list_lookup_insert_eq by done. split; [done|]. cbn.
    split; [lia|]. done.
  - exists (Stdio.LRun i). cbn [Stdio.step]. rewrite Hi. cbn. rewrite Hpc.
    eexists _, _. split; [by left|]. split; [done|]. cbn.
    rewrite list_lookup_insert_eq by done. split; [done|]. cbn.
    split; [lia|]. done.
Qed.

(** Every move of a call brings it closer to its return, whatever its
    write returns and whichever case its [select] takes. *)
Lemma Stdio_move_closer s i t l s' :
  Stdio.threads s !! i = Some t ->
  l = Stdio.LRun i \/ (exists err, l = Stdio.LWrite i err)
  \/ (exists c, l = Stdio.LSelect i c) ->
  Stdio.step s l = Some s' ->
  exists t',
    Stdio.threads s' !! i = Some t' /\
    moves_left (at_pc t') < moves_left (at_pc t).
Proof.
  intros Hi Hl Hstep. pose proof (lookup_lt_Some _ _ _ Hi) as Hlt.
  destruct Hl as [-> | [[err ->] | [c ->]]];
    cbn [Stdio.step] in Hstep; rewrite Hi in Hstep; cbn in Hstep.
  - destruct (at_pc t) as [method params | id reqBytes | | | id r |] eqn:Hpc;
      try done; injection Hstep as <-.
    + unfold Stdio.draw_id.
      destruct (Marshal_params params) as [paramsRaw|e];
        [destruct (Marshal _) as [reqBytes|e]|];
        cbn; rewrite list_lookup_insert_eq by done;
        (eexists; split; [done|]); cbn; lia.
    + cbn. rewrite list_lookup_insert_eq by done.
      eexists. split; [done|]. cbn. lia.
    + cbn. rewrite list_lookup_insert_eq by done.
      eexists. split; [done|]. cbn. lia.
  - destruct (at_pc t) as [| | id ch reqBytes | | |] eqn:Hpc; try done.
    unfold Stdio.write in Hstep.
    destruct err as [e|]; [|destruct (Stdio.stdin_closed s); [done|]];
      injection Hstep as <-; cbn; rewrite list_lookup_insert_eq by done;
      (eexists; split; [done|]); cbn; lia.
  - destruct (at_pc t) as [| | | id ch | |] eqn:Hpc; try done.
    unfold Stdio.select in Hstep.
    destruct (Stdio.chans s !! ch) as [buffer|]; [|done]. cbn in Hstep.
    destruct (select_wait _ _ _ _ _) as [[r received]|]; [|done]. cbn in Hstep.
    injection Hstep as <-.
    destruct received; cbn; rewrite list_lookup_insert_eq by done;
      (eexists; split; [done|]); cbn; lia.
Qed.

(** So it returns, in as many moves of its own as it has left. *)
Lemma Stdio_finishes n :
  forall s i t err,
    moves_left (at_pc t) <= n ->
    Stdio.ctx_done s = true ->
    (err = None -> Stdio.stdin_closed s = false) ->
    (forall ch, pc_chan (at_pc t) = Some ch -> ch < length (Stdio.chans s)) ->
    Stdio.threads s !! i = Some t ->
    exists ls' s' id r,
      Forall (Stdio_own_move i err) ls' /\
      length ls' <= moves_left (at_pc t) /\
      Stdio.run s ls' = Some s' /\
      exists t', Stdio.threads s' !! i = Some t' /\ at_pc t' = Done id r.
Proof.
  induction n as [|n IH]; intros s i t err Hn Hctx Herr Hch Hi.
  - destruct (at_pc t) as [| | | | |id r] eqn:Hpc; cbn in Hn; try lia.
    exists [], s, id, r. split; [constructor|]. split; [cbn; lia|].
    split; [done|]. eauto.
  - destruct (decide (moves_left (at_pc t) = 0)) as [Hz|Hnz].
    { destruct (at_pc t) as [| | | | |id r] eqn:Hpc; cbn in Hz; try lia.
      exists [], s, id, r. split; [constructor|]. split; [cbn; lia|].
      split; [done|]. eauto. }
    destruct (Stdio_own_step s i t err Hctx Herr Hch Hi Hnz)
      as (l & s1 & t1 & Hown & Hstep & Hi1 & Hlt & Hctx1 & Hclosed & Hch1).
    destruct (IH s1 i t1 err ltac:(lia) Hctx1
                ltac:(intros He; rewrite Hclosed; by apply Herr) Hch1 Hi1)
      as (ls1 & s' & id & r & Hall & Hlen & Hrun & Hdone).
    exists (l :: ls1), s', id, r.
    split; [by constructor|]. split; [cbn; lia|].
    split; [|done]. cbn [Stdio.run]. by rewrite Hstep.
Qed.

(** C7, as the code has it.  Once the reader of a stdio client has
    returned at the end of the stream, in every state the client can
    reach:
    - the context of the client is done;
    - a call that waits for its response can return at once with the
      error for the closed client;
    - a call waits for nothing but its own write to stdin: whatever that
      write returns (it does not succeed on a pipe that [Close] has
      closed), the call returns in moves of its own, at most as many as
      it has left, and no other goroutine has to move.  Whether the write
      itself returns is the pipe's matter;
    - every move of a call, whatever its write returns and whichever
      ready case its [select] takes, brings it closer to its return;
    - a call made afterwards that has returned has not returned a
      response: it has returned the error of the marshalling, of the
      write, of the caller's context, or the error for the closed
      client. *)
Theorem stdout_EOF_unblocks_requests ls s :
  Stdio.run Stdio.NewStdioClient ls = Some s ->
  Stdio.readLoop s = Returned ->
  Stdio.ctx_done s = true /\
  (forall i t id ch,
     Stdio.threads s !! i = Some t -> at_pc t = AtSelect id ch ->
     exists s',
       Stdio.step s (Stdio.LSelect i CaseClientDone) = Some s' /\
       Stdio.threads s' !! i = Some (move t (AtDefer id (Err Stdio.closed)))) /\
  (forall i t err,
     Stdio.threads s !! i = Some t ->
     (err = None -> Stdio.stdin_closed s = false) ->
     exists ls' s' id r,
       Forall (Stdio_own_move i err) ls' /\
       length ls' <= moves_left (at_pc t) /\
       Stdio.run s ls' = Some s' /\
       exists t', Stdio.threads s' !! i = Some t' /\ at_pc t' = Done id r) /\
  (forall i t l s',
     Stdio.threads s !! i = Some t ->
     l = Stdio.LRun i \/ (exists err, l = Stdio.LWrite i err)
     \/ (exists c, l = Stdio.LSelect i c) ->
     Stdio.step s l = Some s' ->
     exists t',
       Stdio.threads s' !! i = Some t' /\
       moves_left (at_pc t') < moves_left (at_pc t)) /\
  (forall ls' s' i t id r,
     Stdio.run s ls' = Some s' ->
     length (Stdio.threads s) <= i ->
     Stdio.threads s' !! i = Some t ->
     at_pc t = Done id r ->
     late_result t r).
Proof.
  intros Hreach Hr. destruct (Stdio_reachable _ _ Hreach) as [Hctx Hch].
  specialize (Hctx Hr). split; [done|]. split; [|split; [|split]].
  - intros i t id ch Hi Hpc.
    pose proof (lookup_lt_Some _ _ _ Hi) as Hlt.
    assert (Hlen : ch < length (Stdio.chans s))
      by (apply (Hch i t); [done|by rewrite Hpc]).
    destruct (lookup_lt_is_Some_2 _ _ Hlen) as [buffer Hbuf].
    cbn [Stdio.step]. rewrite Hi. cbn. rewrite Hpc. unfold Stdio.select.
    rewrite Hbuf. cbn. rewrite Hctx. cbn.
    eexists. split; [done|]. cbn. by rewrite list_lookup_insert_eq.
  - intros i t err Hi Herr.
    apply (Stdio_finishes (moves_left (at_pc t))); [done|done|done| |done].
    intros ch. by apply (Hch i t).
  - intros i t l s'. apply Stdio_move_closer.
  - intros ls' s' i t id r Hrun Hn Hi Hpc.
    assert (Hlate : late_ok (Stdio.chans s') t).
    { refine (Stdio_late_run (length (Stdio.threads s)) ls' ls s s'
                Hreach Hr _ Hrun i t Hn Hi).
      intros j tj Hj Hjt. apply lookup_lt_Some in Hjt. lia. }
    unfold late_ok in Hlate. by rewrite Hpc in Hlate.
Qed.

(** ** The handshake of an SSE client *)

Lemma SSE_run_ind (P : SSE.state -> Prop) (Q : SSE.label -> Prop) :
  (forall s l s', P s -> Q l -> SSE.step s l = Some s' -> P s') ->
  forall ls s s', P s -> Forall Q ls -> SSE.run s ls = Some s' -> P s'.
Proof.
  intros Hstep ls. induction ls as [|l ls IH]; intros s s' HP HQ; cbn [SSE.run].
  - by intros [= <-].
  - destruct (SSE.step s l) as [s1|] eqn:Hs; [|done].
    apply Forall_cons in HQ as [Hl HQ]. eauto.
Qed.

(** The moves of a caller and of the callers of [Close] leave the
    handshake, the address to post to and the reader's event alone. *)
Ltac sse_fields :=
  repeat match goal with
    | |- context [if ?b then _ else _] => destruct b
    | |- context [match ?x with Some _ => _ | None => _ end] => destruct x
    | |- context [match ?x with Ok _ => _ | Err _ => _ end] => destruct x
    end; cbn; eauto 10.

(** From the construction on, [postReady] is closed and the timer of the
    handshake has not fired; the handshake polls, has returned the
    client, or has failed on the caller's context. *)
Lemma SSE_handshake_inv ctx url get c ls s :
  SSE.NewSSEClient ctx url get = Ok c ->
  SSE.run c ls = Some s ->
  SSE.postReady s = true /\
  SSE.timer_fired s = false /\
  (SSE.handshake s = SSE.Polling \/ SSE.handshake s = SSE.Ready \/
   (SSE.handshake s = SSE.Failed SSE.caller_done_error /\
    is_Some (SSE.caller_ctx s))).
Proof.
  intros Hnew Hrun.
  destruct (NewSSEClient_fresh _ _ _ _ Hnew)
    as (_ & _ & _ & _ & _ & _ & _ & Hready & _ & Hpoll & _ & _ & Htimer).
  refine (SSE_run_ind (fun s =>
    SSE.postReady s = true /\ SSE.timer_fired s = false /\
    (SSE.handshake s = SSE.Polling \/ SSE.handshake s = SSE.Ready \/
     (SSE.handshake s = SSE.Failed SSE.caller_done_error /\
      is_Some (SSE.caller_ctx s)))) (fun _ => True) _ ls c s _ _ Hrun);
    [|by auto|by apply Forall_true].
  clear. intros s l s' (Hready & Htimer & Hhs) _ Hstep.
  destruct l as [c | | e | method params | i e | i | i a | i c | line | | |];
    cbn [SSE.step] in Hstep.
  - unfold SSE.select_handshake in Hstep. rewrite Hready in Hstep. cbn in Hstep.
    destruct Hhs as [Hhs | [Hhs | [Hhs _]]]; rewrite Hhs in Hstep; [|done..].
    destruct c; [| done |].
    + injection Hstep as <-. cbn. eauto 10.
    + destruct (bool_decide (is_Some (SSE.caller_ctx s))) eqn:Hc; [|done].
      injection Hstep as <-. cbn. apply bool_decide_eq_true_1 in Hc. eauto 10.
  - destruct Hhs as [Hhs | [Hhs | [Hhs _]]]; by rewrite Hhs in Hstep.
  - injection Hstep as <-. cbn. split; [done|]. split; [done|].
    destruct Hhs as [Hhs | [Hhs | [Hhs _]]]; eauto 10.
  - destruct (SSE.handshake s); try done. injection Hstep as <-. cbn. eauto 10.
  - destruct (SSE.threads s !! i) as [t|]; [|done]. injection Hstep as <-. eauto 10.
  - destruct (SSE.threads s !! i) as [t|]; [|done]. cbn in Hstep.
    destruct (at_pc t); try done; injection Hstep as <-; cbn; eauto 10.
  - destruct (SSE.threads s !! i) as [t|]; [|done]. cbn in Hstep.
    destruct (at_pc t); try done; injection Hstep as <-.
    unfold SSE.post. destruct a; sse_fields.
  - destruct (SSE.threads s !! i) as [t|]; [|done]. cbn in Hstep.
    destruct (at_pc t) as [| | | id ch | |]; try done. unfold SSE.select in Hstep.
    destruct (SSE.chans s !! ch); [|done]. cbn in Hstep.
    destruct (select_wait _ _ _ _ _) as [[r []]|]; [| |done];
      injection Hstep as <-; cbn; eauto 10.
  - destruct (SSE.readLoop s); try done. injection Hstep as <-.
    unfold SSE.read_line, SSE.handleMessage, SSE.resolvePostURL. sse_fields.
  - destruct (SSE.readLoop s) as [|ch msg|]; try done.
    destruct (SSE.chans s !! ch) as [[|]|]; try done. injection Hstep as <-. eauto 10.
  - destruct (SSE.readLoop s); try done. injection Hstep as <-. eauto 10.
  - destruct (SSE.handshake s) eqn:Hh; try done. injection Hstep as <-. cbn.
    rewrite Hh. eauto 10.
Qed.

Lemma read_line_comment line s : comment_line line -> SSE.read_line line s = s.
Proof.
  intros (Hne & Hev & Hdata). unfold SSE.read_line.
  rewrite decide_False by done. by rewrite Hev, Hdata.
Qed.

(** As long as the server sends no event, the address to post to is the
    address of the stream, and every request was posted to it. *)
Lemma SSE_quiet_inv ctx url get c ls s :
  SSE.NewSSEClient ctx url get = Ok c ->
  SSE.run c ls = Some s ->
  Forall quiet ls ->
  SSE.postURL s = url /\ Forall (fun p => fst p = url) (SSE.posts s).
Proof.
  intros Hnew Hrun Hquiet.
  destruct (NewSSEClient_fresh _ _ _ _ Hnew)
    as (_ & _ & _ & _ & Hposts & _ & Hurl & _).
  refine (SSE_run_ind (fun s =>
    SSE.postURL s = url /\ Forall (fun p => fst p = url) (SSE.posts s))
    quiet _ ls c s _ Hquiet Hrun); [|by rewrite Hposts, Hurl].
  clear. intros s l s' (Hurl & Hposts) Hq Hstep.
  destruct l as [c | | e | method params | i e | i | i a | i c | line | | |];
    cbn [SSE.step] in Hstep.
  - unfold SSE.select_handshake in Hstep.
    destruct (SSE.handshake s); try done;
      repeat (match goal with
              | H : context [if ?b then _ else _] |- _ => destruct b
              | H : context [match ?c with SSE.CasePostReady => _ | _ => _ end] |- _ =>
                  destruct c
              end; try done);
      by injection Hstep as <-.
  - destruct (SSE.handshake s); try done. by injection Hstep as <-.
  - by injection Hstep as <-.
  - destruct (SSE.handshake s); try done. by injection Hstep as <-.
  - destruct (SSE.threads s !! i) as [t|]; [|done]. by injection Hstep as <-.
  - destruct (SSE.threads s !! i) as [t|]; [|done]. cbn in Hstep.
    destruct (at_pc t); try done; by injection Hstep as <-.
  - destruct (SSE.threads s !! i) as [t|]; [|done]. cbn in Hstep.
    destruct (at_pc t); try done; injection Hstep as <-.
    unfold SSE.post.
    destruct a as [e | e | code body]; [| |destruct (_ && _)]; cbn;
      (split; [done|]); try done;
      (apply Forall_app; split; [done|]); by apply Forall_singleton.
  - destruct (SSE.threads s !! i) as [t|]; [|done]. cbn in Hstep.
    destruct (at_pc t) as [| | | id ch | |]; try done. unfold SSE.select in Hstep.
    destruct (SSE.chans s !! ch); [|done]. cbn in Hstep.
    destruct (select_wait _ _ _ _ _) as [[r []]|]; [| |done];
      by injection Hstep as <-.
  - destruct (SSE.readLoop s); try done. injection Hstep as <-.
    by rewrite read_line_comment.
  - destruct (SSE.readLoop s) as [|ch msg|]; try done.
    destruct (SSE.chans s !! ch) as [[|]|]; try done. by injection Hstep as <-.
  - destruct (SSE.readLoop s); try done. by injection Hstep as <-.
  - destruct (SSE.handshake s); try done. by injection Hstep as <-.
Qed.

(** C2, what the code does.  [NewSSEClient] closes [postReady] before it
    waits on it.  So, with the stream opened and whatever the server
    sends or does not send on it (here: no event at all), the final
    [select] never waits and never takes its timeout case: when it polls
    its cases the case of [postReady] is ready and returns the client,
    with the address of the stream as the address to post to; and when
    the caller's context is alive the call does not fail at all. *)
Theorem NewSSEClient_never_times_out ctx url get c ls s :
  SSE.NewSSEClient ctx url get = Ok c ->
  SSE.run c ls = Some s ->
  Forall quiet ls ->
  SSE.handshake s <> SSE.Waiting /\
  SSE.handshake s <> SSE.Failed SSE.timeout_error /\
  SSE.step s (SSE.LHandshake SSE.CaseTimeout) = None /\
  (SSE.handshake s = SSE.Polling ->
     exists s',
       SSE.step s (SSE.LHandshake SSE.CasePostReady) = Some s' /\
       SSE.handshake s' = SSE.Ready /\ SSE.postURL s' = url) /\
  (SSE.caller_ctx s = None ->
     SSE.handshake s = SSE.Polling \/ SSE.handshake s = SSE.Ready).
Proof.
  intros Hnew Hrun Hquiet.
  destruct (SSE_handshake_inv _ _ _ _ _ _ Hnew Hrun) as (Hready & Htimer & Hhs).
  destruct (SSE_quiet_inv _ _ _ _ _ _ Hnew Hrun Hquiet) as [Hurl _].
  split; [|split; [|split; [|split]]].
  - destruct Hhs as [-> | [-> | [-> _]]]; done.
  - destruct Hhs as [-> | [-> | [-> _]]]; done.
  - cbn. unfold SSE.select_handshake. rewrite Hready.
    destruct Hhs as [-> | [-> | [-> _]]]; done.
  - intros Hpoll. cbn. unfold SSE.select_handshake. rewrite Hpoll, Hready. cbn.
    eexists. split; [done|]. cbn. done.
  - intros Hctx. destruct Hhs as [Hhs | [Hhs | [_ [e He]]]]; [auto..|congruence].
Qed.

(** C1, what the code does.  A call is possible once the client is
    returned, which does not wait for the endpoint event.  As long as no
    event has come from the server, a call of [sendRequest] goes through
    its steps up to the POST without waiting, the POST goes to the
    address of the stream itself, which is where every request so far
    went. *)
Theorem sendRequest_posts_before_endpoint ctx url get c ls s i t :
  SSE.NewSSEClient ctx url get = Ok c ->
  SSE.run c ls = Some s ->
  Forall quiet ls ->
  SSE.threads s !! i = Some t ->
  SSE.postURL s = url /\
  Forall (fun p => fst p = url) (SSE.posts s) /\
  (forall method params, at_pc t = AtStart method params ->
     is_Some (SSE.step s (SSE.LRun i))) /\
  (forall id reqBytes, at_pc t = AtInstall id reqBytes ->
     is_Some (SSE.step s (SSE.LRun i))) /\
  (forall id ch reqBytes code body, at_pc t = AtSend id ch reqBytes ->
     exists s',
       SSE.step s (SSE.LPost i (SSE.Status code body)) = Some s' /\
       SSE.posts s' = SSE.posts s ++ [(url, reqBytes)]).
Proof.
  intros Hnew Hrun Hquiet Hi.
  destruct (SSE_quiet_inv _ _ _ _ _ _ Hnew Hrun Hquiet) as [Hurl Hposts].
  split; [done|]. split; [done|]. split; [|split].
  - intros method params Hpc. cbn. rewrite Hi. cbn. by rewrite Hpc.
  - intros id reqBytes Hpc. cbn. rewrite Hi. cbn. by rewrite Hpc.
  - intros id ch reqBytes code body Hpc. cbn. rewrite Hi. cbn. rewrite Hpc.
    eexists. split; [done|]. unfold SSE.post.
    destruct (_ && _); cbn; by rewrite Hurl.
Qed.

End ClientProperties.

(** ** The clients on the small wire format *)

Lemma comment_line_keep_alive : comment_line ": keep-alive".
Proof. split; [by vm_compute|]. split; vm_compute; reflexivity. Qed.

Lemma demo_sse_race_quiet : Forall quiet demo_sse_race.
Proof.
  unfold demo_sse_race.
  constructor; [exact comment_line_keep_alive|].
  repeat (constructor; [exact I|]). constructor.
Qed.

(** Scenario "SSE endpoint race", as the code runs it: [initialize] is
    posted to the address of the stream before the endpoint event
    arrives; the endpoint announced later is another address. *)
Example sse_endpoint_race :
  SSE.posts (sse_after demo_sse_call) = [("http://mcp.example/sse", "1 initialize {}")] /\
  SSE.postURL (sse_after demo_sse_call) = "http://mcp.example/rpc".
Proof. split; vm_compute; reflexivity. Qed.

Ltac computed := vm_compute; reflexivity.

Lemma sendRequest_posts_before_endpoint_witness :
  @SSE.NewSSEClient None demo_sse_url demo_stream = Ok demo_sse_client /\
  @SSE.run demo_libraries demo_sse_client demo_sse_race = Some (sse_after demo_sse_race) /\
  Forall quiet demo_sse_race /\
  SSE.threads (sse_after demo_sse_race) !! 0%nat =
    Some {| at_pc := AtSend "1" 0 "1 initialize {}"; ctx_Err := None |} /\
  SSE.postURL (sse_after demo_sse_race) = demo_sse_url /\
  exists s',
    @SSE.step demo_libraries (sse_after demo_sse_race) (SSE.LPost 0 (SSE.Status 202 ""))
      = Some s' /\
    SSE.posts s' = SSE.posts (sse_after demo_sse_race) ++ [(demo_sse_url, "1 initialize {}")].
Proof.
  assert (Hnew : @SSE.NewSSEClient None demo_sse_url demo_stream = Ok demo_sse_client)
    by computed.
  assert (Hrun : @SSE.run demo_libraries demo_sse_client demo_sse_race
                 = Some (sse_after demo_sse_race)) by computed.
  assert (Ht : SSE.threads (sse_after demo_sse_race) !! 0%nat =
               Some {| at_pc := AtSend "1" 0 "1 initialize {}"; ctx_Err := None |})
    by computed.
  pose proof (@sendRequest_posts_before_endpoint demo_libraries None demo_sse_url
                demo_stream demo_sse_client demo_sse_race (sse_after demo_sse_race) 0%nat
                {| at_pc := AtSend "1" 0 "1 initialize {}"; ctx_Err := None |}
                Hnew Hrun demo_sse_race_quiet Ht)
    as (Hurl & _ & _ & _ & Hpost).
  split; [exact Hnew|]. split; [exact Hrun|]. split; [exact demo_sse_race_quiet|].
  split; [exact Ht|]. split; [exact Hurl|].
  exact (Hpost "1" 0%nat "1 initialize {}" 202%Z "" eq_refl).
Defined.

Lemma NewSSEClient_never_times_out_witness :
  @SSE.NewSSEClient None demo_sse_url demo_stream = Ok demo_sse_client /\
  @SSE.run demo_libraries demo_sse_client [SSE.LRead ": keep-alive"]
    = Some (sse_after [SSE.LRead ": keep-alive"]) /\
  Forall quiet [SSE.LRead ": keep-alive"] /\
  SSE.handshake (sse_after [SSE.LRead ": keep-alive"]) = SSE.Polling /\
  @SSE.step demo_libraries (sse_after [SSE.LRead ": keep-alive"])
    (SSE.LHandshake SSE.CaseTimeout) = None /\
  exists s',
    @SSE.step demo_libraries (sse_after [SSE.LRead ": keep-alive"])
      (SSE.LHandshake SSE.CasePostReady) = Some s' /\
    SSE.handshake s' = SSE.Ready /\ SSE.postURL s' = demo_sse_url.
Proof.
  assert (Hnew : @SSE.NewSSEClient None demo_sse_url demo_stream = Ok demo_sse_client)
    by computed.
  assert (Hrun : @SSE.run demo_libraries demo_sse_client [SSE.LRead ": keep-alive"]
                 = Some (sse_after [SSE.LRead ": keep-alive"])) by computed.
  assert (Hq : Forall quiet [SSE.LRead ": keep-alive"])
    by (constructor; [exact comment_line_keep_alive|constructor]).
  assert (Hpolling : SSE.handshake (sse_after [SSE.LRead ": keep-alive"]) = SSE.Polling)
    by computed.
  pose proof (@NewSSEClient_never_times_out demo_libraries None demo_sse_url
                demo_stream demo_sse_client [SSE.LRead ": keep-alive"]
                (sse_after [SSE.LRead ": keep-alive"]) Hnew Hrun Hq)
    as (_ & _ & Htimeout & Hpoll & _).
  split; [exact Hnew|]. split; [exact Hrun|]. split; [exact Hq|].
  split; [exact Hpolling|]. split; [exact Htimeout|]. exact (Hpoll Hpolling).
Defined.

(** The four failing exits of [sendRequest] on a stdio client: an error
    response, a failed write, the caller's context, the closed client.
    Each leaves no slot behind. *)
Example sendRequest_exit_paths :
  stdio_outcome (demo_stdio_sent ++
     [Stdio.LWrite 0 None; Stdio.LRead "1 error boom"; Stdio.LDeliver;
      Stdio.LSelect 0 CaseResponse; Stdio.LRun 0])
    = (Some "rpc error -32000: boom", None) /\
  stdio_outcome (demo_stdio_sent ++
     [Stdio.LWrite 0 (Some (EOTHER "broken pipe")); Stdio.LRun 0])
    = (Some "failed to write request: write |1: broken pipe", None) /\
  stdio_outcome (demo_stdio_sent ++
     [Stdio.LWrite 0 None; Stdio.LCancel 0 Canceled;
      Stdio.LSelect 0 CaseCtxDone; Stdio.LRun 0])
    = (Some "context canceled", None) /\
  stdio_outcome (demo_stdio_sent ++
     [Stdio.LWrite 0 None; Stdio.LClose; Stdio.LSelect 0 CaseClientDone;
      Stdio.LRun 0])
    = (Some "client closed while waiting for response", None).
Proof. repeat split; computed. Qed.

Lemma sendRequest_removes_slot_witness :
  @Stdio.run demo_libraries Stdio.NewStdioClient demo_stdio_call
    = Some (stdio_after demo_stdio_call) /\
  (Z.of_nat (length (Stdio.threads (stdio_after demo_stdio_call))) < 2 ^ 64)%Z /\
  Stdio.threads (stdio_after demo_stdio_call) !! 0%nat =
    Some {| at_pc := Done "1" (Ok {| JSONRPC := "2.0"; ID := Some "1"; Method := "";
                                     Params := ""; Result := "{}";
                                     msg_Error := None |});
            ctx_Err := None |} /\
  Stdio.pending (stdio_after demo_stdio_call) !! "1" = None /\
  @SSE.NewSSEClient None demo_sse_url demo_stream = Ok demo_sse_client /\
  @SSE.run demo_libraries demo_sse_client demo_sse_call = Some (sse_after demo_sse_call) /\
  (Z.of_nat (length (SSE.threads (sse_after demo_sse_call))) < 2 ^ 64)%Z /\
  SSE.threads (sse_after demo_sse_call) !! 0%nat =
    Some {| at_pc := Done "1" (Ok {| JSONRPC := "2.0"; ID := Some "1"; Method := "";
                                     Params := ""; Result := "{}";
                                     msg_Error := None |});
            ctx_Err := None |} /\
  SSE.pending (sse_after demo_sse_call) !! "1" = None.
Proof.
  assert (Hrun1 : @Stdio.run demo_libraries Stdio.NewStdioClient demo_stdio_call
                  = Some (stdio_after demo_stdio_call)) by computed.
  assert (Hlen1 : (Z.of_nat (length (Stdio.threads (stdio_after demo_stdio_call)))
                   < 2 ^ 64)%Z) by computed.
  assert (Ht1 : Stdio.threads (stdio_after demo_stdio_call) !! 0%nat =
    Some {| at_pc := Done "1" (Ok {| JSONRPC := "2.0"; ID := Some "1"; Method := "";
                                     Params := ""; Result := "{}";
                                     msg_Error := None |});
            ctx_Err := None |}) by computed.
  assert (Hnew : @SSE.NewSSEClient None demo_sse_url demo_stream = Ok demo_sse_client)
    by computed.
  assert (Hrun2 : @SSE.run demo_libraries demo_sse_client demo_sse_call
                  = Some (sse_after demo_sse_call)) by computed.
  assert (Hlen2 : (Z.of_nat (length (SSE.threads (sse_after demo_sse_call)))
                   < 2 ^ 64)%Z) by computed.
  assert (Ht2 : SSE.threads (sse_after demo_sse_call) !! 0%nat =
    Some {| at_pc := Done "1" (Ok {| JSONRPC := "2.0"; ID := Some "1"; Method := "";
                                     Params := ""; Result := "{}";
                                     msg_Error := None |});
            ctx_Err := None |}) by computed.
  destruct (@sendRequest_removes_slot demo_libraries) as [Hstdio Hsse].
  split; [exact Hrun1|]. split; [exact Hlen1|]. split; [exact Ht1|].
  split; [exact (Hstdio _ _ 0%nat _ "1" _ Hrun1 Hlen1 Ht1 eq_refl)|].
  split; [exact Hnew|]. split; [exact Hrun2|]. split; [exact Hlen2|].
  split; [exact Ht2|].
  exact (Hsse _ _ _ _ _ _ 0%nat _ "1" _ Hnew Hrun2 Hlen2 Ht2 eq_refl).
Defined.

(** C7 as stated fails: after the end of the stream a call whose write
    fails on the broken pipe returns the error of the write, which is not
    the error for the closed client. *)
Lemma stdout_EOF_counterexample :
  @Stdio.run demo_libraries Stdio.NewStdioClient (demo_stdio_waiting ++ demo_stdio_late)
    = Some (stdio_after (demo_stdio_waiting ++ demo_stdio_late)) /\
  Stdio.readLoop (stdio_after demo_stdio_waiting) = Returned /\
  length (Stdio.threads (stdio_after demo_stdio_waiting)) = 1%nat /\
  Stdio.threads (stdio_after (demo_stdio_waiting ++ demo_stdio_late)) !! 1%nat =
    Some {| at_pc := Done "2" (Err (write_error (EOTHER "broken pipe")));
            ctx_Err := None |} /\
  Error (write_error (EOTHER "broken pipe"))
    = "failed to write request: write |1: broken pipe" /\
  write_error (EOTHER "broken pipe") <> Stdio.closed /\
  Contains (Error (write_error (EOTHER "broken pipe"))) "closed" = false.
Proof.
  split; [computed|]. split; [computed|]. split; [computed|].
  split; [computed|]. split; [computed|]. split; [by vm_compute|computed].
Qed.

Lemma stdout_EOF_unblocks_requests_witness :
  @Stdio.run demo_libraries Stdio.NewStdioClient demo_stdio_waiting
    = Some (stdio_after demo_stdio_waiting) /\
  Stdio.readLoop (stdio_after demo_stdio_waiting) = Returned /\
  Stdio.ctx_done (stdio_after demo_stdio_waiting) = true /\
  Stdio.threads (stdio_after demo_stdio_waiting) !! 0%nat =
    Some {| at_pc := AtSelect "1" 0; ctx_Err := None |} /\
  (exists s',
     @Stdio.step demo_libraries (stdio_after demo_stdio_waiting)
       (Stdio.LSelect 0 CaseClientDone) = Some s' /\
     Stdio.threads s' !! 0%nat =
       Some {| at_pc := AtDefer "1" (Err Stdio.closed); ctx_Err := None |}) /\
  (exists ls' s' id r,
     Forall (Stdio_own_move 0 (Some (EOTHER "broken pipe"))) ls' /\
     length ls' <= 2 /\
     @Stdio.run demo_libraries (stdio_after demo_stdio_waiting) ls' = Some s' /\
     exists t', Stdio.threads s' !! 0%nat = Some t' /\ at_pc t' = Done id r) /\
  @Stdio.run demo_libraries (stdio_after demo_stdio_waiting) demo_stdio_late
    = Some (stdio_after (demo_stdio_waiting ++ demo_stdio_late)) /\
  Stdio.threads (stdio_after (demo_stdio_waiting ++ demo_stdio_late)) !! 1%nat =
    Some {| at_pc := Done "2" (Err (write_error (EOTHER "broken pipe")));
            ctx_Err := None |} /\
  @late_result demo_libraries
    {| at_pc := Done "2" (Err (write_error (EOTHER "broken pipe"))); ctx_Err := None |}
    (Err (write_error (EOTHER "broken pipe"))).
Proof.
  assert (Hrun : @Stdio.run demo_libraries Stdio.NewStdioClient demo_stdio_waiting
                 = Some (stdio_after demo_stdio_waiting)) by computed.
  assert (Hr : Stdio.readLoop (stdio_after demo_stdio_waiting) = Returned) by computed.
  assert (Ht : Stdio.threads (stdio_after demo_stdio_waiting) !! 0%nat =
               Some {| at_pc := AtSelect "1" 0; ctx_Err := None |}) by computed.
  assert (Hrun' : @Stdio.run demo_libraries (stdio_after demo_stdio_waiting)
                    demo_stdio_late
                  = Some (stdio_after (demo_stdio_waiting ++ demo_stdio_late)))
    by computed.
  assert (Hlen : length (Stdio.threads (stdio_after demo_stdio_waiting)) <= 1)
    by (vm_compute; constructor).
  assert (Ht' : Stdio.threads (stdio_after (demo_stdio_waiting ++ demo_stdio_late))
                  !! 1%nat =
                Some {| at_pc := Done "2" (Err (write_error (EOTHER "broken pipe")));
                        ctx_Err := None |}) by computed.
  pose proof (@stdout_EOF_unblocks_requests demo_libraries demo_stdio_waiting
                (stdio_after demo_stdio_waiting) Hrun Hr)
    as (Hctx & Hwait & Hown & _ & Hlate).
  split; [exact Hrun|]. split; [exact Hr|]. split; [exact Hctx|].
  split; [exact Ht|].
  split; [exact (Hwait 0%nat _ "1" 0%nat Ht eq_refl)|].
  split; [exact (Hown 0%nat _ (Some (EOTHER "broken pipe")) Ht
                   ltac:(discriminate))|].
  split; [exact Hrun'|]. split; [exact Ht'|].
  exact (Hlate demo_stdio_late _ 1%nat _ "2" _ Hrun' Hlen Ht' eq_refl).
Defined.

(** ** What [isWithinWorkspace] accepts

    For absolute paths, a candidate that [isWithinWorkspace] accepts has
    the elements of the workspace as its first elements. *)

(** An element of a cleaned absolute path: a name. *)
Local Abbreviation plain :=
  (fun e : string => e <> "" /\ e <> "." /\ e <> ".." /\ has_slash e = false).

Lemma split_slash_no_slash s : Forall (fun e => has_slash e = false) (split_slash s).
Proof.
  induction s as [|c s IH]; [by repeat constructor|]. cbn [split_slash].
  destruct (decide (c = slash)) as [->|Hc]; [by constructor|].
  destruct (split_slash s) as [|e es]; [repeat constructor|].
  - cbn. by rewrite bool_decide_eq_false_2.
  - apply Forall_cons in IH as [He Hes]. constructor; [|done].
    cbn. by rewrite bool_decide_eq_false_2, He.
Qed.

Lemma split_slash_name e : has_slash e = false -> split_slash e = [e].
Proof.
  induction e as [|c e IH]; [done|]. cbn [has_slash split_slash].
  intros [Hc He]%orb_false_iff. apply bool_decide_eq_false_1 in Hc.
  rewrite decide_False by done. by rewrite (IH He).
Qed.

Lemma split_slash_name_slash e s :
  has_slash e = false -> split_slash (e +:+ String slash s) = e :: split_slash s.
Proof.
  induction e as [|c e IH].
  - intros _. rewrite append_nil_l. cbn [split_slash]. by rewrite decide_True.
  - cbn [has_slash]. intros [Hc He]%orb_false_iff.
    apply bool_decide_eq_false_1 in Hc.
    rewrite append_cons. cbn [split_slash]. rewrite decide_False by done.
    by rewrite (IH He).
Qed.

Lemma split_join_plain es :
  es <> [] -> Forall plain es -> split_slash (join_slash es) = es.
Proof.
  induction es as [|e es IH]; [done|]. intros _ [He Hes]%Forall_cons.
  destruct es as [|e' es].
  - cbn. apply split_slash_name. tauto.
  - change (join_slash (e :: e' :: es))
      with (e +:+ String slash (join_slash (e' :: es))).
    rewrite split_slash_name_slash by tauto. by rewrite IH.
Qed.

Lemma clean_elems_plain rooted out es :
  Forall plain es -> clean_elems rooted out es = rev out ++ es.
Proof.
  revert out. induction es as [|e es IH]; intros out Hes; cbn [clean_elems].
  - by rewrite app_nil_r.
  - apply Forall_cons in Hes as [(H1 & H2 & H3 & _) Hes].
    rewrite !decide_False by done. rewrite IH by done. cbn [rev].
    by rewrite <- app_assoc.
Qed.

Lemma clean_elems_rooted_plain out es :
  Forall plain out -> Forall (fun e => has_slash e = false) es ->
  Forall plain (clean_elems true out es).
Proof.
  revert out. induction es as [|e es IH]; intros out Hout Hes; cbn [clean_elems].
  - by apply Forall_rev.
  - apply Forall_cons in Hes as [He Hes].
    destruct (decide (e = "")); [by apply IH|].
    destruct (decide (e = ".")); [by apply IH|].
    destruct (decide (e = "..")).
    + destruct out as [|top out']; [by apply IH|].
      apply Forall_cons in Hout as [Htop Hout'].
      destruct (decide (top = "..")); [tauto|by apply IH].
    + apply IH; [|done]. by constructor.
Qed.

Lemma IsAbs_true x : IsAbs x = true -> exists s, x = String slash s.
Proof.
  destruct x as [|c x]; [done|]. rewrite IsAbs_cons.
  intros ->%bool_decide_eq_true_1. eauto.
Qed.

Lemma elements_plain x : IsAbs x = true -> Forall plain (elements x).
Proof.
  intros Habs. unfold elements. rewrite Habs.
  apply clean_elems_rooted_plain; [constructor|apply split_slash_no_slash].
Qed.

Lemma Clean_abs x :
  IsAbs x = true -> Clean x = String slash (join_slash (elements x)).
Proof.
  intros Habs. unfold Clean, elements. rewrite Habs.
  destruct (IsAbs_true x Habs) as [s ->]. by rewrite decide_False.
Qed.

Lemma join_plain_nonempty e es : Forall plain (e :: es) -> join_slash (e :: es) <> "".
Proof.
  intros [(He & _) _]%Forall_cons. destruct es as [|e' es]; [done|].
  change (join_slash (e :: e' :: es))
    with (e +:+ String slash (join_slash (e' :: es))).
  destruct e; [done|]. by rewrite append_cons.
Qed.

(** The elements of a cleaned absolute path are the elements it was made
    of. *)
Lemma elements_render es :
  Forall plain es -> elements (String slash (join_slash es)) = es.
Proof.
  intros Hes. unfold elements. rewrite IsAbs_cons, bool_decide_eq_true_2 by done.
  cbn [split_slash]. rewrite decide_True by done.
  cbn [clean_elems]. rewrite decide_True by done.
  destruct es as [|e es]; [done|].
  rewrite split_join_plain by done. by rewrite clean_elems_plain.
Qed.

Lemma rel_elems_render es :
  Forall plain es -> rel_elems (String slash (join_slash es)) = "" :: es.
Proof.
  intros Hes. unfold rel_elems. rewrite decide_False by done.
  destruct es as [|e es]; [done|].
  pose proof (join_plain_nonempty e es Hes) as Hne.
  rewrite decide_False by (intros [=]; done).
  cbn [split_slash]. rewrite decide_True by done.
  by rewrite split_join_plain.
Qed.

Lemma rel_strip_common bs ts bs' ts' d :
  rel_strip bs ts = (bs', ts', d) ->
  exists common, bs = common ++ bs' /\ ts = common ++ ts'.
Proof.
  revert ts. induction bs as [|b bs IH]; intros ts; cbn [rel_strip].
  - intros [= <- <- <-]. by exists [].
  - destruct ts as [|t ts]; [intros [= <- <- <-]; by exists []|].
    destruct (decide (b = t)) as [<-|]; [|intros [= <- <- <-]; by exists []].
    intros (common & -> & ->)%IH. by exists (b :: common).
Qed.

Lemma replicate_dotdot_not_local n ts :
  IsLocal (join_slash (replicate (S n) ".." ++ ts)) = false.
Proof.
  apply leaves_root_not_local. unfold leaves_root. cbn [replicate app].
  apply join_slash_dotdot.
Qed.

(** What [isWithinWorkspace] accepts lies within the workspace. *)
Lemma isWithinWorkspace_prefix candidate workspace :
  IsAbs candidate = true -> IsAbs workspace = true ->
  isWithinWorkspace candidate workspace = true ->
  elements workspace `prefix_of` elements candidate.
Proof.
  intros Hc Hw. unfold isWithinWorkspace, Rel.
  pose proof (elements_plain _ Hc) as Hpc. pose proof (elements_plain _ Hw) as Hpw.
  rewrite (Clean_abs _ Hc), (Clean_abs _ Hw).
  set (ts := elements candidate) in *. set (bs := elements workspace) in *.
  assert (Hcc : forall es, Forall plain es ->
            Clean (String slash (join_slash es)) = String slash (join_slash es)).
  { intros es Hes. rewrite Clean_abs by (by rewrite IsAbs_cons, bool_decide_eq_true_2).
    by rewrite elements_render. }
  rewrite !Hcc by done.
  destruct (decide (_ = _)) as [Heq|Hne].
  - intros _. apply (f_equal elements) in Heq.
    rewrite !elements_render in Heq by done. by rewrite Heq.
  - rewrite (decide_False (P := String slash _ = ".")) by done.
    rewrite !IsAbs_cons, !bool_decide_eq_true_2 by done. cbn [eqb negb].
    rewrite !rel_elems_render by done. cbn [rel_strip].
    rewrite decide_True by done.
    destruct (rel_strip bs ts) as [[bs' ts'] d] eqn:Hstrip.
    destruct (rel_strip_common _ _ _ _ _ Hstrip) as (common & Hbs & Hts).
    destruct (d && bool_decide (head bs' = Some "..")); [done|].
    destruct bs' as [|b bs'].
    + intros _. rewrite app_nil_r in Hbs. subst common. by exists ts'.
    + change (length (b :: bs')) with (S (length bs')).
      by rewrite replicate_dotdot_not_local.
Qed.

(** A path outside the workspace is not accepted. *)
Lemma outside_not_within t w : outside t w -> isWithinWorkspace t w = false.
Proof.
  intros (Ht & Hw & Hout).
  destruct (isWithinWorkspace t w) eqn:Hin; [|done].
  destruct Hout. by apply isWithinWorkspace_prefix.
Qed.

(** ** [validatePath] *)

Section ValidateProperties.

Context `{Host}.

Lemma enough_step n current :
  enough (S n) current -> Dir current <> current -> enough n (Dir current).
Proof.
  intros [_ [Hfix | Hlen]] Hne; [done|].
  destruct (Dir_shrinks current) as [Heq | [Hdot | Hlt]]; [done| |].
  - rewrite Hdot. split; [lia|by left].
  - split; [lia|right; lia].
Qed.

(** The loop of [resolveExistingAncestor] ends before its bound: with
    enough iterations allowed, the result does not depend on the bound. *)
Lemma resolveExistingAncestor_terminates n m current :
  enough n current -> enough m current ->
  resolveExistingAncestor_loop n current = resolveExistingAncestor_loop m current.
Proof.
  revert m current. induction n as [|n IH]; intros m current Hn Hm.
  - destruct Hn; lia.
  - destruct m as [|m]; [destruct Hm; lia|]. cbn [resolveExistingAncestor_loop].
    destruct (EvalSymlinks current) as [|err]; [done|].
    destruct (negb (IsNotExist err)); [done|].
    destruct (decide (Dir current = current)) as [|Hne]; [done|].
    apply IH; by apply enough_step.
Qed.

Lemma resolveExistingAncestor_loop_nearest n current t :
  nearest_existing current t -> enough n current ->
  resolveExistingAncestor_loop n current = Ok t.
Proof.
  intros Hnear. revert n.
  induction Hnear as [cur t Hev | cur err t Hev Hne Hdir Hnear IH]; intros n Hn.
  - destruct n as [|n]; [destruct Hn; lia|]. cbn. by rewrite Hev.
  - destruct n as [|n]; [destruct Hn; lia|]. cbn [resolveExistingAncestor_loop].
    rewrite Hev, Hne. cbn [negb]. rewrite decide_False by done.
    apply IH. by apply enough_step.
Qed.

Lemma resolveExistingAncestor_nearest path t :
  nearest_existing (Clean path) t -> resolveExistingAncestor path = Ok t.
Proof.
  intros Hnear. apply resolveExistingAncestor_loop_nearest; [done|].
  split; [lia|right; lia].
Qed.

(** C3.  Let the workspace [W] be defined and have the absolute form
    [absW], and let the input path [p] have the absolute form [absP].
    When resolving the symbolic links of [absP] (of its nearest existing
    ancestor, when [absP] does not exist) gives a path [t] outside the
    resolved form of the workspace, [validatePath p W true] returns no
    path and an error whose message contains "access denied". *)
Theorem validatePath_rejects_symlink_escape (W p absW absP t : string) :
  W <> "" ->
  Abs W = Ok absW ->
  absolute_path absW p = Ok absP ->
  resolves_to absP t ->
  outside t (workspaceReal absW) ->
  exists err,
    validatePath p W true = ("", Some err) /\
    Contains (Error err) "access denied" = true.
Proof.
  intros HW HabsW HabsP Hres Hout%outside_not_within.
  unfold validatePath. rewrite decide_False by done. rewrite HabsW, HabsP.
  unfold restrict_check.
  destruct (isWithinWorkspace absP absW); cbn [negb].
  - destruct Hres as [Hev | (err & Hev & Hne & Hnear)].
    + rewrite Hev, Hout. cbn [negb]. eexists. split; [done|]. by vm_compute.
    + rewrite Hev, Hne.
      rewrite (resolveExistingAncestor_nearest _ t Hnear), Hout. cbn [negb].
      eexists. split; [done|]. by vm_compute.
  - eexists. split; [done|]. by vm_compute.
Qed.

End ValidateProperties.

(** ** [validatePath] on the small host *)

(** Scenario "symlink escape": the workspace [/w] holds the link
    [/w/link] to [/etc]. *)
Example validatePath_symlink_escape :
  @validatePath demo_host "link/passwd" "/w" true =
    ("", Some (Errorf "access denied: symlink resolves outside workspace")).
Proof. reflexivity. Qed.

Example validatePath_inside :
  @validatePath demo_host "notes.txt" "/w" true = ("/w/notes.txt", None).
Proof. reflexivity. Qed.

Lemma validatePath_rejects_symlink_escape_witness :
  "/w" <> "" /\
  @Abs demo_host "/w" = Ok "/w" /\
  @absolute_path demo_host "/w" "link/new.txt" = Ok "/w/link/new.txt" /\
  @resolves_to demo_host "/w/link/new.txt" "/etc" /\
  outside "/etc" (@workspaceReal demo_host "/w") /\
  exists err,
    @validatePath demo_host "link/new.txt" "/w" true = ("", Some err) /\
    Contains (Error err) "access denied" = true.
Proof.
  assert (Hres : @resolves_to demo_host "/w/link/new.txt" "/etc").
  { right. exists (PathError "lstat" "/w/link/new.txt" ENOENT).
    split; [reflexivity|]. split; [reflexivity|].
    apply (@nearest_here demo_host). reflexivity. }
  assert (Hout : outside "/etc" (@workspaceReal demo_host "/w")).
  { split; [reflexivity|]. split; [reflexivity|].
    intros [k Hk]. vm_compute in Hk. discriminate. }
  split; [discriminate|]. split; [reflexivity|]. split; [reflexivity|].
  split; [exact Hres|]. split; [exact Hout|].
  apply (@validatePath_rejects_symlink_escape demo_host
           "/w" "link/new.txt" "/w" "/w/link/new.txt" "/etc");
    [discriminate|reflexivity|reflexivity|exact Hres|exact Hout].
Defined.


(** * Further properties *)

(** ** The remote tool adapter and the manager *)

(** X1.  The text extracted from a list of content blocks is the
    concatenation of the texts extracted from its parts, and the blocks
    whose type is not "text" add nothing to it. *)
Theorem extractTextContent_text_blocks (a b : list MCPContentBlock) :
  extractTextContent (a ++ b) = extractTextContent a +:+ extractTextContent b /\
  extractTextContent a =
    extractTextContent (filter (fun block => block_Type block = "text") a).
Proof.
  split.
  - induction a as [|block a IH]; [done|]. cbn [app extractTextContent].
    destruct (decide (block_Type block = "text")); [|done].
    by rewrite IH, append_assoc.
  - induction a as [|block a IH]; [done|]. cbn [extractTextContent].
    rewrite filter_cons.
    destruct (decide (block_Type block = "text")) as [Ht|Ht]; [|done].
    cbn [extractTextContent]. rewrite decide_True by done. by rewrite <- IH.
Qed.

Section LifecycleProperties.

Context {ToolRegistry : Type}.
Variable Register : ToolRegistry -> MCPToolAdapter -> ToolRegistry.
Variable newSSEClient : string -> list (string * string) -> result Client.
Variable newHTTPClient : string -> list (string * string) -> Client.
Variable newStdioClient : string -> list string -> list string -> result Client.
Variable range : forall A : Type, gmap string A -> list (string * A).
Variable Environ : list string.

Local Abbreviation build := (build_client newSSEClient newHTTPClient newStdioClient).
Local Abbreviation Start :=
  (StartAndRegister Register newSSEClient newHTTPClient newStdioClient).

Lemma Manager_eta (m : Manager ToolRegistry) :
  {| registry := registry m; clients := clients m |} = m.
Proof. by destruct m. Qed.

(** What [StartAndRegister] does to the client map when the name is
    free. *)
Lemma Start_clients (m : Manager ToolRegistry) cfg :
  clients m !! cfg_Name cfg = None ->
  clients (mgr (snd (Start m cfg))) =
    match started_client (snd (build cfg)) with
    | Some c => <[cfg_Name cfg := c]> (clients m)
    | None => clients m
    end /\
  (fst (Start m cfg) = None <-> is_Some (started_client (snd (build cfg)))).
Proof.
  intros Hfree. unfold StartAndRegister. rewrite Hfree. cbn zeta.
  destruct (snd (build cfg)) as [c|err] eqn:Hb; cbn [started_client].
  - destruct (Initialize c) as [err|] eqn:Hi.
    { cbn. split; [done|]. split; [done|]. by intros [? ?]. }
    destruct (ListTools c) as [defs|err] eqn:Hl.
    + cbn [fst snd mgr clients].
      match goal with |- context [fold_left _ defs ?s] =>
        destruct (register_loop Register cfg c defs s) as (Hc & _ & _) end.
      rewrite Hc. cbn. split; [done|]. split; [eauto|done].
    + cbn. split; [done|]. split; [done|]. by intros [? ?].
  - cbn. split; [done|]. split; [done|]. by intros [? ?].
Qed.

(** X2.  Whenever [StartAndRegister] returns an error (the name is in
    use, the client cannot be built, the handshake or the listing of the
    tools fails) the manager is what it was before the call: its
    registry and its client map are unchanged. *)
Theorem StartAndRegister_error_leaves_manager (m : Manager ToolRegistry) cfg :
  fst (Start m cfg) <> None ->
  mgr (snd (Start m cfg)) = m.
Proof.
  unfold StartAndRegister. destruct (clients m !! cfg_Name cfg); [done|].
  cbn zeta. destruct (snd (build cfg)) as [c|err]; [|done].
  destruct (Initialize c); [done|]. destruct (ListTools c); [|done].
  cbn. done.
Qed.

(** X3.  Once [StartAndRegister] has succeeded for a configuration, a
    second call under the same name fails with "mcp server <name> is
    already running" before it builds a client: it has no effect, and
    the manager is unchanged. *)
Theorem StartAndRegister_twice (m : Manager ToolRegistry) cfg cfg' :
  fst (Start m cfg) = None ->
  cfg_Name cfg' = cfg_Name cfg ->
  Start (mgr (snd (Start m cfg))) cfg' =
    (Some (Errorf ("mcp server " +:+ cfg_Name cfg' +:+ " is already running")),
     {| mgr := mgr (snd (Start m cfg)); trace := [] |}).
Proof.
  intros Hok Hname.
  assert (Hin : is_Some (clients (mgr (snd (Start m cfg))) !! cfg_Name cfg')).
  { rewrite Hname. revert Hok. unfold StartAndRegister.
    destruct (clients m !! cfg_Name cfg) eqn:Hfree; [done|]. cbn zeta.
    destruct (snd (build cfg)) as [c|err]; [|done].
    destruct (Initialize c); [done|]. destruct (ListTools c); [|done].
    intros _. cbn. rewrite lookup_insert_eq. eauto. }
  destruct Hin as [c Hc].
  unfold StartAndRegister at 1. by rewrite Hc.
Qed.

Hypothesis range_visits_all :
  forall (A : Type) (m : gmap string A), range A m ≡ₚ map_to_list m.

Lemma shutdown_loop (l : list (string * Client)) (s : run_state ToolRegistry) :
  let s' := foldl shutdown_one s l in
  registry (mgr s') = registry (mgr s) /\
  trace s' = trace s ++ ((fun entry => EClose (handle entry.2)) <$> l) /\
  forall name,
    clients (mgr s') !! name =
      if decide (name ∈ l.*1) then None else clients (mgr s) !! name.
Proof.
  revert s. induction l as [|[k c] l IH]; intros s; cbn zeta.
  - cbn. rewrite app_nil_r. split; [done|]. split; [done|]. intros name.
    rewrite decide_False; [done|]. apply not_elem_of_nil.
  - cbn [foldl]. destruct (IH (shutdown_one s (k, c))) as (Hr & Ht & Hc).
    split; [by rewrite Hr|]. split.
    + rewrite Ht. cbn. by rewrite <- app_assoc.
    + intros name. rewrite Hc. rewrite fmap_cons. cbn [fst].
      destruct (decide (name ∈ l.*1)) as [Hin|Hout].
      * rewrite decide_True; [done|]. apply elem_of_cons. by right.
      * destruct (decide (name = k)) as [->|Hne].
        -- rewrite decide_True by (apply elem_of_cons; by left).
           cbn. by rewrite lookup_delete_eq.
        -- rewrite decide_False by (by apply not_elem_of_cons).
           cbn. by rewrite lookup_delete_ne.
Qed.

(** X4.  [Shutdown] closes every client the manager holds, each once,
    and leaves the client map empty, whatever the order in which the map
    is visited.  The registry is not touched: the adapters of the closed
    clients stay registered. *)
Theorem Shutdown_closes_all (m : Manager ToolRegistry) :
  clients (mgr (Shutdown range m)) = ∅ /\
  registry (mgr (Shutdown range m)) = registry m /\
  trace (Shutdown range m) ≡ₚ
    (fun entry => EClose (handle entry.2)) <$> map_to_list (clients m).
Proof.
  unfold Shutdown.
  match goal with |- context [foldl _ ?s ?l] =>
    destruct (shutdown_loop l s) as (Hr & Ht & Hc) end.
  split; [|split].
  - apply map_eq. intros name. rewrite Hc, lookup_empty. cbn.
    destruct (decide _) as [|Hout]; [done|].
    destruct (clients m !! name) as [c|] eqn:Hm; [|done].
    destruct Hout. apply list_elem_of_fmap. exists (name, c). split; [done|].
    rewrite range_visits_all. by apply elem_of_map_to_list.
  - by rewrite Hr.
  - rewrite Ht. cbn. by rewrite range_visits_all.
Qed.

Lemma init_loop (l : list (string * MCPServerConfig)) (s : run_state ToolRegistry) :
  NoDup l.*1 ->
  (forall name, name ∈ l.*1 -> clients (mgr s) !! name = None) ->
  forall name,
    clients (mgr (foldl (init_one range Environ Register newSSEClient newHTTPClient
                           newStdioClient) s l)) !! name =
      match list_to_map (M := gmap string MCPServerConfig) l !! name with
      | Some srv =>
          started_client (snd (build (server_config range Environ name srv)))
      | None => clients (mgr s) !! name
      end.
Proof.
  revert s. induction l as [|[k srv] l IH]; intros s Hnd Hfree name; [done|].
  cbn [foldl]. rewrite fmap_cons in Hnd, Hfree. cbn [fst] in Hnd, Hfree.
  apply NoDup_cons in Hnd as [Hk Hnd].
  assert (Hkfree : clients (mgr s) !! k = None).
  { apply Hfree, elem_of_cons. by left. }
  destruct (Start_clients (mgr s) (server_config range Environ k srv) Hkfree)
    as [Hcl _].
  rewrite IH; [|done|].
  - cbn [list_to_map foldr uncurry]. unfold init_one. cbn [mgr fst snd].
    destruct (decide (name = k)) as [->|Hne].
    + rewrite lookup_insert_eq.
      rewrite (not_elem_of_list_to_map_1 (M := gmap string)) by done.
      rewrite Hcl. cbn [cfg_Name server_config].
      destruct (started_client _); [by rewrite lookup_insert_eq|done].
    + rewrite lookup_insert_ne by done.
      destruct (list_to_map l !! name); [done|].
      rewrite Hcl. cbn [cfg_Name server_config].
      destruct (started_client _); [by rewrite lookup_insert_ne|done].
  - intros n Hn. unfold init_one. cbn [mgr fst snd]. rewrite Hcl.
    cbn [cfg_Name server_config].
    assert (n <> k) by (intros ->; done).
    assert (clients (mgr s) !! n = None).
    { apply Hfree, elem_of_cons. by right. }
    destruct (started_client _); by rewrite ?lookup_insert_ne by done.
Qed.

(** X5.  [InitFromConfig] starts every server of the configuration,
    whatever the others do: when none of the names is in use, the
    manager afterwards holds, under each name of the configuration, the
    client of that server if its construction, handshake and listing
    succeed, and nothing if one of them fails; the other names are
    untouched.  A server that fails does not stop the loop. *)
Theorem InitFromConfig_independent (m : Manager ToolRegistry)
    (servers : gmap string MCPServerConfig) :
  (forall name, is_Some (servers !! name) -> clients m !! name = None) ->
  forall name,
    clients (mgr (InitFromConfig range Environ Register newSSEClient newHTTPClient
                    newStdioClient m servers)) !! name =
      match servers !! name with
      | Some srv =>
          started_client (snd (build (server_config range Environ name srv)))
      | None => clients m !! name
      end.
Proof.
  intros Hfree name. unfold InitFromConfig.
  assert (Hnd : NoDup (range _ servers).*1).
  { rewrite range_visits_all. apply NoDup_fst_map_to_list. }
  rewrite init_loop; [|done|].
  - assert (Hmap : list_to_map (range _ servers) = servers).
    { rewrite <- (list_to_map_to_list servers) at 2.
      apply list_to_map_proper; [done|apply range_visits_all]. }
    by rewrite Hmap.
  - intros n [[n' srv] [-> Hin]]%list_elem_of_fmap. cbn. apply Hfree.
    rewrite range_visits_all in Hin. apply elem_of_map_to_list in Hin. eauto.
Qed.

End LifecycleProperties.

(** ** The environment of a local provider *)

Lemma foldl_insert_union (l : list (string * string)) (base : gmap string string) :
  NoDup l.*1 ->
  foldl (fun m kv => <[kv.1 := kv.2]> m) base l = list_to_map l ∪ base.
Proof.
  revert base. induction l as [|[k v] l IH]; intros base Hnd.
  - cbn. by rewrite (left_id_L ∅ (∪)).
  - rewrite fmap_cons in Hnd. cbn [fst] in Hnd.
    apply NoDup_cons in Hnd as [Hk Hnd].
    cbn [foldl list_to_map foldr uncurry fst snd]. rewrite IH by done.
    rewrite <- insert_union_l.
    rewrite <- insert_union_r; [done|].
    by apply not_elem_of_list_to_map_1.
Qed.

Lemma cut_eq_format k v :
  cut_eq k = None -> cut_eq (k +:+ "=" +:+ v) = Some (k, v).
Proof.
  induction k as [|c k IH]; [done|]. rewrite append_cons. cbn [cut_eq].
  destruct (decide (c = "="%char)); [done|].
  destruct (cut_eq k) as [[k' v']|]; [done|]. intros _. by rewrite IH.
Qed.

Lemma env_entries_skip k (l : list string) (m : gmap string string) :
  Forall (fun e => fst <$> cut_eq e <> Some k) l ->
  foldl env_entry m l !! k = m !! k.
Proof.
  revert m. induction l as [|e l IH]; intros m Hl; [done|].
  apply Forall_cons in Hl as [He Hl]. cbn [foldl]. rewrite IH by done.
  unfold env_entry. destruct (cut_eq e) as [[k' v']|]; [|done].
  rewrite lookup_insert_ne; [done|]. intros ->. by destruct He.
Qed.

Section BuildEnvProperties.

Variable range : forall A : Type, gmap string A -> list (string * A).
Variable Environ : list string.

Hypothesis range_visits_all :
  forall (A : Type) (m : gmap string A), range A m ≡ₚ map_to_list m.

(** With custom variables, the result lists the merged map. *)
Lemma BuildEnv_entries (customEnv : gmap string string) :
  customEnv <> ∅ ->
  BuildEnv range Environ customEnv ≡ₚ
    env_format <$> map_to_list (customEnv ∪ foldl env_entry ∅ Environ).
Proof.
  intros Hne. unfold BuildEnv.
  rewrite decide_False by (by rewrite map_size_empty_iff).
  rewrite foldl_insert_union.
  - assert (Hmap : list_to_map (range _ customEnv) = customEnv).
    { rewrite <- (list_to_map_to_list customEnv) at 2.
      apply list_to_map_proper; [|apply range_visits_all].
      rewrite range_visits_all. apply NoDup_fst_map_to_list. }
    rewrite Hmap. by rewrite range_visits_all.
  - rewrite range_visits_all. apply NoDup_fst_map_to_list.
Qed.

(** X6.  With at least one custom variable, [BuildEnv] returns one entry
    "name=value" for every name of the system environment or of the
    custom variables, and no other; the value is the custom one when the
    name is a custom variable, whatever the system environment says. *)
Theorem BuildEnv_custom_wins (customEnv : gmap string string) :
  customEnv <> ∅ ->
  let merged := customEnv ∪ foldl env_entry ∅ Environ in
  (forall e, e ∈ BuildEnv range Environ customEnv <->
     exists k v, merged !! k = Some v /\ e = k +:+ "=" +:+ v) /\
  (forall k v, customEnv !! k = Some v ->
     merged !! k = Some v /\
     k +:+ "=" +:+ v ∈ BuildEnv range Environ customEnv) /\
  length (BuildEnv range Environ customEnv) = size merged.
Proof.
  intros Hne merged. pose proof (BuildEnv_entries customEnv Hne) as Hperm.
  fold merged in Hperm.
  assert (Hin : forall e, e ∈ BuildEnv range Environ customEnv <->
            exists k v, merged !! k = Some v /\ e = k +:+ "=" +:+ v).
  { intros e. rewrite Hperm, list_elem_of_fmap. split.
    - intros [[k v] [-> Hkv%elem_of_map_to_list]]. by exists k, v.
    - intros (k & v & Hkv & ->). exists (k, v). split; [done|].
      by apply elem_of_map_to_list. }
  split; [exact Hin|]. split.
  - intros k v Hk.
    assert (merged !! k = Some v) by (by apply lookup_union_Some_l).
    split; [done|]. apply Hin. by exists k, v.
  - rewrite Hperm, length_fmap. apply length_map_to_list.
Qed.

(** X7.  A variable of the system environment that no custom variable
    overrides is passed on as it is: when "name=value" is the last
    definition of [name] in the system environment, [name] contains no
    [=] and is not a custom variable, the result holds "name=value".
    The entry is cut at its first [=], so the value may contain [=]. *)
Theorem BuildEnv_keeps_system (customEnv : gmap string string)
    (before after : list string) (k v : string) :
  customEnv <> ∅ ->
  customEnv !! k = None ->
  cut_eq k = None ->
  Environ = before ++ (k +:+ "=" +:+ v) :: after ->
  Forall (fun e => fst <$> cut_eq e <> Some k) after ->
  k +:+ "=" +:+ v ∈ BuildEnv range Environ customEnv.
Proof.
  intros Hne Hk Hcut HE Hafter. rewrite (BuildEnv_entries customEnv Hne).
  apply list_elem_of_fmap. exists (k, v). split; [done|].
  apply elem_of_map_to_list. rewrite lookup_union_r by done.
  rewrite HE, foldl_app. cbn [foldl]. rewrite env_entries_skip by done.
  unfold env_entry at 1. rewrite (cut_eq_format k v Hcut).
  apply lookup_insert_eq.
Qed.

End BuildEnvProperties.

(** ** The manager and the environment on the small provider *)

Lemma sorted_range_visits_all (A : Type) (m : gmap string A) :
  sorted_range A m ≡ₚ map_to_list m.
Proof. reflexivity. Qed.

Lemma StartAndRegister_error_leaves_manager_witness :
  fst (demo_Start (Ok broken_client) demo_manager (demo_cfg "stdio")) <> None /\
  mgr (snd (demo_Start (Ok broken_client) demo_manager (demo_cfg "stdio")))
    = demo_manager.
Proof.
  assert (Herr : fst (demo_Start (Ok broken_client) demo_manager (demo_cfg "stdio"))
                 <> None) by (vm_compute; discriminate).
  split; [exact Herr|].
  exact (StartAndRegister_error_leaves_manager list_Register
           (fun _ _ => Err (Errorf "failed to connect to SSE endpoint"))
           (fun _ _ => echo_client) (fun _ _ _ => Ok broken_client)
           demo_manager (demo_cfg "stdio") Herr).
Defined.

Lemma StartAndRegister_twice_witness :
  fst (demo_Start (Ok echo_client) demo_manager (demo_cfg "stdio")) = None /\
  fst (demo_Start (Ok echo_client)
         (mgr (snd (demo_Start (Ok echo_client) demo_manager (demo_cfg "stdio"))))
         (demo_cfg "sse"))
    = Some (Errorf "mcp server alias is already running").
Proof.
  assert (Hok : fst (demo_Start (Ok echo_client) demo_manager (demo_cfg "stdio"))
                = None) by reflexivity.
  split; [exact Hok|].
  pose proof (StartAndRegister_twice list_Register
                (fun _ _ => Err (Errorf "failed to connect to SSE endpoint"))
                (fun _ _ => echo_client) (fun _ _ _ => Ok echo_client)
                demo_manager (demo_cfg "stdio") (demo_cfg "sse") Hok eq_refl)
    as Htwice.
  exact (f_equal fst Htwice).
Defined.

Lemma Shutdown_closes_all_witness :
  (forall (A : Type) (m : gmap string A), sorted_range A m ≡ₚ map_to_list m) /\
  clients (mgr (Shutdown sorted_range demo_two_clients)) = ∅ /\
  registry (mgr (Shutdown sorted_range demo_two_clients)) = [] /\
  trace (Shutdown sorted_range demo_two_clients) ≡ₚ [EClose 7; EClose 8].
Proof.
  destruct (Shutdown_closes_all sorted_range sorted_range_visits_all demo_two_clients)
    as (Hclients & Hregistry & Htrace).
  split; [exact sorted_range_visits_all|]. split; [exact Hclients|].
  split; [exact Hregistry|].
  etrans; [exact Htrace|]. vm_compute. first [reflexivity | apply perm_swap].
Defined.

Lemma InitFromConfig_independent_witness :
  (forall name, is_Some (demo_servers !! name) -> clients demo_manager !! name = None) /\
  clients (mgr (demo_Init demo_manager demo_servers)) !! "local" = Some echo_client /\
  clients (mgr (demo_Init demo_manager demo_servers)) !! "remote" = None.
Proof.
  assert (Hfree : forall name, is_Some (demo_servers !! name) ->
                    clients demo_manager !! name = None) by (intros; reflexivity).
  pose proof (InitFromConfig_independent list_Register
                (fun _ _ => Err (Errorf "failed to connect to SSE endpoint"))
                (fun _ _ => echo_client) (fun _ _ _ => Ok echo_client)
                sorted_range demo_Environ sorted_range_visits_all
                demo_manager demo_servers Hfree) as Hinit.
  split; [exact Hfree|]. split.
  - exact (Hinit "local").
  - exact (Hinit "remote").
Defined.

Lemma BuildEnv_custom_wins_witness :
  demo_customEnv <> ∅ /\
  "HOME=/tmp" ∈ BuildEnv sorted_range demo_Environ demo_customEnv /\
  length (BuildEnv sorted_range demo_Environ demo_customEnv) = 2.
Proof.
  assert (Hne : demo_customEnv <> ∅).
  { intros Heq. apply (f_equal (fun m => m !! "HOME")) in Heq. discriminate Heq. }
  destruct (BuildEnv_custom_wins sorted_range demo_Environ sorted_range_visits_all
              demo_customEnv Hne) as (_ & Hcustom & Hlen).
  split; [exact Hne|]. split.
  - exact (proj2 (Hcustom "HOME" "/tmp" eq_refl)).
  - exact Hlen.
Defined.

Lemma BuildEnv_keeps_system_witness :
  demo_customEnv <> ∅ /\
  demo_customEnv !! "PATH" = None /\
  cut_eq "PATH" = None /\
  "PATH=/bin:/usr/bin" ∈ BuildEnv sorted_range demo_Environ demo_customEnv.
Proof.
  assert (Hne : demo_customEnv <> ∅).
  { intros Heq. apply (f_equal (fun m => m !! "HOME")) in Heq. discriminate Heq. }
  split; [exact Hne|]. split; [reflexivity|]. split; [reflexivity|].
  apply (BuildEnv_keeps_system sorted_range demo_Environ sorted_range_visits_all
           demo_customEnv [] ["HOME=/root"; "junk"] "PATH" "/bin:/usr/bin");
    [exact Hne|reflexivity|reflexivity|reflexivity|].
  repeat constructor; vm_compute; discriminate.
Defined.

(** ** Paths: what [isWithinWorkspace] and [getSafeRelPath] accept *)

Lemma rel_strip_prefix bs rest : rel_strip bs (bs ++ rest) = ([], rest, false).
Proof.
  induction bs as [|b bs IH]; [by destruct rest|].
  cbn [app rel_strip]. by rewrite decide_True.
Qed.

Lemma Clean_rendered es :
  Forall plain es -> Clean (String slash (join_slash es)) = String slash (join_slash es).
Proof.
  intros Hes. rewrite Clean_abs by (by rewrite IsAbs_cons, bool_decide_eq_true_2).
  by rewrite elements_render.
Qed.

Lemma join_plain_relative e es :
  Forall plain (e :: es) -> IsAbs (join_slash (e :: es)) = false.
Proof.
  intros [(He & _ & _ & Hs) _]%Forall_cons.
  destruct e as [|c e]; [done|]. cbn [has_slash] in Hs.
  apply orb_false_iff in Hs as [Hc _].
  assert (Hj : exists s, join_slash (String c e :: es) = String c s).
  { destruct es as [|e' es]; [by exists e|].
    change (join_slash (String c e :: e' :: es))
      with (String c e +:+ String slash (join_slash (e' :: es))).
    rewrite append_cons. eauto. }
  destruct Hj as [s ->]. by rewrite IsAbs_cons.
Qed.

(** The names below the workspace make a local path. *)
Lemma IsLocal_join_plain e es :
  Forall plain (e :: es) -> IsLocal (join_slash (e :: es)) = true.
Proof.
  intros Hes. unfold IsLocal.
  rewrite (join_plain_relative e es Hes).
  rewrite bool_decide_eq_false_2 by (by apply join_plain_nonempty).
  cbn [orb]. rewrite split_join_plain by done.
  assert (Hdots : existsb (fun part => bool_decide (part = ".") || bool_decide (part = ".."))
                    (e :: es) = false).
  { apply not_true_is_false. intros (part & Hin & Hpart)%existsb_exists.
    apply list_elem_of_In in Hin. rewrite Forall_forall in Hes.
    destruct (Hes part Hin) as (_ & H1 & H2 & _).
    apply orb_true_iff in Hpart as [?%bool_decide_eq_true_1|?%bool_decide_eq_true_1];
      done. }
  rewrite Hdots. apply negb_true_iff, orb_false_iff. split.
  - apply bool_decide_eq_false_2. intros Heq.
    pose proof (split_join_plain (e :: es) ltac:(done) Hes) as Hsplit.
    rewrite Heq in Hsplit. cbn in Hsplit.
    apply Forall_cons in Hes as [(_ & _ & H2 & _) _]. by injection Hsplit as <- _.
  - apply not_true_is_false. intros Hp. unfold HasPrefix in Hp.
    apply prefix_exists in Hp as [t Ht].
    pose proof (split_join_plain (e :: es) ltac:(done) Hes) as Hsplit.
    rewrite Ht, split_slash_dotdot in Hsplit.
    apply Forall_cons in Hes as [(_ & _ & H2 & _) _]. by injection Hsplit as <- _.
Qed.

(** [Rel] from an absolute path to a path below it: the names that
    follow. *)
Lemma Rel_below bs rest (base targ : string) :
  Forall plain bs -> Forall plain rest ->
  Clean base = String slash (join_slash bs) ->
  Clean targ = String slash (join_slash (bs ++ rest)) ->
  Rel base targ = Ok (match rest with [] => "." | _ :: _ => join_slash rest end).
Proof.
  intros Hbs Hrest Hb Ht. unfold Rel. rewrite Hb, Ht.
  assert (Hall : Forall plain (bs ++ rest)) by (by apply Forall_app).
  destruct rest as [|e rest].
  { rewrite app_nil_r. by rewrite decide_True. }
  rewrite decide_False.
  2:{ intros Heq. apply (f_equal elements) in Heq.
      rewrite !elements_render in Heq by done.
      apply (f_equal length) in Heq. rewrite length_app in Heq. cbn in Heq. lia. }
  rewrite (decide_False (P := String slash _ = ".")) by done.
  rewrite !IsAbs_cons, !bool_decide_eq_true_2 by done. cbn [eqb negb].
  rewrite !rel_elems_render by done. cbn [rel_strip].
  rewrite decide_True by done. by rewrite rel_strip_prefix.
Qed.

(** X8.  For absolute paths, [isWithinWorkspace] accepts a candidate
    exactly when the elements of the cleaned workspace are the first
    elements of the cleaned candidate: the workspace itself and what lies
    below it, and no path that only shares a prefix of characters with
    it. *)
Theorem isWithinWorkspace_iff_below (candidate workspace : string) :
  IsAbs candidate = true -> IsAbs workspace = true ->
  isWithinWorkspace candidate workspace = true <->
  elements workspace `prefix_of` elements candidate.
Proof.
  intros Hc Hw. split; [by apply isWithinWorkspace_prefix|].
  intros [rest Hrest].
  pose proof (elements_plain _ Hc) as Hpc. pose proof (elements_plain _ Hw) as Hpw.
  rewrite Hrest in Hpc. apply Forall_app in Hpc as [_ Hpr].
  unfold isWithinWorkspace.
  rewrite (Rel_below (elements workspace) rest).
  - destruct rest as [|e rest]; [done|]. by apply IsLocal_join_plain.
  - done.
  - done.
  - rewrite (Clean_abs _ Hw). by apply Clean_rendered.
  - rewrite (Clean_abs _ Hc), Hrest. apply Clean_rendered. by apply Forall_app.
Qed.

(** X9.  An absolute path inside an absolute workspace is accepted by
    [getSafeRelPath] and translated to the path relative to the
    workspace: the names that follow those of the workspace, or "." for
    the workspace itself. *)
Theorem getSafeRelPath_below (workspace path : string) (rest : list string) :
  IsAbs workspace = true -> IsAbs path = true ->
  elements path = elements workspace ++ rest ->
  getSafeRelPath workspace path =
    Ok (match rest with [] => "." | _ :: _ => join_slash rest end).
Proof.
  intros Hw Hp Hrest.
  pose proof (elements_plain _ Hp) as Hpp. pose proof (elements_plain _ Hw) as Hpw.
  rewrite Hrest in Hpp. pose proof Hpp as Hall.
  apply Forall_app in Hpp as [_ Hpr].
  unfold getSafeRelPath.
  rewrite decide_False by (intros ->; done).
  cbn zeta. rewrite (Clean_abs _ Hp), Hrest.
  rewrite IsAbs_cons, bool_decide_eq_true_2 by done.
  rewrite (Rel_below (elements workspace) rest).
  - destruct rest as [|e rest]; [done|]. by rewrite IsLocal_join_plain.
  - done.
  - done.
  - by apply Clean_abs.
  - by apply Clean_rendered.
Qed.

(** An element [Clean] leaves in a path: not empty and without
    separator. *)
Local Abbreviation name_or_dotdot :=
  (fun e : string => e <> "" /\ has_slash e = false).

Lemma clean_elems_names rooted out es :
  Forall name_or_dotdot out -> Forall (fun e => has_slash e = false) es ->
  Forall name_or_dotdot (clean_elems rooted out es).
Proof.
  revert out. induction es as [|e es IH]; intros out Hout Hes; cbn [clean_elems].
  - by apply Forall_rev.
  - apply Forall_cons in Hes as [He Hes].
    destruct (decide (e = "")); [by apply IH|].
    destruct (decide (e = ".")); [by apply IH|].
    destruct (decide (e = "..")) as [->|].
    + destruct out as [|top out'].
      * destruct rooted; apply IH; try done. by repeat constructor.
      * apply Forall_cons in Hout as [Htop Hout'].
        destruct (decide (top = "..")); apply IH; try done.
        constructor; [done|by constructor].
    + apply IH; [|done]. by constructor.
Qed.

Lemma join_names_relative e es :
  name_or_dotdot e -> IsAbs (join_slash (e :: es)) = false.
Proof.
  intros [He Hs]. destruct e as [|c e]; [done|]. cbn [has_slash] in Hs.
  apply orb_false_iff in Hs as [Hc _].
  assert (Hj : exists s, join_slash (String c e :: es) = String c s).
  { destruct es as [|e' es]; [by exists e|].
    change (join_slash (String c e :: e' :: es))
      with (String c e +:+ String slash (join_slash (e' :: es))).
    rewrite append_cons. eauto. }
  destruct Hj as [s ->]. by rewrite IsAbs_cons.
Qed.

(** [Clean] keeps a relative path relative. *)
Lemma Clean_relative x : IsAbs x = false -> IsAbs (Clean x) = false.
Proof.
  intros Hx. unfold Clean. destruct (decide (x = "")); [done|]. rewrite Hx.
  pose proof (clean_elems_names false [] (split_slash x)
                ltac:(constructor) (split_slash_no_slash x)) as Hes.
  destruct (clean_elems false [] (split_slash x)) as [|e es]; [done|].
  apply Forall_cons in Hes as [He _]. by apply join_names_relative.
Qed.

(** X10.  With a workspace given as a relative path, [getSafeRelPath]
    refuses every absolute path, also one that lies inside the
    workspace: [filepath.Rel] cannot relate an absolute path to a
    relative one, and the error is "failed to calculate relative path:
    Rel: can't make <cleaned path> relative to <workspace>". *)
Theorem getSafeRelPath_relative_workspace (workspace path : string) :
  workspace <> "" -> IsAbs workspace = false -> IsAbs path = true ->
  getSafeRelPath workspace path =
    Err (Errorf ("failed to calculate relative path: Rel: can't make "
                 +:+ Clean path +:+ " relative to " +:+ workspace)).
Proof.
  intros Hne Hw Hp. unfold getSafeRelPath. rewrite decide_False by done.
  cbn zeta. pose proof (elements_plain _ Hp) as Hpp.
  rewrite (Clean_abs _ Hp), IsAbs_cons, bool_decide_eq_true_2 by done.
  unfold Rel. rewrite Clean_rendered by done.
  pose proof (Clean_relative workspace Hw) as Hcw.
  rewrite decide_False.
  2:{ intros Heq. rewrite <- Heq, IsAbs_cons, bool_decide_eq_true_2 in Hcw; done. }
  assert (Hbase : IsAbs (if decide (Clean workspace = ".") then "" else Clean workspace)
                  = false) by (by destruct (decide _)).
  rewrite Hbase, IsAbs_cons, bool_decide_eq_true_2 by done.
  reflexivity.
Qed.

(** ** [validatePath]: what it refuses and what it accepts *)

Section ValidateFurther.

Context `{Host}.

(** X11.  Under [restrict], a path whose absolute form lies outside the
    absolute workspace, as a path that climbs out with [..] does, is
    refused with "access denied: path is outside the workspace", and no
    path is returned. *)
Theorem validatePath_rejects_traversal (W p absW absP : string) :
  W <> "" ->
  Abs W = Ok absW ->
  absolute_path absW p = Ok absP ->
  outside absP absW ->
  validatePath p W true =
    ("", Some (Errorf "access denied: path is outside the workspace")).
Proof.
  intros HW HabsW HabsP Hout%outside_not_within.
  unfold validatePath. rewrite decide_False by done. rewrite HabsW, HabsP.
  unfold restrict_check. by rewrite Hout.
Qed.

(** X12.  A path that [validatePath] accepts under [restrict] is the
    absolute form of the input; it passes [isWithinWorkspace] against
    the absolute workspace, and what it resolves to (the path itself
    or, when it does not exist, its nearest existing ancestor) passes
    [isWithinWorkspace] against the resolved workspace. *)
Theorem validatePath_accepted_is_inside (W p q : string) :
  validatePath p W true = (q, None) ->
  exists absW,
    Abs W = Ok absW /\
    absolute_path absW p = Ok q /\
    isWithinWorkspace q absW = true /\
    forall t, resolves_to q t ->
      isWithinWorkspace t (workspaceReal absW) = true.
Proof.
  unfold validatePath. destruct (decide (W = "")); [intros [=]|].
  destruct (Abs W) as [absW|err] eqn:HabsW; [|intros [=]].
  destruct (absolute_path absW p) as [absP|err] eqn:HabsP; [|intros [=]].
  destruct (restrict_check absP absW) as [err|] eqn:Hcheck; [intros [=]|].
  intros [= <-]. exists absW. split; [done|]. split; [done|].
  revert Hcheck. unfold restrict_check.
  destruct (isWithinWorkspace absP absW); [|done]. cbn [negb].
  destruct (EvalSymlinks absP) as [resolved|err] eqn:Hev.
  - destruct (isWithinWorkspace resolved _) eqn:Hin; [|done]. intros _.
    split; [done|]. intros t [Ht|(err & Ht & _)]; congruence.
  - destruct (IsNotExist err) eqn:Hne; [|done].
    destruct (resolveExistingAncestor (Dir absP)) as [parent|err'] eqn:Hanc.
    + destruct (isWithinWorkspace parent _) eqn:Hin; [|done]. intros _.
      split; [done|]. intros t [Ht|(err2 & _ & _ & Hnear)]; [congruence|].
      apply resolveExistingAncestor_nearest in Hnear. congruence.
    + intros _. split; [done|]. intros t [Ht|(err2 & _ & _ & Hnear)]; [congruence|].
      apply resolveExistingAncestor_nearest in Hnear. congruence.
Qed.

Lemma walks_up_loop n current :
  enough n current -> walks_up current (resolveExistingAncestor_loop n current).
Proof.
  revert current. induction n as [|n IH]; intros current Hn.
  - destruct Hn; lia.
  - cbn [resolveExistingAncestor_loop].
    destruct (EvalSymlinks current) as [t|err] eqn:Hev; [by apply walk_found|].
    destruct (IsNotExist err) eqn:Hne; cbn [negb]; [|by apply walk_error].
    destruct (decide (Dir current = current)) as [Htop|Hup].
    + by apply (walk_top current err).
    + apply (walk_step current err); [done..|]. apply IH. by apply enough_step.
Qed.

Lemma walks_up_unique current r r' :
  walks_up current r -> walks_up current r' -> r = r'.
Proof.
  intros Hr. revert r'.
  induction Hr as [cur t Hev|cur err Hev Hne|cur err Hev Hne Htop
                  |cur err r Hev Hne Hup Hr IH];
    intros r' Hr'; inversion Hr'; subst; try congruence.
  by apply IH.
Qed.

(** X13.  [resolveExistingAncestor] always ends, and its result is that
    of the walk from the cleaned path up through its parents: the
    resolution of the first path that exists, the first error other
    than "does not exist", or [os.ErrNotExist] when nothing exists up to
    the top. *)
Theorem resolveExistingAncestor_walks_up (path : string) (r : result string) :
  walks_up (Clean path) r <-> resolveExistingAncestor path = r.
Proof.
  assert (Hwalk : walks_up (Clean path) (resolveExistingAncestor path)).
  { apply walks_up_loop. split; [lia|right; lia]. }
  split.
  - intros Hr. by apply (walks_up_unique (Clean path)).
  - by intros <-.
Qed.

End ValidateFurther.

(** ** Paths on the small host *)

Lemma isWithinWorkspace_iff_below_witness :
  IsAbs "/workspace-evil/x" = true /\ IsAbs "/workspace" = true /\
  ~ elements "/workspace" `prefix_of` elements "/workspace-evil/x" /\
  isWithinWorkspace "/workspace-evil/x" "/workspace" = false.
Proof.
  assert (Hout : ~ elements "/workspace" `prefix_of` elements "/workspace-evil/x").
  { intros [k Hk]. vm_compute in Hk. discriminate. }
  split; [reflexivity|]. split; [reflexivity|]. split; [exact Hout|].
  destruct (isWithinWorkspace "/workspace-evil/x" "/workspace") eqn:Hin; [|reflexivity].
  destruct Hout.
  exact (proj1 (isWithinWorkspace_iff_below "/workspace-evil/x" "/workspace"
                  eq_refl eq_refl) Hin).
Defined.

Lemma getSafeRelPath_below_witness :
  IsAbs "/w" = true /\ IsAbs "/w/docs/../notes.txt" = true /\
  elements "/w/docs/../notes.txt" = elements "/w" ++ ["notes.txt"] /\
  getSafeRelPath "/w" "/w/docs/../notes.txt" = Ok "notes.txt".
Proof.
  split; [reflexivity|]. split; [reflexivity|]. split; [reflexivity|].
  exact (getSafeRelPath_below "/w" "/w/docs/../notes.txt" ["notes.txt"]
           eq_refl eq_refl eq_refl).
Defined.

Lemma getSafeRelPath_relative_workspace_witness :
  "ws" <> "" /\ IsAbs "ws" = false /\ IsAbs "/home/agent/ws/notes.txt" = true /\
  getSafeRelPath "ws" "/home/agent/ws/notes.txt" =
    Err (Errorf ("failed to calculate relative path: Rel: can't make "
                 +:+ Clean "/home/agent/ws/notes.txt" +:+ " relative to ws")).
Proof.
  split; [discriminate|]. split; [reflexivity|]. split; [reflexivity|].
  apply (getSafeRelPath_relative_workspace "ws" "/home/agent/ws/notes.txt");
    [discriminate|reflexivity|reflexivity].
Defined.

Lemma validatePath_rejects_traversal_witness :
  "/w" <> "" /\
  @Abs demo_host "/w" = Ok "/w" /\
  @absolute_path demo_host "/w" "../etc/passwd" = Ok "/etc/passwd" /\
  outside "/etc/passwd" "/w" /\
  @validatePath demo_host "../etc/passwd" "/w" true =
    ("", Some (Errorf "access denied: path is outside the workspace")).
Proof.
  assert (Hout : outside "/etc/passwd" "/w").
  { split; [reflexivity|]. split; [reflexivity|].
    intros [k Hk]. vm_compute in Hk. discriminate. }
  split; [discriminate|]. split; [reflexivity|]. split; [reflexivity|].
  split; [exact Hout|].
  apply (@validatePath_rejects_traversal demo_host "/w" "../etc/passwd" "/w"
           "/etc/passwd"); [discriminate|reflexivity|reflexivity|exact Hout].
Defined.

Lemma validatePath_accepted_is_inside_witness :
  @validatePath demo_host "notes.txt" "/w" true = ("/w/notes.txt", None) /\
  exists absW,
    @Abs demo_host "/w" = Ok absW /\
    @absolute_path demo_host absW "notes.txt" = Ok "/w/notes.txt" /\
    isWithinWorkspace "/w/notes.txt" absW = true /\
    forall t, @resolves_to demo_host "/w/notes.txt" t ->
      isWithinWorkspace t (@workspaceReal demo_host absW) = true.
Proof.
  split; [reflexivity|].
  exact (@validatePath_accepted_is_inside demo_host "/w" "notes.txt" "/w/notes.txt"
           eq_refl).
Defined.

(** ** The file tools *)

Lemma append_nil_r s : s +:+ "" = s.
Proof. induction s as [|c s IH]; [done|]. by rewrite append_cons, IH. Qed.

Lemma Index_unfold s substr :
  Index s substr =
  if String.prefix substr s then Some 0
  else match s with
       | EmptyString => None
       | String _ s' => S <$> Index s' substr
       end.
Proof. by destruct s. Qed.

Lemma slice_from_app a b : slice_from (String.length a) (a +:+ b) = b.
Proof. induction a as [|c a IH]; [by destruct b|]. by rewrite append_cons. Qed.

Lemma slice_to_app a b : slice_to (String.length a) (a +:+ b) = a.
Proof.
  induction a as [|c a IH]; [by destruct b|]. rewrite append_cons. cbn. by rewrite IH.
Qed.

Lemma slice_from_plus n m s : slice_from (n + m) s = slice_from m (slice_from n s).
Proof.
  revert s. induction n as [|n IH]; intros s; [done|].
  destruct s as [|c s]; [by destruct m|]. apply IH.
Qed.

Lemma slice_from_length n s :
  String.length (slice_from n s) = String.length s - n.
Proof.
  revert s. induction n as [|n IH]; intros s; [cbn; lia|].
  destruct s as [|c s]; [done|]. apply IH.
Qed.

(** [Index] finds an instance. *)
Lemma Index_Some s substr i :
  Index s substr = Some i ->
  exists a b, s = a +:+ substr +:+ b /\ String.length a = i.
Proof.
  revert i. induction s as [|c s IH]; intros i; rewrite Index_unfold.
  - destruct (String.prefix substr "") eqn:Hp; [|done]. intros [= <-].
    apply prefix_exists in Hp as [t Ht]. by exists "", t.
  - destruct (String.prefix substr (String c s)) eqn:Hp.
    + intros [= <-]. apply prefix_exists in Hp as [t Ht]. by exists "", t.
    + destruct (Index s substr) as [j|]; [|done]. intros [= <-].
      destruct (IH j eq_refl) as (a & b & -> & <-).
      by exists (String c a), b.
Qed.

Lemma Contains_Index s substr :
  Contains s substr = bool_decide (is_Some (Index s substr)).
Proof.
  induction s as [|c s IH]; rewrite Contains_unfold, Index_unfold.
  - by destruct (String.prefix substr "").
  - destruct (String.prefix substr (String c s)); [done|]. cbn [orb].
    rewrite IH. by destruct (Index s substr).
Qed.

Lemma Count_loop_absent n s substr :
  Index s substr = None -> Count_loop n s substr = 0.
Proof. intros Hi. destruct n; [done|]. cbn. by rewrite Hi. Qed.

(** The bound of the loop of [Count] is never reached: with enough
    iterations allowed, the count does not depend on the bound. *)
Lemma Count_loop_enough n m s substr :
  substr <> "" -> String.length s < n -> String.length s < m ->
  Count_loop n s substr = Count_loop m s substr.
Proof.
  intros Hne. revert m s. induction n as [|n IH]; intros m s Hn Hm; [lia|].
  destruct m as [|m]; [lia|]. cbn [Count_loop].
  destruct (Index s substr) as [i|] eqn:Hi; [|done]. f_equal.
  destruct (Index_Some s substr i Hi) as (a & b & Hs & Ha).
  assert (0 < String.length substr) by (destruct substr; [done|cbn; lia]).
  assert (String.length s = String.length a + (String.length substr + String.length b)).
  { by rewrite Hs, !append_length. }
  apply IH; rewrite slice_from_length; lia.
Qed.

(** X14.  For a non-empty [old_text], [replaceEditContent] succeeds
    exactly when the content has an instance of [old_text] and no
    instance in what follows the first one; the result is then the
    content with that first instance replaced by [new_text], and
    nothing else changed. *)
Theorem replaceEditContent_single_instance (content oldText newText r : string) :
  oldText <> "" ->
  replaceEditContent content oldText newText = Ok r <->
  exists a b,
    content = a +:+ oldText +:+ b /\
    Index content oldText = Some (String.length a) /\
    Contains b oldText = false /\
    r = a +:+ newText +:+ b.
Proof.
  intros Hne.
  assert (Hrest : forall a b, content = a +:+ oldText +:+ b ->
            slice_from (String.length a + String.length oldText) content = b).
  { intros a b ->. by rewrite slice_from_plus, !slice_from_app. }
  unfold replaceEditContent, Count, Replace1. rewrite decide_False by done.
  rewrite Contains_Index. cbn [Count_loop]. split.
  - destruct (Index content oldText) as [i|] eqn:Hi.
    2:{ by rewrite bool_decide_eq_false_2 by (by intros [? ?]). }
    rewrite bool_decide_eq_true_2 by eauto. cbn [negb].
    destruct (Index_Some _ _ _ Hi) as (a & b & Hc & <-).
    rewrite (Hrest a b Hc).
    destruct (Count_loop (String.length content) b oldText) as [|k] eqn:Hk; [|done].
    cbn. intros [= <-]. exists a, b. split; [done|]. split; [done|]. split.
    + rewrite Contains_Index. apply bool_decide_eq_false_2. intros [j Hj].
      destruct (String.length content) as [|n] eqn:Hlen.
      * apply (f_equal String.length) in Hc. rewrite !append_length, Hlen in Hc.
        destruct oldText; [done|]. cbn in Hc. lia.
      * cbn in Hk. by rewrite Hj in Hk.
    + rewrite Hc at 1. by rewrite slice_to_app.
  - intros (a & b & Hc & Hi & Hb & ->). rewrite Hi.
    rewrite bool_decide_eq_true_2 by eauto. cbn [negb].
    rewrite (Hrest a b Hc). rewrite Count_loop_absent.
    + cbn. rewrite Hc at 1. by rewrite slice_to_app.
    + rewrite Contains_Index in Hb. apply bool_decide_eq_false_1 in Hb.
      destruct (Index b oldText); [|done]. destruct Hb. eauto.
Qed.

(** X15.  With an empty [old_text], [replaceEditContent] succeeds only
    on an empty content, where the result is [new_text]; on any other
    content it fails with "old_text appears N times", N being the
    number of runes of the content plus one. *)
Theorem replaceEditContent_empty_old_text (content newText : string) :
  replaceEditContent content "" newText =
    match content with
    | EmptyString => Ok newText
    | String _ _ =>
        Err (Errorf ("old_text appears " +:+ pretty (RuneCountInString content + 1)
                     +:+ " times. Please provide more context to make it unique"))
    end.
Proof.
  unfold replaceEditContent, Count. rewrite decide_True by done.
  rewrite Contains_unfold, prefix_nil. cbn [orb negb].
  destruct content as [|c content].
  - cbn. by rewrite append_nil_r.
  - unfold RuneCountInString. cbn [rune_count].
    by replace (1 <? S (rune_count _ content) + 1) with true
      by (symmetry; apply Nat.ltb_lt; lia).
Qed.

(** A write that nothing fails replaces the contents of the target and
    leaves no temporary file. *)
Lemma write_rename_files (files0 : gmap string string) tmp target data :
  tmp <> target ->
  let files' := <[target := data]> (delete tmp (<[tmp := data]> files0)) in
  files' !! target = Some data /\
  files' !! tmp = None /\
  forall q, q <> target -> q <> tmp -> files' !! q = files0 !! q.
Proof.
  intros Hne files'. unfold files'. split; [apply lookup_insert_eq|]. split.
  - rewrite lookup_insert_ne by done. apply lookup_delete_eq.
  - intros q Hq1 Hq2.
    by rewrite lookup_insert_ne, lookup_delete_ne, lookup_insert_ne by done.
Qed.

Lemma hostFs_WriteFile_ok os now path data w :
  os_succeeds os ->
  hostFs_WriteFile os now path data w =
    (None,
     {| files := <[path := data]>
                   (delete (tmp_name path now) (<[tmp_name path now := data]> (files w)));
        calls := calls w ++ [SysMkdirAll (Dir path);
                             SysWriteFile (tmp_name path now) data;
                             SysRename (tmp_name path now) path] |}).
Proof.
  intros (_ & Hmk & Hwr & Hrn & _).
  unfold hostFs_WriteFile, MkdirAll, WriteFile, Rename, called, set_files.
  rewrite Hmk, Hwr, Hrn. cbn. rewrite lookup_insert_eq. cbn.
  by rewrite <- !app_assoc.
Qed.

Lemma sandboxFs_WriteFile_ok os now workspace path rel data w :
  os_succeeds os -> workspace <> "" ->
  getSafeRelPath workspace path = Ok rel ->
  exists mkdirs,
    sandboxFs_WriteFile os now workspace path data w =
      (Ok tt,
       {| files := <[rel := data]>
                     (delete (tmp_name rel now) (<[tmp_name rel now := data]> (files w)));
          calls := calls w ++ mkdirs ++ [SysWriteFile (tmp_name rel now) data;
                                         SysRename (tmp_name rel now) rel] |}).
Proof.
  intros (Hop & Hmk & Hwr & Hrn & _) Hws Hrel.
  unfold sandboxFs_WriteFile, execute. rewrite decide_False by done.
  rewrite Hop, Hrel.
  unfold sandboxFs_write, MkdirAll, WriteFile, Rename, called, set_files.
  rewrite Hmk, Hwr, Hrn.
  destruct (bool_decide (Dir rel <> ".") && bool_decide (Dir rel <> "/")).
  - exists [SysMkdirAll (Dir rel)]. cbn. rewrite lookup_insert_eq. cbn.
    by rewrite <- !app_assoc.
  - exists []. cbn. rewrite lookup_insert_eq. cbn. by rewrite <- !app_assoc.
Qed.

Lemma sandboxFs_ReadFile_ok os workspace path rel w :
  os_succeeds os -> workspace <> "" ->
  getSafeRelPath workspace path = Ok rel ->
  sandboxFs_ReadFile os workspace path w =
    (match files w !! rel with
     | Some content => Ok content
     | None => Err (Errorf_w "failed to read file: file not found: "
                      (PathError "open" rel ENOENT))
     end,
     called (SysReadFile rel) w).
Proof.
  intros (Hop & _ & _ & _ & Hrd) Hws Hrel.
  unfold sandboxFs_ReadFile, execute. rewrite decide_False by done.
  rewrite Hop, Hrel. unfold ReadFile. rewrite Hrd. cbn.
  by destruct (files w !! rel).
Qed.

Lemma hostFs_ReadFile_ok os path w :
  os_succeeds os ->
  hostFs_ReadFile os path w =
    (match files w !! path with
     | Some content => Ok content
     | None => Err (Errorf_w "failed to read file: file not found: "
                      (PathError "open" path ENOENT))
     end,
     called (SysReadFile path) w).
Proof.
  intros (_ & _ & _ & _ & Hrd). unfold hostFs_ReadFile, ReadFile. rewrite Hrd. cbn.
  by destruct (files w !! path).
Qed.

(** X16.  In the sandbox, when the operating system fails no call,
    [editFile] on an existing file either replaces its contents by the
    result of [replaceEditContent] and touches no other file, or, when
    [replaceEditContent] fails, returns that error having only read:
    the files are what they were. *)
Theorem editFile_sandbox (os : os_answers) (now : Z)
    (workspace path rel content oldText newText : string) (w : world) :
  os_succeeds os -> workspace <> "" ->
  getSafeRelPath workspace path = Ok rel ->
  files w !! rel = Some content ->
  let done := editFile (sandboxFs os now workspace) path oldText newText w in
  match replaceEditContent content oldText newText with
  | Ok newContent =>
      fst done = None /\
      files (snd done) !! rel = Some newContent /\
      files (snd done) !! tmp_name rel now = None /\
      forall q, q <> rel -> q <> tmp_name rel now ->
        files (snd done) !! q = files w !! q
  | Err err =>
      fst done = Some err /\
      files (snd done) = files w /\
      calls (snd done) = calls w ++ [SysReadFile rel]
  end.
Proof.
  intros Hos Hws Hrel Hfile. cbn zeta. unfold editFile.
  cbn [fs_ReadFile fs_WriteFile sandboxFs].
  rewrite (sandboxFs_ReadFile_ok os workspace path rel w Hos Hws Hrel), Hfile.
  destruct (replaceEditContent content oldText newText) as [newContent|err];
    [|done].
  destruct (sandboxFs_WriteFile_ok os now workspace path rel newContent
              (called (SysReadFile rel) w) Hos Hws Hrel) as [mkdirs ->].
  cbn [fst snd files called].
  pose proof (write_rename_files (files w) (tmp_name rel now) rel newContent
                (tmp_name_neq rel now)) as Hfiles.
  cbn zeta in Hfiles. tauto.
Qed.

(** X17.  On the host, when the operating system fails no call,
    [appendFile] succeeds and leaves in the file what it held followed
    by the appended content; a file that did not exist is created with
    the appended content alone.  No other file is touched. *)
Theorem appendFile_host (os : os_answers) (now : Z)
    (path appendContent : string) (w : world) :
  os_succeeds os ->
  let done := appendFile (hostFs os now) path appendContent w in
  fst done = None /\
  files (snd done) !! path = Some (default "" (files w !! path) +:+ appendContent) /\
  files (snd done) !! tmp_name path now = None /\
  forall q, q <> path -> q <> tmp_name path now ->
    files (snd done) !! q = files w !! q.
Proof.
  intros Hos. cbn zeta. unfold appendFile. cbn [fs_ReadFile fs_WriteFile hostFs].
  rewrite (hostFs_ReadFile_ok os path w Hos).
  assert (Hwrite : forall data,
            let done := hostFs_WriteFile os now path data (called (SysReadFile path) w) in
            fst done = None /\
            files (snd done) !! path = Some data /\
            files (snd done) !! tmp_name path now = None /\
            forall q, q <> path -> q <> tmp_name path now ->
              files (snd done) !! q = files w !! q).
  { intros data. cbn zeta. rewrite (hostFs_WriteFile_ok os now path data _ Hos).
    cbn [fst snd files called].
    pose proof (write_rename_files (files w) (tmp_name path now) path data
                  (tmp_name_neq path now)) as Hfiles.
    cbn zeta in Hfiles. tauto. }
  destruct (files w !! path) as [content|]; cbn [default]; [apply Hwrite|].
  cbn [Is_ErrNotExist Errorf_w PathError cause negb]. apply Hwrite.
Qed.

(** X18.  On the host, when the read of the file fails for a reason
    other than that the file does not exist, [appendFile] and [editFile]
    return an error and write nothing: the read is the only call they
    make. *)
Theorem file_tools_read_error (os : os_answers) (now : Z)
    (path appendContent oldText newText : string) (e : errno) (w : world) :
  read_file os = Some e -> e <> ENOENT ->
  let appended := appendFile (hostFs os now) path appendContent w in
  let edited := editFile (hostFs os now) path oldText newText w in
  is_Some (fst appended) /\ snd appended = called (SysReadFile path) w /\
  is_Some (fst edited) /\ snd edited = called (SysReadFile path) w.
Proof.
  intros Hrd He. cbn zeta. unfold appendFile, editFile.
  cbn [fs_ReadFile fs_WriteFile hostFs]. unfold hostFs_ReadFile, ReadFile.
  rewrite Hrd. cbn [IsNotExist IsPermission PathError cause].
  destruct e; try done; cbn; eauto.
Qed.

(** ** The file tools on the small host *)

Lemma os_fine_succeeds : os_succeeds os_fine.
Proof. by repeat split. Qed.

Lemma replaceEditContent_single_instance_witness :
  "world" <> "" /\
  replaceEditContent "hello world" "world" "there" = Ok "hello there" /\
  exists a b,
    "hello world" = a +:+ "world" +:+ b /\
    Index "hello world" "world" = Some (String.length a) /\
    Contains b "world" = false /\
    "hello there" = a +:+ "there" +:+ b.
Proof.
  assert (Hne : "world" <> "") by discriminate.
  assert (Hok : replaceEditContent "hello world" "world" "there" = Ok "hello there")
    by computed.
  split; [exact Hne|]. split; [exact Hok|].
  exact (proj1 (replaceEditContent_single_instance "hello world" "world" "there"
                  "hello there" Hne) Hok).
Defined.

(** An instance that overlaps the first one is not counted: the edit of
    "aaa" with [old_text] "aa" is accepted. *)
Example replaceEditContent_overlap :
  replaceEditContent "aaa" "aa" "b" = Ok "ba".
Proof. computed. Qed.

Lemma editFile_sandbox_witness :
  os_succeeds os_fine /\ "/w" <> "" /\
  getSafeRelPath "/w" "/w/notes.txt" = Ok "notes.txt" /\
  files demo_world !! "notes.txt" = Some "old" /\
  fst (editFile (sandboxFs os_fine 17 "/w") "/w/notes.txt" "old" "new" demo_world)
    = None /\
  files (snd (editFile (sandboxFs os_fine 17 "/w") "/w/notes.txt" "old" "new"
                demo_world)) !! "notes.txt" = Some "new".
Proof.
  assert (Hws : "/w" <> "") by discriminate.
  assert (Hrel : getSafeRelPath "/w" "/w/notes.txt" = Ok "notes.txt") by computed.
  assert (Hfile : files demo_world !! "notes.txt" = Some "old") by reflexivity.
  assert (Hnew : replaceEditContent "old" "old" "new" = Ok "new") by computed.
  pose proof (editFile_sandbox os_fine 17 "/w" "/w/notes.txt" "notes.txt" "old"
                "old" "new" demo_world os_fine_succeeds Hws Hrel Hfile) as Hedit.
  cbv zeta in Hedit. rewrite Hnew in Hedit. destruct Hedit as (Herr & Hfiles & _).
  split; [exact os_fine_succeeds|]. split; [exact Hws|]. split; [exact Hrel|].
  split; [exact Hfile|]. split; [exact Herr|exact Hfiles].
Defined.

Lemma appendFile_host_witness :
  os_succeeds os_fine /\
  fst (appendFile (hostFs os_fine 17) "notes.txt" " and new" demo_world) = None /\
  files (snd (appendFile (hostFs os_fine 17) "notes.txt" " and new" demo_world))
    !! "notes.txt" = Some "old and new" /\
  files (snd (appendFile (hostFs os_fine 17) "fresh.txt" "first" demo_world))
    !! "fresh.txt" = Some "first".
Proof.
  destruct (appendFile_host os_fine 17 "notes.txt" " and new" demo_world
              os_fine_succeeds) as (Herr & Hfile & _).
  destruct (appendFile_host os_fine 17 "fresh.txt" "first" demo_world
              os_fine_succeeds) as (_ & Hfresh & _).
  split; [exact os_fine_succeeds|]. split; [exact Herr|].
  split; [exact Hfile|exact Hfresh].
Defined.

Lemma file_tools_read_error_witness :
  read_file os_unreadable = Some EACCES /\ EACCES <> ENOENT /\
  Error <$> fst (appendFile (hostFs os_unreadable 17) "notes.txt" "more" demo_world)
    = Some "failed to read file: access denied: open notes.txt: permission denied" /\
  snd (appendFile (hostFs os_unreadable 17) "notes.txt" "more" demo_world)
    = called (SysReadFile "notes.txt") demo_world /\
  snd (editFile (hostFs os_unreadable 17) "notes.txt" "old" "new" demo_world)
    = called (SysReadFile "notes.txt") demo_world.
Proof.
  assert (Hne : EACCES <> ENOENT) by discriminate.
  destruct (file_tools_read_error os_unreadable 17 "notes.txt" "more" "old" "new"
              EACCES demo_world eq_refl Hne) as (_ & Happ & _ & Hedit).
  split; [reflexivity|]. split; [exact Hne|]. split; [|split; [exact Happ|exact Hedit]].
  vm_compute. reflexivity.
Defined.

(** * The JSON-RPC clients, further *)

(** ** The routing of the responses *)

Lemma routed_init : routed [] ∅ [] [] Scanning.
Proof. by split. Qed.

Lemma thread_routed_app ids id p :
  thread_routed ids p -> thread_routed (ids ++ [id]) p.
Proof.
  destruct p as [| | id' ch req|id' ch|id' [resp|err]|id' [resp|err]]; cbn; try done;
    apply lookup_app_l_Some.
Qed.

Lemma routed_call ids p c ts r method params :
  routed ids p c ts r ->
  routed ids p c (ts ++ [{| at_pc := AtStart method params; ctx_Err := None |}]) r.
Proof.
  intros [Hl Hp Hc Hr Ht]. split; try done.
  intros i t [Hi | [_ Hi]]%lookup_app_Some; [eauto|].
  by apply list_lookup_singleton_Some in Hi as [_ <-].
Qed.

Lemma routed_thread ids p c ts r i t' :
  routed ids p c ts r -> thread_routed ids (at_pc t') ->
  routed ids p c (<[i := t']> ts) r.
Proof.
  intros [Hl Hp Hc Hr Ht] Ht'. split; try done.
  intros j t [(_ & <- & _) | (_ & Hj)]%list_lookup_insert_Some; eauto.
Qed.

Lemma routed_install ids p c ts r i t id reqBytes :
  routed ids p c ts r ->
  routed (ids ++ [id]) (<[id := length c]> p) (c ++ [None])
    (<[i := move t (AtSend id (length c) reqBytes)]> ts) r.
Proof.
  intros [Hl Hp Hc Hr Ht].
  assert (Hnew : (ids ++ [id]) !! length c = Some id).
  { rewrite lookup_app_r by lia. by replace (length c - length ids) with 0 by lia. }
  split.
  - rewrite !length_app. cbn. lia.
  - intros id' ch [[<- <-] | [_ Hold]]%lookup_insert_Some; [done|].
    by apply lookup_app_l_Some, Hp.
  - intros ch msg [Hch | [_ Hch]]%lookup_app_Some.
    + destruct (Hc ch msg Hch) as (id' & Hid & Hids). exists id'.
      split; [done|]. by apply lookup_app_l_Some.
    + by apply list_lookup_singleton_Some in Hch as [_ [=]].
  - destruct r as [|ch msg|]; try done. destruct Hr as (id' & Hid & Hids).
    exists id'. split; [done|]. by apply lookup_app_l_Some.
  - intros j t0 [(_ & <- & _) | (_ & Hj)]%list_lookup_insert_Some; [done|].
    apply thread_routed_app. eauto.
Qed.

Lemma routed_delete ids p c ts r id :
  routed ids p c ts r -> routed ids (delete id p) c ts r.
Proof.
  intros [Hl Hp Hc Hr Ht]. split; try done.
  intros id' ch [_ Hold]%lookup_delete_Some. eauto.
Qed.

Lemma routed_take ids p c ts r ch :
  routed ids p c ts r -> routed ids p (<[ch := None]> c) ts r.
Proof.
  intros [Hl Hp Hc Hr Ht]. split; try done.
  - by rewrite length_insert.
  - intros ch' msg [(_ & [=] & _) | (_ & Hold)]%list_lookup_insert_Some. eauto.
Qed.

Lemma routed_set_reader ids p c ts r r' :
  routed ids p c ts r -> reader_routed ids r' -> routed ids p c ts r'.
Proof. intros [Hl Hp Hc Hr Ht] Hr'. by split. Qed.

Lemma routed_dispatch ids p c ts r msg :
  routed ids p c ts r -> routed ids p c ts (dispatch p msg).
Proof.
  intros Hrt. apply (routed_set_reader _ _ _ _ _ _ Hrt). unfold dispatch.
  destruct (ID msg) as [id|] eqn:Hid; [|done].
  destruct (p !! id) as [ch|] eqn:Hch; [|done].
  exists id. split; [done|]. by apply (routed_pending _ _ _ _ _ Hrt).
Qed.

Lemma routed_deliver ids p c ts ch msg :
  routed ids p c ts (Sending ch msg) ->
  routed ids p (<[ch := Some msg]> c) ts Scanning.
Proof.
  intros [Hl Hp Hc Hr Ht]. split; try done.
  - by rewrite length_insert.
  - intros ch' msg' [(<- & [= <-] & _) | (_ & Hold)]%list_lookup_insert_Some; eauto.
Qed.

(** What a caller takes from its channel carries its id. *)
Lemma routed_select ids p c ts r (closed : error) t id ch ctx_done case result received :
  routed ids p c ts r ->
  thread_routed ids (AtSelect id ch) ->
  c !! ch = Some t ->
  select_wait closed ctx_done received t case = Some result ->
  thread_routed ids (AtDefer id result.1).
Proof.
  intros Hrt Hids Hch. unfold select_wait.
  destruct case.
  - destruct ctx_done; [|done]. by intros [= <-].
  - destruct received; [|done]. by intros [= <-].
  - destruct t as [resp|]; [|done]. intros [= <-]. cbn [fst].
    unfold response_result. destruct (msg_Error resp) eqn:Herr; [done|]. cbn.
    destruct (routed_chans _ _ _ _ _ Hrt ch resp Hch) as (id' & Hid & Hids').
    cbn in Hids. split; [congruence|done].
Qed.

Section RoutingProperties.

Context `{Libraries}.

Lemma Stdio_step_routed s l s' :
  Stdio_routed s -> Stdio.step s l = Some s' -> Stdio_routed s'.
Proof.
  intros [ids Hrt] Hstep. unfold Stdio_routed.
  destruct l as [method params | j e | j | j err | j c | line | | |];
    cbn [Stdio.step] in Hstep.
  - injection Hstep as <-. exists ids. cbn. by apply routed_call.
  - destruct (Stdio.threads s !! j) as [tj|] eqn:Hj; [|done].
    injection Hstep as <-. exists ids. cbn. apply routed_thread; [done|].
    cbn. by apply (routed_threads _ _ _ _ _ Hrt j).
  - destruct (Stdio.threads s !! j) as [tj|] eqn:Hj; [|done]. cbn in Hstep.
    pose proof (routed_threads _ _ _ _ _ Hrt j tj Hj) as Htj.
    destruct (at_pc tj) as [method params | id reqBytes | | | id r |] eqn:Hpc;
      try done; injection Hstep as <-.
    + exists ids. unfold Stdio.draw_id.
      destruct (Marshal_params params) as [paramsRaw|err];
        [destruct (Marshal _) as [reqBytes|err]|];
        cbn; by apply routed_thread.
    + exists (ids ++ [id]). cbn. by apply routed_install.
    + exists ids. cbn. apply routed_thread; [by apply routed_delete|done].
  - destruct (Stdio.threads s !! j) as [tj|] eqn:Hj; [|done]. cbn in Hstep.
    pose proof (routed_threads _ _ _ _ _ Hrt j tj Hj) as Htj.
    destruct (at_pc tj) as [| | id ch reqBytes | | |] eqn:Hpc; try done.
    unfold Stdio.write in Hstep. destruct err as [e|].
    + injection Hstep as <-. exists ids. cbn. by apply routed_thread.
    + destruct (Stdio.stdin_closed s); [done|]. injection Hstep as <-.
      exists ids. cbn. by apply routed_thread.
  - destruct (Stdio.threads s !! j) as [tj|] eqn:Hj; [|done]. cbn in Hstep.
    pose proof (routed_threads _ _ _ _ _ Hrt j tj Hj) as Htj.
    destruct (at_pc tj) as [| | | id ch | |] eqn:Hpc; try done.
    unfold Stdio.select in Hstep.
    destruct (Stdio.chans s !! ch) as [buffer|] eqn:Hch; [|done]. cbn in Hstep.
    destruct (select_wait _ _ _ _ _) as [[r received]|] eqn:Hsel; [|done].
    cbn in Hstep. injection Hstep as <-.
    pose proof (routed_select _ _ _ _ _ _ _ _ _ _ _ _ _ Hrt Htj Hch Hsel) as Hr.
    exists ids. destruct received; cbn; apply routed_thread; try done.
    by apply routed_take.
  - destruct (Stdio.readLoop s) eqn:Hr; try done. injection Hstep as <-.
    exists ids. unfold Stdio.read_line.
    destruct (Unmarshal line) as [msg|]; [|by rewrite Hr].
    cbn. by eapply routed_dispatch.
  - destruct (Stdio.readLoop s) as [|ch msg|] eqn:Hr; try done.
    destruct (Stdio.chans s !! ch) as [[|]|]; try done. injection Hstep as <-.
    exists ids. cbn. by apply routed_deliver.
  - destruct (Stdio.readLoop s); try done. injection Hstep as <-.
    exists ids. cbn. by apply (routed_set_reader _ _ _ _ _ _ Hrt).
  - injection Hstep as <-. by exists ids.
Qed.

Lemma SSE_step_routed s l s' :
  SSE_routed s -> SSE.step s l = Some s' -> SSE_routed s'.
Proof.
  intros [ids Hrt] Hstep. unfold SSE_routed.
  destruct l as [c | | e | method params | j e | j | j a | j c | line | | |];
    cbn [SSE.step] in Hstep.
  - exists ids. revert Hstep. unfold SSE.select_handshake, SSE.finish.
    destruct (SSE.handshake s); try done;
      repeat (match goal with
              | |- context [if ?b then _ else _] => destruct b
              | |- context [match ?c with SSE.CasePostReady => _ | _ => _ end] =>
                  destruct c
              end; try done);
      by intros [= <-].
  - destruct (SSE.handshake s); try done. injection Hstep as <-. by exists ids.
  - injection Hstep as <-. by exists ids.
  - destruct (SSE.handshake s); try done. injection Hstep as <-.
    exists ids. cbn. by apply routed_call.
  - destruct (SSE.threads s !! j) as [tj|] eqn:Hj; [|done].
    injection Hstep as <-. exists ids. cbn. apply routed_thread; [done|].
    cbn. by apply (routed_threads _ _ _ _ _ Hrt j).
  - destruct (SSE.threads s !! j) as [tj|] eqn:Hj; [|done]. cbn in Hstep.
    pose proof (routed_threads _ _ _ _ _ Hrt j tj Hj) as Htj.
    destruct (at_pc tj) as [method params | id reqBytes | | | id r |] eqn:Hpc;
      try done; injection Hstep as <-.
    + exists ids. unfold SSE.draw_id. cbn. by apply routed_thread.
    + exists (ids ++ [id]). cbn. by apply routed_install.
    + exists ids. cbn. apply routed_thread; [by apply routed_delete|done].
  - destruct (SSE.threads s !! j) as [tj|] eqn:Hj; [|done]. cbn in Hstep.
    pose proof (routed_threads _ _ _ _ _ Hrt j tj Hj) as Htj.
    destruct (at_pc tj) as [| | id ch reqBytes | | |] eqn:Hpc; try done.
    injection Hstep as <-. exists ids. unfold SSE.post.
    destruct a as [e | e | code body]; [| |destruct (_ && _)]; cbn;
      by apply routed_thread.
  - destruct (SSE.threads s !! j) as [tj|] eqn:Hj; [|done]. cbn in Hstep.
    pose proof (routed_threads _ _ _ _ _ Hrt j tj Hj) as Htj.
    destruct (at_pc tj) as [| | | id ch | |] eqn:Hpc; try done.
    unfold SSE.select in Hstep.
    destruct (SSE.chans s !! ch) as [buffer|] eqn:Hch; [|done]. cbn in Hstep.
    destruct (select_wait _ _ _ _ _) as [[r received]|] eqn:Hsel; [|done].
    cbn in Hstep. injection Hstep as <-.
    pose proof (routed_select _ _ _ _ _ _ _ _ _ _ _ _ _ Hrt Htj Hch Hsel) as Hr.
    exists ids. destruct received; cbn; apply routed_thread; try done.
    by apply routed_take.
  - destruct (SSE.readLoop s) eqn:Hr; try done. injection Hstep as <-.
    exists ids. unfold SSE.read_line, SSE.handleMessage, SSE.resolvePostURL.
    repeat (match goal with
            | |- context [if ?b then _ else _] => destruct b
            | |- context [match ?x with Some _ => _ | None => _ end] => destruct x
            end; cbn); try (by rewrite Hr); by eapply routed_dispatch.
  - destruct (SSE.readLoop s) as [|ch msg|] eqn:Hr; try done.
    destruct (SSE.chans s !! ch) as [[|]|]; try done. injection Hstep as <-.
    exists ids. cbn. by apply routed_deliver.
  - destruct (SSE.readLoop s); try done. injection Hstep as <-.
    exists ids. cbn. by apply (routed_set_reader _ _ _ _ _ _ Hrt).
  - destruct (SSE.handshake s); try done. injection Hstep as <-. by exists ids.
Qed.

(** X19.  On a stdio client and on an SSE client, a call of
    [sendRequest] that returns a response returns one that carries the
    id of its own request and no error: in every state the client can
    reach, the response of a returned call has the id the call drew. *)
Theorem sendRequest_response_has_own_id :
  (forall ls s i t id resp,
     Stdio.run Stdio.NewStdioClient ls = Some s ->
     Stdio.threads s !! i = Some t ->
     at_pc t = Done id (Ok resp) ->
     ID resp = Some id /\ msg_Error resp = None) /\
  (forall ctx url get c ls s i t id resp,
     SSE.NewSSEClient ctx url get = Ok c ->
     SSE.run c ls = Some s ->
     SSE.threads s !! i = Some t ->
     at_pc t = Done id (Ok resp) ->
     ID resp = Some id /\ msg_Error resp = None).
Proof.
  split.
  - intros ls s i t id resp Hrun Hi Hpc.
    assert (Hs : Stdio_routed s).
    { apply (Stdio_run_ind Stdio_routed) with (ls := ls) (s := Stdio.NewStdioClient);
        [|by exists []; apply routed_init|done].
      intros s0 l s1. apply Stdio_step_routed. }
    destruct Hs as [ids Hrt].
    pose proof (routed_threads _ _ _ _ _ Hrt i t Hi) as Ht. by rewrite Hpc in Ht.
  - intros ctx url get c ls s i t id resp Hnew Hrun Hi Hpc.
    destruct (NewSSEClient_fresh _ _ _ _ Hnew)
      as (_ & Hp & Hts & Hch & _ & _ & _ & _ & Hrd & _).
    assert (Hc : SSE_routed c).
    { exists []. rewrite Hp, Hts, Hch, Hrd. apply routed_init. }
    assert (Hs : SSE_routed s).
    { revert Hc Hrun. generalize c. clear.
      induction ls as [|l ls IH]; intros c Hc; cbn [SSE.run].
      - by intros [= <-].
      - destruct (SSE.step c l) as [c1|] eqn:Hstep; [|done].
        apply IH. by apply (SSE_step_routed c l). }
    destruct Hs as [ids Hrt].
    pose proof (routed_threads _ _ _ _ _ Hrt i t Hi) as Ht. by rewrite Hpc in Ht.
Qed.

End RoutingProperties.

(** ** The ids of the calls, late responses, and the lines of the SSE stream *)

(** [TrimSpace] removes the white space of Unicode at both ends, and
    only that: the zero-width space stays. *)
Example TrimSpace_unicode :
  TrimSpace (String.app nbsp (String.app " /rpc" (String.app line_separator nbsp)))
    = "/rpc" /\
  TrimSpace (String.app " " (String.app zero_width_space "x "))
    = String.app zero_width_space "x".
Proof. split; computed. Qed.

Lemma HasPrefix_app p s : HasPrefix (p +:+ s) p = true.
Proof.
  unfold HasPrefix. induction p as [|c p IH]; [apply prefix_nil|].
  rewrite append_cons. cbn. by destruct (ascii_dec c c).
Qed.

Lemma substring_all s : substring 0 (String.length s) s = s.
Proof. induction s as [|c s IH]; [done|]. cbn. by rewrite IH. Qed.

Lemma TrimPrefix_app p s : TrimPrefix (p +:+ s) p = s.
Proof.
  unfold TrimPrefix. rewrite HasPrefix_app, append_length.
  replace (String.length p + String.length s - String.length p)
    with (String.length s) by lia.
  induction p as [|c p IH]; [apply substring_all|]. by rewrite append_cons.
Qed.

Lemma Stdio_set_readLoop_same s :
  Stdio.set_readLoop (Stdio.readLoop s) s = s.
Proof. by destruct s. Qed.

Lemma SSE_set_readLoop_same s : SSE.set_readLoop (SSE.readLoop s) s = s.
Proof. by destruct s. Qed.

Section StreamProperties.

Context `{Libraries}.


(** A [data:] line adds its payload to the data of the event. *)
Lemma read_line_data s line d :
  TrimRight_cr line = "data:" +:+ d ->
  SSE.read_line line s =
    SSE.set_event (SSE.currentEvent s) (SSE.dataBuffer s +:+ TrimSpace d) s.
Proof.
  intros Hline. unfold SSE.read_line. rewrite Hline.
  rewrite decide_False by done.
  change (HasPrefix ("data:" +:+ d) "event:") with false. cbn match.
  by rewrite (HasPrefix_app "data:" d), (TrimPrefix_app "data:" d).
Qed.


(** X20.  On a stdio client and on an SSE client with fewer than 2^64
    calls made, the id of a call is the decimal form of a number between
    1 and the number of ids drawn so far, and no other call of the
    client has the same id. *)
Theorem sendRequest_ids_distinct :
  (forall ls s i t id,
     Stdio.run Stdio.NewStdioClient ls = Some s ->
     (Z.of_nat (length (Stdio.threads s)) < 2 ^ 64)%Z ->
     Stdio.threads s !! i = Some t ->
     call_id t = Some id ->
     (exists n, id = pretty n /\ (1 <= n <= Stdio.nextID s)%Z) /\
     forall j t', Stdio.threads s !! j = Some t' -> call_id t' = Some id -> i = j) /\
  (forall ctx url get c ls s i t id,
     SSE.NewSSEClient ctx url get = Ok c ->
     SSE.run c ls = Some s ->
     (Z.of_nat (length (SSE.threads s)) < 2 ^ 64)%Z ->
     SSE.threads s !! i = Some t ->
     call_id t = Some id ->
     (exists n, id = pretty n /\ (1 <= n <= SSE.nextID s)%Z) /\
     forall j t', SSE.threads s !! j = Some t' -> call_id t' = Some id -> i = j).
Proof.
  split.
  - intros ls s i t id Hrun Hlen Hi Hid.
    pose proof (Stdio_run_slots _ _ _ Hrun Hlen slots_inv_init) as Hinv.
    pose proof (phases_lookup _ _ _ Hi) as Hph. split.
    + by apply (inv_range _ _ _ Hinv i _ id Hph).
    + intros j t' Hj Hid'.
      apply (inv_distinct _ _ _ Hinv i j _ _ id Hph (phases_lookup _ _ _ Hj)); done.
  - intros ctx url get c ls s i t id Hnew Hrun Hlen Hi Hid.
    destruct (NewSSEClient_fresh _ _ _ _ Hnew) as (Hn & Hp & Ht & _).
    assert (Hinit : slots_inv (SSE.nextID c) (SSE.pending c) (phases (SSE.threads c)))
      by (rewrite Hn, Hp, Ht; apply slots_inv_init).
    pose proof (SSE_run_slots _ _ _ Hrun Hlen Hinit) as Hinv.
    pose proof (phases_lookup _ _ _ Hi) as Hph. split.
    + by apply (inv_range _ _ _ Hinv i _ id Hph).
    + intros j t' Hj Hid'.
      apply (inv_distinct _ _ _ Hinv i j _ _ id Hph (phases_lookup _ _ _ Hj)); done.
Qed.

(** X21.  A response that arrives for a call that has already returned
    (its context was done, or the client closed) is dropped: on a stdio
    client the line leaves the state as it is, and on an SSE client the
    event only resets the event buffers.  The reader goes on scanning
    and no channel is written.  This is for clients with fewer than
    2^64 calls made. *)
Theorem late_response_is_dropped :
  (forall ls s i t id r line msg,
     Stdio.run Stdio.NewStdioClient ls = Some s ->
     (Z.of_nat (length (Stdio.threads s)) < 2 ^ 64)%Z ->
     Stdio.threads s !! i = Some t ->
     at_pc t = Done id r ->
     Stdio.readLoop s = Scanning ->
     Unmarshal line = Some msg -> ID msg = Some id ->
     Stdio.step s (Stdio.LRead line) = Some s) /\
  (forall ctx url get c ls s i t id r line msg,
     SSE.NewSSEClient ctx url get = Ok c ->
     SSE.run c ls = Some s ->
     (Z.of_nat (length (SSE.threads s)) < 2 ^ 64)%Z ->
     SSE.threads s !! i = Some t ->
     at_pc t = Done id r ->
     SSE.readLoop s = Scanning ->
     SSE.currentEvent s <> "endpoint" ->
     Unmarshal (SSE.dataBuffer s) = Some msg -> ID msg = Some id ->
     TrimRight_cr line = "" ->
     SSE.step s (SSE.LRead line) = Some (SSE.set_event "" "" s)).
Proof.
  split.
  - intros ls s i t id r line msg Hrun Hlen Hi Hpc Hrd Hmsg Hid.
    pose proof (Stdio_run_slots _ _ _ Hrun Hlen slots_inv_init) as Hinv.
    assert (Hfree : Stdio.pending s !! id = None).
    { apply (slots_inv_finished _ _ _ i id Hinv).
      by rewrite (phases_lookup _ _ _ Hi), Hpc. }
    cbn [Stdio.step]. rewrite Hrd. unfold Stdio.read_line, dispatch.
    rewrite Hmsg, Hid, Hfree, <- Hrd. by rewrite Stdio_set_readLoop_same.
  - intros ctx url get c ls s i t id r line msg Hnew Hrun Hlen Hi Hpc Hrd Hev
      Hmsg Hid Hline.
    destruct (NewSSEClient_fresh _ _ _ _ Hnew) as (Hn & Hp & Ht & _).
    assert (Hinit : slots_inv (SSE.nextID c) (SSE.pending c) (phases (SSE.threads c)))
      by (rewrite Hn, Hp, Ht; apply slots_inv_init).
    pose proof (SSE_run_slots _ _ _ Hrun Hlen Hinit) as Hinv.
    assert (Hfree : SSE.pending s !! id = None).
    { apply (slots_inv_finished _ _ _ i id Hinv).
      by rewrite (phases_lookup _ _ _ Hi), Hpc. }
    cbn [SSE.step]. rewrite Hrd. unfold SSE.read_line. rewrite Hline.
    rewrite decide_True by done. rewrite decide_False by done.
    unfold SSE.handleMessage, dispatch. rewrite Hmsg, Hid, Hfree, <- Hrd.
    rewrite SSE_set_readLoop_same. by destruct (negb _).
Qed.


(** X23.  The data of an event is the concatenation of the payloads of
    its [data:] lines, each trimmed of white space, with nothing between
    them: after the [data:] lines and the empty line of an event that is
    not the endpoint event, [handleMessage] has been called on that
    concatenation when it is not empty, and the event buffers are
    reset. *)
Theorem event_data_is_concatenated (s : SSE.state) (lines ds : list string)
    (blank : string) :
  SSE.readLoop s = Scanning ->
  SSE.currentEvent s <> "endpoint" ->
  Forall2 (fun line d => TrimRight_cr line = "data:" +:+ d) lines ds ->
  TrimRight_cr blank = "" ->
  let data := foldl (fun buf d => buf +:+ TrimSpace d) (SSE.dataBuffer s) ds in
  SSE.run s ((SSE.LRead <$> lines) ++ [SSE.LRead blank]) =
    Some (SSE.set_event "" ""
            (if decide (data = "") then s else SSE.handleMessage data s)).
Proof.
  intros Hrd Hev Hlines Hblank. cbn zeta.
  assert (Hgen : forall ev buf,
            ev <> "endpoint" ->
            SSE.run (SSE.set_event ev buf s) ((SSE.LRead <$> lines) ++ [SSE.LRead blank]) =
              Some (SSE.set_event "" ""
                      (let data := foldl (fun b d => b +:+ TrimSpace d) buf ds in
                       if decide (data = "") then s else SSE.handleMessage data s))).
  { clear Hev. induction Hlines as [|line d lines ds Hline Hlines IH]; intros ev buf Hev.
    - cbn [fmap list_fmap app SSE.run SSE.step foldl SSE.readLoop SSE.set_event].
      rewrite Hrd. unfold SSE.read_line. rewrite Hblank.
      rewrite decide_True by done. cbn [SSE.currentEvent SSE.dataBuffer SSE.set_event].
      rewrite decide_False by done. cbn zeta.
      destruct (decide (buf = "")) as [->|Hne]; [done|].
      rewrite bool_decide_eq_false_2 by done. cbn [negb].
      unfold SSE.handleMessage. cbn [SSE.pending SSE.set_event].
      by destruct (Unmarshal buf).
    - rewrite fmap_cons. cbn [app SSE.run SSE.step SSE.readLoop SSE.set_event].
      rewrite Hrd, (read_line_data _ line d Hline).
      cbn [SSE.currentEvent SSE.dataBuffer SSE.set_event foldl].
      apply (IH ev (buf +:+ TrimSpace d) Hev). }
  specialize (Hgen (SSE.currentEvent s) (SSE.dataBuffer s) Hev).
  replace (SSE.set_event (SSE.currentEvent s) (SSE.dataBuffer s) s) with s in Hgen
    by (by destruct s).
  exact Hgen.
Qed.

End StreamProperties.

(** ** The clients on the small wire format, further *)

Lemma sendRequest_response_has_own_id_witness :
  @Stdio.run demo_libraries Stdio.NewStdioClient demo_stdio_two_calls
    = Some (stdio_after demo_stdio_two_calls) /\
  Stdio.threads (stdio_after demo_stdio_two_calls) !! 1%nat =
    Some {| at_pc := Done "2" (Ok {| JSONRPC := "2.0"; ID := Some "2"; Method := "";
                                     Params := ""; Result := "second";
                                     msg_Error := None |});
            ctx_Err := None |} /\
  @SSE.NewSSEClient None demo_sse_url demo_stream = Ok demo_sse_client /\
  @SSE.run demo_libraries demo_sse_client demo_sse_call = Some (sse_after demo_sse_call) /\
  exists t resp,
    SSE.threads (sse_after demo_sse_call) !! 0%nat = Some t /\
    at_pc t = Done "1" (Ok resp) /\ ID resp = Some "1" /\ msg_Error resp = None.
Proof.
  assert (Hrun1 : @Stdio.run demo_libraries Stdio.NewStdioClient demo_stdio_two_calls
                  = Some (stdio_after demo_stdio_two_calls)) by computed.
  assert (Ht1 : Stdio.threads (stdio_after demo_stdio_two_calls) !! 1%nat =
    Some {| at_pc := Done "2" (Ok {| JSONRPC := "2.0"; ID := Some "2"; Method := "";
                                     Params := ""; Result := "second";
                                     msg_Error := None |});
            ctx_Err := None |}) by computed.
  assert (Hnew : @SSE.NewSSEClient None demo_sse_url demo_stream = Ok demo_sse_client)
    by computed.
  assert (Hrun2 : @SSE.run demo_libraries demo_sse_client demo_sse_call
                  = Some (sse_after demo_sse_call)) by computed.
  assert (Ht2 : SSE.threads (sse_after demo_sse_call) !! 0%nat =
    Some {| at_pc := Done "1" (Ok {| JSONRPC := "2.0"; ID := Some "1"; Method := "";
                                     Params := ""; Result := "{}";
                                     msg_Error := None |});
            ctx_Err := None |}) by computed.
  destruct (@sendRequest_response_has_own_id demo_libraries) as [_ Hsse].
  split; [exact Hrun1|]. split; [exact Ht1|]. split; [exact Hnew|].
  split; [exact Hrun2|].
  eexists _, _. split; [exact Ht2|]. split; [reflexivity|].
  exact (Hsse _ _ _ _ _ _ 0%nat _ "1" _ Hnew Hrun2 Ht2 eq_refl).
Defined.

Lemma sendRequest_ids_distinct_witness :
  @Stdio.run demo_libraries Stdio.NewStdioClient demo_stdio_two_calls
    = Some (stdio_after demo_stdio_two_calls) /\
  (Z.of_nat (length (Stdio.threads (stdio_after demo_stdio_two_calls))) < 2 ^ 64)%Z /\
  (call_id <$> Stdio.threads (stdio_after demo_stdio_two_calls) !! 0%nat)
    = Some (Some "1") /\
  (call_id <$> Stdio.threads (stdio_after demo_stdio_two_calls) !! 1%nat)
    = Some (Some "2") /\
  forall j t', Stdio.threads (stdio_after demo_stdio_two_calls) !! j = Some t' ->
    call_id t' = Some "2" -> 1%nat = j.
Proof.
  assert (Hrun : @Stdio.run demo_libraries Stdio.NewStdioClient demo_stdio_two_calls
                 = Some (stdio_after demo_stdio_two_calls)) by computed.
  assert (Hlen : (Z.of_nat (length (Stdio.threads (stdio_after demo_stdio_two_calls)))
                  < 2 ^ 64)%Z) by computed.
  assert (Ht : Stdio.threads (stdio_after demo_stdio_two_calls) !! 1%nat =
    Some {| at_pc := Done "2" (Ok {| JSONRPC := "2.0"; ID := Some "2"; Method := "";
                                     Params := ""; Result := "second";
                                     msg_Error := None |});
            ctx_Err := None |}) by computed.
  destruct (@sendRequest_ids_distinct demo_libraries) as [Hstdio _].
  split; [exact Hrun|]. split; [exact Hlen|]. split; [computed|]. split; [computed|].
  exact (proj2 (Hstdio _ _ 1%nat _ "2" Hrun Hlen Ht eq_refl)).
Defined.

Lemma late_response_is_dropped_witness :
  @Stdio.run demo_libraries Stdio.NewStdioClient demo_stdio_cancelled
    = Some (stdio_after demo_stdio_cancelled) /\
  (at_pc <$> Stdio.threads (stdio_after demo_stdio_cancelled) !! 0%nat)
    = Some (Done "1" (Err Canceled)) /\
  @Stdio.step demo_libraries (stdio_after demo_stdio_cancelled)
    (Stdio.LRead "1 ok late") = Some (stdio_after demo_stdio_cancelled) /\
  @SSE.run demo_libraries demo_sse_client demo_sse_cancelled
    = Some (sse_after demo_sse_cancelled) /\
  @SSE.step demo_libraries (sse_after demo_sse_cancelled) (SSE.LRead "")
    = Some (SSE.set_event "" "" (sse_after demo_sse_cancelled)).
Proof.
  assert (Hrun1 : @Stdio.run demo_libraries Stdio.NewStdioClient demo_stdio_cancelled
                  = Some (stdio_after demo_stdio_cancelled)) by computed.
  assert (Hlen1 : (Z.of_nat (length (Stdio.threads (stdio_after demo_stdio_cancelled)))
                   < 2 ^ 64)%Z) by computed.
  assert (Ht1 : Stdio.threads (stdio_after demo_stdio_cancelled) !! 0%nat =
    Some {| at_pc := Done "1" (Err Canceled); ctx_Err := Some Canceled |})
    by computed.
  assert (Hrd1 : Stdio.readLoop (stdio_after demo_stdio_cancelled) = Scanning)
    by computed.
  assert (Hmsg : @Unmarshal demo_libraries "1 ok late" =
    Some {| JSONRPC := "2.0"; ID := Some "1"; Method := ""; Params := "";
            Result := "late"; msg_Error := None |}) by computed.
  assert (Hnew : @SSE.NewSSEClient None demo_sse_url demo_stream = Ok demo_sse_client)
    by computed.
  assert (Hrun2 : @SSE.run demo_libraries demo_sse_client demo_sse_cancelled
                  = Some (sse_after demo_sse_cancelled)) by computed.
  assert (Hlen2 : (Z.of_nat (length (SSE.threads (sse_after demo_sse_cancelled)))
                   < 2 ^ 64)%Z) by computed.
  assert (Ht2 : SSE.threads (sse_after demo_sse_cancelled) !! 0%nat =
    Some {| at_pc := Done "1" (Err Canceled); ctx_Err := Some Canceled |})
    by computed.
  assert (Hrd2 : SSE.readLoop (sse_after demo_sse_cancelled) = Scanning) by computed.
  assert (Hev2 : SSE.currentEvent (sse_after demo_sse_cancelled) <> "endpoint")
    by (vm_compute; discriminate).
  assert (Hmsg2 : @Unmarshal demo_libraries (SSE.dataBuffer (sse_after demo_sse_cancelled)) =
    Some {| JSONRPC := "2.0"; ID := Some "1"; Method := ""; Params := "";
            Result := "late"; msg_Error := None |}) by computed.
  destruct (@late_response_is_dropped demo_libraries) as [Hstdio Hsse].
  split; [exact Hrun1|]. split; [by rewrite Ht1|].
  split; [exact (Hstdio _ _ 0%nat _ "1" _ "1 ok late" _ Hrun1 Hlen1 Ht1 eq_refl Hrd1
                   Hmsg eq_refl)|].
  split; [exact Hrun2|].
  exact (Hsse _ _ _ _ _ _ 0%nat _ "1" _ "" _ Hnew Hrun2 Hlen2 Ht2 eq_refl Hrd2 Hev2
           Hmsg2 eq_refl eq_refl).
Defined.


Lemma event_data_is_concatenated_witness :
  SSE.readLoop (sse_after demo_sse_race) = Scanning /\
  SSE.currentEvent (sse_after demo_sse_race) <> "endpoint" /\
  @SSE.run demo_libraries (sse_after demo_sse_race)
    [SSE.LRead (String.app "data: 1 ok" nbsp);
     SSE.LRead (String.app "data:" (String.app line_separator "{}"));
     SSE.LRead ""] =
    Some (SSE.set_event "" ""
            (@SSE.handleMessage demo_libraries "1 ok{}" (sse_after demo_sse_race))).
Proof.
  assert (Hrd : SSE.readLoop (sse_after demo_sse_race) = Scanning) by computed.
  assert (Hev : SSE.currentEvent (sse_after demo_sse_race) <> "endpoint")
    by (vm_compute; discriminate).
  assert (Hlines : Forall2 (fun line d => TrimRight_cr line = "data:" +:+ d)
                     [String.app "data: 1 ok" nbsp;
                      String.app "data:" (String.app line_separator "{}")]
                     [String.app " 1 ok" nbsp; String.app line_separator "{}"]).
  { repeat constructor; computed. }
  pose proof (@event_data_is_concatenated demo_libraries (sse_after demo_sse_race)
                _ _ "" Hrd Hev Hlines eq_refl) as Hrun.
  split; [exact Hrd|]. split; [exact Hev|].
  etrans; [exact Hrun|]. computed.
Defined.

(** ** The end of the stream of an SSE client *)

(** In [Hi : <[j := t']> ts !! i = Some t], tell [i = j] from the rest. *)
Ltac thread_cases Hi Hj :=
  match type of Hi with
  | <[?j := _]> _ !! ?i = Some _ =>
      destruct (decide (j = i)) as [->|];
      [rewrite list_lookup_insert_eq in Hi by (by eapply lookup_lt_Some);
       injection Hi as <-; cbn in *
      |rewrite list_lookup_insert_ne in Hi by done]
  end.

Section SSEStreamEnd.

Context `{Libraries}.

(** Once the reader has returned the context of the client is done, and
    the channel of a caller is one of the channels made. *)
Lemma SSE_reachable ctx url get c ls s :
  SSE.NewSSEClient ctx url get = Ok c ->
  SSE.run c ls = Some s ->
  (SSE.readLoop s = Returned -> SSE.ctx_done s = true) /\
  (forall i t ch, SSE.threads s !! i = Some t ->
     pc_chan (at_pc t) = Some ch -> ch < length (SSE.chans s)).
Proof.
  intros Hnew Hrun.
  destruct (NewSSEClient_fresh _ _ _ _ Hnew)
    as (_ & _ & Hts & _ & _ & _ & _ & _ & Hrd & _).
  apply (SSE_run_ind (fun s =>
    (SSE.readLoop s = Returned -> SSE.ctx_done s = true) /\
    (forall i t ch, SSE.threads s !! i = Some t ->
       pc_chan (at_pc t) = Some ch -> ch < length (SSE.chans s)))
    (fun _ => True)) with (ls := ls) (s := c);
    [|by rewrite Hrd, Hts|by apply Forall_true|done].
  clear. intros s l s' [Hctx Hch] _ Hstep.
  destruct l as [c | | e | method params | j e | j | j a | j c | line | | |];
    cbn [SSE.step] in Hstep.
  - revert Hstep. unfold SSE.select_handshake, SSE.finish.
    destruct (SSE.handshake s); try done;
      repeat (match goal with
              | |- context [if ?b then _ else _] => destruct b
              | |- context [match ?c with SSE.CasePostReady => _ | _ => _ end] =>
                  destruct c
              end; try done);
      by intros [= <-].
  - destruct (SSE.handshake s); try done. by injection Hstep as <-.
  - by injection Hstep as <-.
  - destruct (SSE.handshake s); try done. injection Hstep as <-. cbn.
    split; [done|].
    intros i t ch [Hi | [_ Hi]]%lookup_app_Some; [eauto|].
    apply list_lookup_singleton_Some in Hi as [_ <-]. done.
  - destruct (SSE.threads s !! j) as [tj|] eqn:Hj; [|done].
    injection Hstep as <-. cbn. split; [done|].
    intros i t ch Hi. thread_cases Hi Hj; eauto.
  - destruct (SSE.threads s !! j) as [tj|] eqn:Hj; [|done]. cbn in Hstep.
    destruct (at_pc tj) as [method params | id reqBytes | | | id r |] eqn:Hpc;
      try done; injection Hstep as <-.
    + unfold SSE.draw_id. cbn. split; [done|].
      intros i t ch Hi. thread_cases Hi Hj; eauto; done.
    + cbn. split; [done|]. intros i t ch Hi. rewrite length_app. cbn.
      thread_cases Hi Hj.
      * intros [= <-]. lia.
      * intros Hc. specialize (Hch _ _ _ Hi Hc). lia.
    + cbn. split; [done|]. intros i t ch Hi. thread_cases Hi Hj; eauto; done.
  - destruct (SSE.threads s !! j) as [tj|] eqn:Hj; [|done]. cbn in Hstep.
    destruct (at_pc tj) as [| | id ch0 reqBytes | | |] eqn:Hpc; try done.
    injection Hstep as <-. unfold SSE.post.
    destruct a as [e | e | code body]; [| |destruct (_ && _)]; cbn;
      (split; [done|]); intros i t ch Hi; thread_cases Hi Hj; eauto; try done.
    intros [= <-]. apply (Hch _ _ _ Hj). by rewrite Hpc.
  - destruct (SSE.threads s !! j) as [tj|] eqn:Hj; [|done]. cbn in Hstep.
    destruct (at_pc tj) as [| | | id ch0 | |] eqn:Hpc; try done.
    unfold SSE.select in Hstep.
    destruct (SSE.chans s !! ch0) as [buffer|]; [|done]. cbn in Hstep.
    destruct (select_wait _ _ _ _ _) as [[r received]|]; [|done]. cbn in Hstep.
    injection Hstep as <-. destruct received; cbn; (split; [done|]);
      intros i t ch Hi; rewrite ?length_insert; thread_cases Hi Hj; eauto; done.
  - destruct (SSE.readLoop s) eqn:Hr; try done. injection Hstep as <-.
    unfold SSE.read_line, SSE.handleMessage, SSE.resolvePostURL.
    repeat (match goal with
            | |- context [if ?b then _ else _] => destruct b
            | |- context [match ?x with Some _ => _ | None => _ end] => destruct x
            end; cbn); (split; [|done]); rewrite ?Hr; try done;
      intros Hr'; by apply dispatch_not_Returned in Hr'.
  - destruct (SSE.readLoop s) as [|ch0 msg|]; try done.
    destruct (SSE.chans s !! ch0) as [[|]|]; try done. injection Hstep as <-.
    cbn. split; [done|]. intros i t ch. rewrite length_insert. eauto.
  - destruct (SSE.readLoop s); try done. by injection Hstep as <-.
  - destruct (SSE.handshake s); try done. by injection Hstep as <-.
Qed.

(** Once the context of the client is done, a caller that has not
    returned moves on its own, whatever its POST returns, and the move
    brings it closer to its return. *)
Lemma SSE_own_step s i t a :
  SSE.ctx_done s = true ->
  (forall ch, pc_chan (at_pc t) = Some ch -> ch < length (SSE.chans s)) ->
  SSE.threads s !! i = Some t ->
  moves_left (at_pc t) <> 0 ->
  exists l s' t',
    SSE_own_move i a l /\
    SSE.step s l = Some s' /\ SSE.threads s' !! i = Some t' /\
    moves_left (at_pc t') < moves_left (at_pc t) /\
    SSE.ctx_done s' = true /\
    (forall ch, pc_chan (at_pc t') = Some ch -> ch < length (SSE.chans s')).
Proof.
  intros Hctx Hch Hi Hleft.
  pose proof (lookup_lt_Some _ _ _ Hi) as Hlt.
  destruct (at_pc t) as [method params | id reqBytes | id ch reqBytes | id ch
                         | id r | id r] eqn:Hpc; [| | | | |done].
  - exists (SSE.LRun i). cbn [SSE.step]. rewrite Hi. cbn. rewrite Hpc.
    eexists _, _. split; [by left|]. split; [done|]. cbn.
    rewrite list_lookup_insert_eq by done. split; [done|]. cbn.
    split; [lia|]. done.
  - exists (SSE.LRun i). cbn [SSE.step]. rewrite Hi. cbn. rewrite Hpc.
    eexists _, _. split; [by left|]. split; [done|]. cbn.
    rewrite list_lookup_insert_eq by done. split; [done|]. cbn.
    split; [lia|]. split; [done|].
    intros ch' [= <-]. rewrite length_app. cbn. lia.
  - exists (SSE.LPost i a). cbn [SSE.step]. rewrite Hi. cbn. rewrite Hpc.
    unfold SSE.post.
    destruct a as [e | e | code body]; [| |destruct (_ && _)];
      eexists _, _; (split; [by right; left|]); (split; [done|]); cbn;
      rewrite list_lookup_insert_eq by done; (split; [done|]); cbn;
      (split; [lia|]); (split; [done|]); try done;
      intros ch' [= <-]; by apply Hch.
  - exists (SSE.LSelect i CaseClientDone).
    cbn [SSE.step]. rewrite Hi. cbn. rewrite Hpc. unfold SSE.select.
    destruct (lookup_lt_is_Some_2 (SSE.chans s) ch (Hch ch eq_refl)) as [buffer ->].
    cbn. rewrite Hctx. cbn.
    eexists _, _. split; [by right; right|]. split; [done|]. cbn.
    rewrite list_lookup_insert_eq by done. split; [done|]. cbn.
    split; [lia|]. done.
  - exists (SSE.LRun i). cbn [SSE.step]. rewrite Hi. cbn. rewrite Hpc.
    eexists _, _. split; [by left|]. split; [done|]. cbn.
    rewrite list_lookup_insert_eq by done. split; [done|]. cbn.
    split; [lia|]. done.
Qed.

(** Every move of a call brings it closer to its return, whatever its
    POST returns and whichever case its [select] takes. *)
Lemma SSE_move_closer s i t l s' :
  SSE.threads s !! i = Some t ->
  l = SSE.LRun i \/ (exists a, l = SSE.LPost i a) \/ (exists c, l = SSE.LSelect i c) ->
  SSE.step s l = Some s' ->
  exists t',
    SSE.threads s' !! i = Some t' /\
    moves_left (at_pc t') < moves_left (at_pc t).
Proof.
  intros Hi Hl Hstep. pose proof (lookup_lt_Some _ _ _ Hi) as Hlt.
  destruct Hl as [-> | [[a ->] | [c ->]]];
    cbn [SSE.step] in Hstep; rewrite Hi in Hstep; cbn in Hstep.
  - destruct (at_pc t) as [method params | id reqBytes | | | id r |] eqn:Hpc;
      try done; injection Hstep as <-;
      cbn; rewrite list_lookup_insert_eq by done;
      (eexists; split; [done|]); cbn; lia.
  - destruct (at_pc t) as [| | id ch reqBytes | | |] eqn:Hpc; try done.
    injection Hstep as <-. unfold SSE.post.
    destruct a as [e | e | code body]; [| |destruct (_ && _)];
      cbn; rewrite list_lookup_insert_eq by done;
      (eexists; split; [done|]); cbn; lia.
  - destruct (at_pc t) as [| | | id ch | |] eqn:Hpc; try done.
    unfold SSE.select in Hstep.
    destruct (SSE.chans s !! ch) as [buffer|]; [|done]. cbn in Hstep.
    destruct (select_wait _ _ _ _ _) as [[r received]|]; [|done]. cbn in Hstep.
    injection Hstep as <-.
    destruct received; cbn; rewrite list_lookup_insert_eq by done;
      (eexists; split; [done|]); cbn; lia.
Qed.

(** So it returns, in as many moves of its own as it has left. *)
Lemma SSE_finishes n :
  forall s i t a,
    moves_left (at_pc t) <= n ->
    SSE.ctx_done s = true ->
    (forall ch, pc_chan (at_pc t) = Some ch -> ch < length (SSE.chans s)) ->
    SSE.threads s !! i = Some t ->
    exists ls' s' id r,
      Forall (SSE_own_move i a) ls' /\
      length ls' <= moves_left (at_pc t) /\
      SSE.run s ls' = Some s' /\
      exists t', SSE.threads s' !! i = Some t' /\ at_pc t' = Done id r.
Proof.
  induction n as [|n IH]; intros s i t a Hn Hctx Hch Hi.
  - destruct (at_pc t) as [| | | | |id r] eqn:Hpc; cbn in Hn; try lia.
    exists [], s, id, r. split; [constructor|]. split; [cbn; lia|].
    split; [done|]. eauto.
  - destruct (decide (moves_left (at_pc t) = 0)) as [Hz|Hnz].
    { destruct (at_pc t) as [| | | | |id r] eqn:Hpc; cbn in Hz; try lia.
      exists [], s, id, r. split; [constructor|]. split; [cbn; lia|].
      split; [done|]. eauto. }
    destruct (SSE_own_step s i t a Hctx Hch Hi Hnz)
      as (l & s1 & t1 & Hown & Hstep & Hi1 & Hlt & Hctx1 & Hch1).
    destruct (IH s1 i t1 a ltac:(lia) Hctx1 Hch1 Hi1)
      as (ls1 & s' & id & r & Hall & Hlen & Hrun & Hdone).
    exists (l :: ls1), s', id, r.
    split; [by constructor|]. split; [cbn; lia|].
    split; [|done]. cbn [SSE.run]. by rewrite Hstep.
Qed.

(** X24.  On an SSE client, once the reader has returned at the end of
    the stream the context of the client is done; and whenever that
    context is done (the stream has ended, or [Close] was called) a call
    that waits for its response can return at once with "sse connection
    closed", and a call waits for nothing but its own POST: whatever the
    POST returns, the call returns in moves of its own, at most as many
    as it has left, and neither the reader nor another call has to move.
    Whether the POST itself returns is the matter of the HTTP client,
    which runs it under the context of the caller.  In every state,
    every move of a call, whatever its POST returns and whichever ready
    case its [select] takes, brings it closer to its return. *)
Theorem SSE_stream_end_unblocks_requests ctx url get c ls s :
  SSE.NewSSEClient ctx url get = Ok c ->
  SSE.run c ls = Some s ->
  (SSE.readLoop s = Returned -> SSE.ctx_done s = true) /\
  (SSE.ctx_done s = true ->
   (forall i t id ch,
      SSE.threads s !! i = Some t -> at_pc t = AtSelect id ch ->
      exists s',
        SSE.step s (SSE.LSelect i CaseClientDone) = Some s' /\
        SSE.threads s' !! i = Some (move t (AtDefer id (Err SSE.closed)))) /\
   (forall i t a,
      SSE.threads s !! i = Some t ->
      exists ls' s' id r,
        Forall (SSE_own_move i a) ls' /\
        length ls' <= moves_left (at_pc t) /\
        SSE.run s ls' = Some s' /\
        exists t', SSE.threads s' !! i = Some t' /\ at_pc t' = Done id r)) /\
  (forall i t l s',
     SSE.threads s !! i = Some t ->
     l = SSE.LRun i \/ (exists a, l = SSE.LPost i a)
     \/ (exists c, l = SSE.LSelect i c) ->
     SSE.step s l = Some s' ->
     exists t',
       SSE.threads s' !! i = Some t' /\
       moves_left (at_pc t') < moves_left (at_pc t)).
Proof.
  intros Hnew Hrun. destruct (SSE_reachable _ _ _ _ _ _ Hnew Hrun) as [Hend Hch].
  split; [done|]. split; [|intros i t l s'; apply SSE_move_closer].
  intros Hctx. split.
  - intros i t id ch Hi Hpc.
    pose proof (lookup_lt_Some _ _ _ Hi) as Hlt.
    assert (Hlen : ch < length (SSE.chans s))
      by (apply (Hch i t); [done|by rewrite Hpc]).
    destruct (lookup_lt_is_Some_2 _ _ Hlen) as [buffer Hbuf].
    cbn [SSE.step]. rewrite Hi. cbn. rewrite Hpc. unfold SSE.select.
    rewrite Hbuf. cbn. rewrite Hctx. cbn.
    eexists. split; [done|]. cbn. by rewrite list_lookup_insert_eq.
  - intros i t a Hi.
    apply (SSE_finishes (moves_left (at_pc t))); [done|done| |done].
    intros ch. by apply (Hch i t).
Qed.

End SSEStreamEnd.

(** ** A response reaches the call that waits for it *)

Lemma held_init : slots_held ∅ [].
Proof. by intros i t id ch Hi. Qed.

Lemma held_call p ts method params :
  slots_held p ts ->
  slots_held p (ts ++ [{| at_pc := AtStart method params; ctx_Err := None |}]).
Proof.
  intros Hheld i t id ch [Hi | [_ Hi]]%lookup_app_Some; [by apply (Hheld i t)|].
  by apply list_lookup_singleton_Some in Hi as [_ <-].
Qed.

(** A move of a caller that keeps its slot, or leaves the wait. *)
Lemma held_thread p ts i t t' :
  slots_held p ts -> ts !! i = Some t ->
  pc_slot (at_pc t') = None \/ pc_slot (at_pc t') = pc_slot (at_pc t) ->
  slots_held p (<[i := t']> ts).
Proof.
  intros Hheld Hi Hslot j tj id ch
    [(<- & <- & _) | (_ & Hj)]%list_lookup_insert_Some Hpc; [|by apply (Hheld j tj)].
  destruct Hslot as [Hnone | Hsame]; [congruence|].
  apply (Hheld i t); [done|congruence].
Qed.

Lemma pc_slot_phase p id ch : pc_slot p = Some (id, ch) -> phase_of p = Holds id.
Proof. destruct p; try done; by intros [= -> ->]. Qed.

Lemma held_install n p ts i t id ch reqBytes :
  slots_inv n p (phases ts) -> slots_held p ts ->
  ts !! i = Some t -> at_pc t = AtInstall id reqBytes ->
  slots_held (<[id := ch]> p) (<[i := move t (AtSend id ch reqBytes)]> ts).
Proof.
  intros Hinv Hheld Hi Hpc j tj id' ch'
    [(<- & <- & _) | (Hne & Hj)]%list_lookup_insert_Some Hslot.
  - cbn in Hslot. injection Hslot as <- <-. apply lookup_insert_eq.
  - rewrite lookup_insert_ne; [by apply (Hheld j tj)|]. intros <-.
    apply Hne. apply (inv_distinct _ _ _ Hinv i j (HasId id) (Holds id) id); try done.
    + by rewrite (phases_lookup _ _ _ Hi), Hpc.
    + by rewrite (phases_lookup _ _ _ Hj), (pc_slot_phase _ _ _ Hslot).
Qed.

Lemma held_delete n p ts i t id r :
  slots_inv n p (phases ts) -> slots_held p ts ->
  ts !! i = Some t -> at_pc t = AtDefer id r ->
  slots_held (delete id p) (<[i := move t (Done id r)]> ts).
Proof.
  intros Hinv Hheld Hi Hpc j tj id' ch'
    [(<- & <- & _) | (Hne & Hj)]%list_lookup_insert_Some Hslot; [done|].
  rewrite lookup_delete_ne; [by apply (Hheld j tj)|]. intros <-.
  apply Hne. apply (inv_distinct _ _ _ Hinv i j (Holds id) (Holds id) id); try done.
  - by rewrite (phases_lookup _ _ _ Hi), Hpc.
  - by rewrite (phases_lookup _ _ _ Hj), (pc_slot_phase _ _ _ Hslot).
Qed.

Section DeliveryProperties.

Context `{Libraries}.

Lemma Stdio_step_held s l s' :
  slots_inv (Stdio.nextID s) (Stdio.pending s) (phases (Stdio.threads s)) ->
  slots_held (Stdio.pending s) (Stdio.threads s) ->
  Stdio.step s l = Some s' ->
  slots_held (Stdio.pending s') (Stdio.threads s').
Proof.
  intros Hinv Hheld Hstep.
  destruct l as [method params | j e | j | j err | j c | line | | |];
    cbn [Stdio.step] in Hstep.
  - injection Hstep as <-. cbn. by apply held_call.
  - destruct (Stdio.threads s !! j) as [tj|] eqn:Hj; [|done].
    injection Hstep as <-. cbn. apply (held_thread _ _ _ tj); auto.
  - destruct (Stdio.threads s !! j) as [tj|] eqn:Hj; [|done]. cbn in Hstep.
    destruct (at_pc tj) as [method params | id reqBytes | | | id r |] eqn:Hpc;
      try done; injection Hstep as <-.
    + unfold Stdio.draw_id.
      destruct (Marshal_params params) as [paramsRaw|err];
        [destruct (Marshal _) as [reqBytes|err]|];
        cbn; apply (held_thread _ _ _ tj); auto.
    + cbn. by apply (held_install (Stdio.nextID s)).
    + cbn. by apply (held_delete (Stdio.nextID s)).
  - destruct (Stdio.threads s !! j) as [tj|] eqn:Hj; [|done]. cbn in Hstep.
    destruct (at_pc tj) as [| | id ch reqBytes | | |] eqn:Hpc; try done.
    unfold Stdio.write in Hstep. destruct err as [e|].
    + injection Hstep as <-. cbn. apply (held_thread _ _ _ tj); auto.
    + destruct (Stdio.stdin_closed s); [done|]. injection Hstep as <-. cbn.
      apply (held_thread _ _ _ tj); [done..|]. right. by rewrite Hpc.
  - destruct (Stdio.threads s !! j) as [tj|] eqn:Hj; [|done]. cbn in Hstep.
    destruct (at_pc tj) as [| | | id ch | |] eqn:Hpc; try done.
    unfold Stdio.select in Hstep.
    destruct (Stdio.chans s !! ch) as [buffer|]; [|done]. cbn in Hstep.
    destruct (select_wait _ _ _ _ _) as [[r received]|]; [|done]. cbn in Hstep.
    injection Hstep as <-. destruct received; cbn; apply (held_thread _ _ _ tj); auto.
  - destruct (Stdio.readLoop s); try done. injection Hstep as <-.
    unfold Stdio.read_line. by destruct (Unmarshal line).
  - destruct (Stdio.readLoop s) as [|ch msg|]; try done.
    destruct (Stdio.chans s !! ch) as [[|]|]; try done. by injection Hstep as <-.
  - destruct (Stdio.readLoop s); try done. by injection Hstep as <-.
  - by injection Hstep as <-.
Qed.

Lemma SSE_step_held s l s' :
  slots_inv (SSE.nextID s) (SSE.pending s) (phases (SSE.threads s)) ->
  slots_held (SSE.pending s) (SSE.threads s) ->
  SSE.step s l = Some s' ->
  slots_held (SSE.pending s') (SSE.threads s').
Proof.
  intros Hinv Hheld Hstep.
  destruct l as [c | | e | method params | j e | j | j a | j c | line | | |];
    cbn [SSE.step] in Hstep.
  - revert Hstep. unfold SSE.select_handshake, SSE.finish.
    destruct (SSE.handshake s); try done;
      repeat (match goal with
              | |- context [if ?b then _ else _] => destruct b
              | |- context [match ?c with SSE.CasePostReady => _ | _ => _ end] =>
                  destruct c
              end; try done);
      by intros [= <-].
  - destruct (SSE.handshake s); try done. by injection Hstep as <-.
  - by injection Hstep as <-.
  - destruct (SSE.handshake s); try done. injection Hstep as <-. cbn.
    by apply held_call.
  - destruct (SSE.threads s !! j) as [tj|] eqn:Hj; [|done].
    injection Hstep as <-. cbn. apply (held_thread _ _ _ tj); auto.
  - destruct (SSE.threads s !! j) as [tj|] eqn:Hj; [|done]. cbn in Hstep.
    destruct (at_pc tj) as [method params | id reqBytes | | | id r |] eqn:Hpc;
      try done; injection Hstep as <-.
    + unfold SSE.draw_id. cbn. apply (held_thread _ _ _ tj); auto.
    + cbn. by apply (held_install (SSE.nextID s)).
    + cbn. by apply (held_delete (SSE.nextID s)).
  - destruct (SSE.threads s !! j) as [tj|] eqn:Hj; [|done]. cbn in Hstep.
    destruct (at_pc tj) as [| | id ch reqBytes | | |] eqn:Hpc; try done.
    injection Hstep as <-. unfold SSE.post.
    destruct a as [e | e | code body]; [| |destruct (_ && _)]; cbn;
      apply (held_thread _ _ _ tj); auto.
    right. by rewrite Hpc.
  - destruct (SSE.threads s !! j) as [tj|] eqn:Hj; [|done]. cbn in Hstep.
    destruct (at_pc tj) as [| | | id ch | |] eqn:Hpc; try done.
    unfold SSE.select in Hstep.
    destruct (SSE.chans s !! ch) as [buffer|]; [|done]. cbn in Hstep.
    destruct (select_wait _ _ _ _ _) as [[r received]|]; [|done]. cbn in Hstep.
    injection Hstep as <-. destruct received; cbn; apply (held_thread _ _ _ tj); auto.
  - destruct (SSE.readLoop s); try done. injection Hstep as <-.
    unfold SSE.read_line, SSE.handleMessage, SSE.resolvePostURL.
    repeat (match goal with
            | |- context [if ?b then _ else _] => destruct b
            | |- context [match ?x with Some _ => _ | None => _ end] => destruct x
            end; cbn); done.
  - destruct (SSE.readLoop s) as [|ch msg|]; try done.
    destruct (SSE.chans s !! ch) as [[|]|]; try done. by injection Hstep as <-.
  - destruct (SSE.readLoop s); try done. by injection Hstep as <-.
  - destruct (SSE.handshake s); try done. by injection Hstep as <-.
Qed.

Lemma Stdio_run_held s ls s' :
  Stdio.run s ls = Some s' ->
  (Z.of_nat (length (Stdio.threads s')) < 2 ^ 64)%Z ->
  slots_inv (Stdio.nextID s) (Stdio.pending s) (phases (Stdio.threads s)) ->
  slots_held (Stdio.pending s) (Stdio.threads s) ->
  slots_held (Stdio.pending s') (Stdio.threads s').
Proof.
  revert s. induction ls as [|l ls IH]; intros s; cbn [Stdio.run].
  - by intros [= <-].
  - destruct (Stdio.step s l) as [s1|] eqn:Hstep; [|done]. intros Hrun Hlen Hinv Hheld.
    apply (IH s1 Hrun Hlen).
    + apply (slot_step_inv _ _ _ _ _ _ (Stdio_step_slot _ _ _ Hstep)); [|done].
      rewrite phases_length. pose proof (Stdio_run_length _ _ _ Hrun). lia.
    + by apply (Stdio_step_held s l).
Qed.

Lemma SSE_run_held s ls s' :
  SSE.run s ls = Some s' ->
  (Z.of_nat (length (SSE.threads s')) < 2 ^ 64)%Z ->
  slots_inv (SSE.nextID s) (SSE.pending s) (phases (SSE.threads s)) ->
  slots_held (SSE.pending s) (SSE.threads s) ->
  slots_held (SSE.pending s') (SSE.threads s').
Proof.
  revert s. induction ls as [|l ls IH]; intros s; cbn [SSE.run].
  - by intros [= <-].
  - destruct (SSE.step s l) as [s1|] eqn:Hstep; [|done]. intros Hrun Hlen Hinv Hheld.
    apply (IH s1 Hrun Hlen).
    + apply (slot_step_inv _ _ _ _ _ _ (SSE_step_slot _ _ _ Hstep)); [|done].
      rewrite phases_length. pose proof (SSE_run_length _ _ _ Hrun). lia.
    + by apply (SSE_step_held s l).
Qed.

(** The reader hands a message to the call that waits on the channel,
    and the call returns with it. *)
Lemma Stdio_deliver s i t id ch msg :
  Stdio.readLoop s = Sending ch msg ->
  Stdio.chans s !! ch = Some None ->
  Stdio.threads s !! i = Some t -> at_pc t = AtSelect id ch ->
  exists s',
    Stdio.run s [Stdio.LDeliver; Stdio.LSelect i CaseResponse; Stdio.LRun i] = Some s' /\
    Stdio.threads s' !! i = Some (move t (Done id (response_result msg))) /\
    Stdio.pending s' !! id = None.
Proof.
  intros Hrd Hch Hi Hpc.
  pose proof (lookup_lt_Some _ _ _ Hi) as Hlt.
  pose proof (lookup_lt_Some _ _ _ Hch) as Hlen.
  cbn [Stdio.run Stdio.step]. rewrite Hrd, Hch. cbn. rewrite Hi. cbn. rewrite Hpc.
  unfold Stdio.select. cbn. rewrite list_lookup_insert_eq by done. cbn.
  rewrite list_lookup_insert_eq by done. cbn.
  eexists. split; [done|]. cbn.
  rewrite list_lookup_insert_eq by (by rewrite length_insert).
  by rewrite lookup_delete_eq.
Qed.

Lemma SSE_deliver s i t id ch msg :
  SSE.readLoop s = Sending ch msg ->
  SSE.chans s !! ch = Some None ->
  SSE.threads s !! i = Some t -> at_pc t = AtSelect id ch ->
  exists s',
    SSE.run s [SSE.LDeliver; SSE.LSelect i CaseResponse; SSE.LRun i] = Some s' /\
    SSE.threads s' !! i = Some (move t (Done id (response_result msg))) /\
    SSE.pending s' !! id = None.
Proof.
  intros Hrd Hch Hi Hpc.
  pose proof (lookup_lt_Some _ _ _ Hi) as Hlt.
  pose proof (lookup_lt_Some _ _ _ Hch) as Hlen.
  cbn [SSE.run SSE.step]. rewrite Hrd, Hch. cbn. rewrite Hi. cbn. rewrite Hpc.
  unfold SSE.select. cbn. rewrite list_lookup_insert_eq by done. cbn.
  rewrite list_lookup_insert_eq by done. cbn.
  eexists. split; [done|]. cbn.
  rewrite list_lookup_insert_eq by (by rewrite length_insert).
  by rewrite lookup_delete_eq.
Qed.

(** X25.  A response reaches the call that waits for it.  On a client
    with fewer than 2^64 calls made, when a call waits in its [select]
    on an empty channel and the reader reads a message that carries the
    id of the call (a line, for a stdio client; a [data:] line and the
    empty line that ends the event, for an SSE client), the reader can
    hand the message to the call and the call can return: with the
    message, or with "rpc error <code>: <message>" when the message
    carries an error.  Its slot is then gone from the table. *)
Theorem response_reaches_waiting_call :
  (forall ls s i t id ch line msg,
     Stdio.run Stdio.NewStdioClient ls = Some s ->
     (Z.of_nat (length (Stdio.threads s)) < 2 ^ 64)%Z ->
     Stdio.threads s !! i = Some t -> at_pc t = AtSelect id ch ->
     Stdio.chans s !! ch = Some None ->
     Stdio.readLoop s = Scanning ->
     Unmarshal line = Some msg -> ID msg = Some id ->
     exists s',
       Stdio.run s [Stdio.LRead line; Stdio.LDeliver;
                    Stdio.LSelect i CaseResponse; Stdio.LRun i] = Some s' /\
       Stdio.threads s' !! i = Some (move t (Done id (response_result msg))) /\
       Stdio.pending s' !! id = None) /\
  (forall ctx url get c ls s i t id ch l1 d l2 msg,
     SSE.NewSSEClient ctx url get = Ok c ->
     SSE.run c ls = Some s ->
     (Z.of_nat (length (SSE.threads s)) < 2 ^ 64)%Z ->
     SSE.threads s !! i = Some t -> at_pc t = AtSelect id ch ->
     SSE.chans s !! ch = Some None ->
     SSE.readLoop s = Scanning ->
     SSE.currentEvent s <> "endpoint" -> SSE.dataBuffer s = "" ->
     TrimRight_cr l1 = "data:" +:+ d -> TrimSpace d <> "" ->
     TrimRight_cr l2 = "" ->
     Unmarshal (TrimSpace d) = Some msg -> ID msg = Some id ->
     exists s',
       SSE.run s [SSE.LRead l1; SSE.LRead l2; SSE.LDeliver;
                  SSE.LSelect i CaseResponse; SSE.LRun i] = Some s' /\
       SSE.threads s' !! i = Some (move t (Done id (response_result msg))) /\
       SSE.pending s' !! id = None).
Proof.
  split.
  - intros ls s i t id ch line msg Hrun Hlen Hi Hpc Hch Hrd Hmsg Hid.
    pose proof (Stdio_run_held _ _ _ Hrun Hlen slots_inv_init held_init) as Hheld.
    assert (Hslot : Stdio.pending s !! id = Some ch)
      by (apply (Hheld i t); [done|by rewrite Hpc]).
    set (s1 := Stdio.set_readLoop (Sending ch msg) s).
    assert (Hs1 : Stdio.step s (Stdio.LRead line) = Some s1).
    { cbn [Stdio.step]. rewrite Hrd. unfold Stdio.read_line, dispatch.
      by rewrite Hmsg, Hid, Hslot. }
    destruct (Stdio_deliver s1 i t id ch msg eq_refl Hch Hi Hpc) as (s' & Hrun' & Hs').
    exists s'. split; [|done]. cbn [Stdio.run]. rewrite Hs1. exact Hrun'.
  - intros ctx url get c ls s i t id ch l1 d l2 msg Hnew Hrun Hlen Hi Hpc Hch Hrd
      Hev Hbuf H1 Hd H2 Hmsg Hid.
    destruct (NewSSEClient_fresh _ _ _ _ Hnew) as (Hn & Hp & Ht & _).
    assert (Hinit : slots_inv (SSE.nextID c) (SSE.pending c) (phases (SSE.threads c)))
      by (rewrite Hn, Hp, Ht; apply slots_inv_init).
    assert (Hinit' : slots_held (SSE.pending c) (SSE.threads c))
      by (rewrite Hp, Ht; apply held_init).
    pose proof (SSE_run_held _ _ _ Hrun Hlen Hinit Hinit') as Hheld.
    assert (Hslot : SSE.pending s !! id = Some ch)
      by (apply (Hheld i t); [done|by rewrite Hpc]).
    set (s1 := SSE.set_event (SSE.currentEvent s) (TrimSpace d) s).
    set (s2 := SSE.set_event "" "" (SSE.set_readLoop (Sending ch msg) s)).
    assert (Hs1 : SSE.step s (SSE.LRead l1) = Some s1).
    { cbn [SSE.step]. by rewrite Hrd, (read_line_data s l1 d H1), Hbuf. }
    assert (Hs2 : SSE.step s1 (SSE.LRead l2) = Some s2).
    { cbn [SSE.step]. change (SSE.readLoop s1) with (SSE.readLoop s). rewrite Hrd.
      unfold SSE.read_line. rewrite H2. rewrite decide_True by done.
      cbn [SSE.currentEvent SSE.dataBuffer s1 SSE.set_event].
      rewrite decide_False by done. rewrite bool_decide_eq_false_2 by done.
      cbn [negb]. unfold SSE.handleMessage, dispatch.
      change (SSE.pending s1) with (SSE.pending s).
      rewrite Hmsg, Hid, Hslot. reflexivity. }
    destruct (SSE_deliver s2 i t id ch msg eq_refl Hch Hi Hpc) as (s' & Hrun' & Hs').
    exists s'. split; [|done]. cbn [SSE.run]. rewrite Hs1, Hs2. exact Hrun'.
Qed.

End DeliveryProperties.

(** ** Waiting calls on the small wire format *)

Lemma SSE_stream_end_unblocks_requests_witness :
  @SSE.NewSSEClient None demo_sse_url demo_stream = Ok demo_sse_client /\
  @SSE.run demo_libraries demo_sse_client demo_sse_ended = Some (sse_after demo_sse_ended) /\
  SSE.readLoop (sse_after demo_sse_ended) = Returned /\
  SSE.ctx_done (sse_after demo_sse_ended) = true /\
  (exists s',
     @SSE.step demo_libraries (sse_after demo_sse_ended) (SSE.LSelect 0 CaseClientDone)
       = Some s' /\
     SSE.threads s' !! 0%nat =
       Some {| at_pc := AtDefer "1" (Err (Errorf "sse connection closed"));
               ctx_Err := None |}) /\
  exists ls' s' id r,
    Forall (SSE_own_move 0 (SSE.Status 500 "busy")) ls' /\
    length ls' <= 2 /\
    @SSE.run demo_libraries (sse_after demo_sse_ended) ls' = Some s' /\
    exists t', SSE.threads s' !! 0%nat = Some t' /\ at_pc t' = Done id r.
Proof.
  assert (Hnew : @SSE.NewSSEClient None demo_sse_url demo_stream = Ok demo_sse_client)
    by computed.
  assert (Hrun : @SSE.run demo_libraries demo_sse_client demo_sse_ended
                 = Some (sse_after demo_sse_ended)) by computed.
  assert (Hrd : SSE.readLoop (sse_after demo_sse_ended) = Returned) by computed.
  assert (Ht : SSE.threads (sse_after demo_sse_ended) !! 0%nat =
               Some {| at_pc := AtSelect "1" 0; ctx_Err := None |}) by computed.
  destruct (@SSE_stream_end_unblocks_requests demo_libraries None demo_sse_url
              demo_stream demo_sse_client demo_sse_ended (sse_after demo_sse_ended)
              Hnew Hrun) as (Hend & Hdone & _).
  destruct (Hdone (Hend Hrd)) as [Hwait Hown].
  split; [exact Hnew|]. split; [exact Hrun|]. split; [exact Hrd|].
  split; [exact (Hend Hrd)|].
  split; [exact (Hwait 0%nat _ "1" 0%nat Ht eq_refl)|].
  exact (Hown 0%nat _ (SSE.Status 500 "busy") Ht).
Defined.

Lemma response_reaches_waiting_call_witness :
  @Stdio.run demo_libraries Stdio.NewStdioClient demo_stdio_written
    = Some (stdio_after demo_stdio_written) /\
  (exists s',
     @Stdio.run demo_libraries (stdio_after demo_stdio_written)
       [Stdio.LRead "1 ok {}"; Stdio.LDeliver; Stdio.LSelect 0 CaseResponse;
        Stdio.LRun 0] = Some s' /\
     Stdio.threads s' !! 0%nat =
       Some {| at_pc := Done "1" (Ok {| JSONRPC := "2.0"; ID := Some "1"; Method := "";
                                        Params := ""; Result := "{}";
                                        msg_Error := None |});
               ctx_Err := None |} /\
     Stdio.pending s' !! "1" = None) /\
  @SSE.run demo_libraries demo_sse_client demo_sse_posted = Some (sse_after demo_sse_posted) /\
  (exists s',
     @SSE.run demo_libraries (sse_after demo_sse_posted)
       [SSE.LRead "data: 1 error busy"; SSE.LRead ""; SSE.LDeliver;
        SSE.LSelect 0 CaseResponse; SSE.LRun 0] = Some s' /\
     SSE.threads s' !! 0%nat =
       Some {| at_pc := Done "1" (Err (Errorf "rpc error -32000: busy"));
               ctx_Err := None |} /\
     SSE.pending s' !! "1" = None).
Proof.
  assert (Hrun1 : @Stdio.run demo_libraries Stdio.NewStdioClient demo_stdio_written
                  = Some (stdio_after demo_stdio_written)) by computed.
  assert (Hlen1 : (Z.of_nat (length (Stdio.threads (stdio_after demo_stdio_written)))
                   < 2 ^ 64)%Z) by computed.
  assert (Ht1 : Stdio.threads (stdio_after demo_stdio_written) !! 0%nat =
                Some {| at_pc := AtSelect "1" 0; ctx_Err := None |}) by computed.
  assert (Hch1 : Stdio.chans (stdio_after demo_stdio_written) !! 0%nat = Some None)
    by computed.
  assert (Hrd1 : Stdio.readLoop (stdio_after demo_stdio_written) = Scanning)
    by computed.
  assert (Hmsg1 : @Unmarshal demo_libraries "1 ok {}" =
    Some {| JSONRPC := "2.0"; ID := Some "1"; Method := ""; Params := "";
            Result := "{}"; msg_Error := None |}) by computed.
  assert (Hnew : @SSE.NewSSEClient None demo_sse_url demo_stream = Ok demo_sse_client)
    by computed.
  assert (Hrun2 : @SSE.run demo_libraries demo_sse_client demo_sse_posted
                  = Some (sse_after demo_sse_posted)) by computed.
  assert (Hlen2 : (Z.of_nat (length (SSE.threads (sse_after demo_sse_posted)))
                   < 2 ^ 64)%Z) by computed.
  assert (Ht2 : SSE.threads (sse_after demo_sse_posted) !! 0%nat =
                Some {| at_pc := AtSelect "1" 0; ctx_Err := None |}) by computed.
  assert (Hch2 : SSE.chans (sse_after demo_sse_posted) !! 0%nat = Some None)
    by computed.
  assert (Hrd2 : SSE.readLoop (sse_after demo_sse_posted) = Scanning) by computed.
  assert (Hev2 : SSE.currentEvent (sse_after demo_sse_posted) <> "endpoint")
    by (vm_compute; discriminate).
  assert (Hbuf2 : SSE.dataBuffer (sse_after demo_sse_posted) = "") by computed.
  assert (Hl1 : TrimRight_cr "data: 1 error busy" = "data:" +:+ " 1 error busy")
    by computed.
  assert (Hd : TrimSpace " 1 error busy" <> "") by (vm_compute; discriminate).
  assert (Hmsg2 : @Unmarshal demo_libraries (TrimSpace " 1 error busy") =
    Some {| JSONRPC := "2.0"; ID := Some "1"; Method := ""; Params := "";
            Result := ""; msg_Error := Some {| Code := -32000; Message := "busy" |} |})
    by computed.
  destruct (@response_reaches_waiting_call demo_libraries) as [Hstdio Hsse].
  split; [exact Hrun1|]. split.
  { exact (Hstdio _ _ 0%nat _ "1" 0%nat "1 ok {}" _ Hrun1 Hlen1 Ht1 eq_refl Hch1 Hrd1
             Hmsg1 eq_refl). }
  split; [exact Hrun2|].
  exact (Hsse _ _ _ _ _ _ 0%nat _ "1" 0%nat "data: 1 error busy" _ "" _ Hnew Hrun2 Hlen2
           Ht2 eq_refl Hch2 Hrd2 Hev2 Hbuf2 Hl1 Hd eq_refl Hmsg2 eq_refl).
Defined.

(** ** The listing of a directory *)

Lemma one_line_split n1 n2 r1 r2 :
  one_line n1 = true -> one_line n2 = true ->
  n1 +:+ String "010"%char r1 = n2 +:+ String "010"%char r2 ->
  n1 = n2 /\ r1 = r2.
Proof.
  revert n2. induction n1 as [|c n1 IH]; intros [|c' n2]; cbn [one_line].
  - by intros _ _ [= ->].
  - intros _ [Hc _]%andb_true_iff. rewrite append_cons. intros [= <- _].
    by rewrite bool_decide_eq_true_2 in Hc.
  - intros [Hc _]%andb_true_iff _. rewrite append_cons. intros [= -> _].
    by rewrite bool_decide_eq_true_2 in Hc.
  - intros [_ H1]%andb_true_iff [_ H2]%andb_true_iff. rewrite !append_cons.
    intros [= <- Heq]. by destruct (IH n2 H1 H2 Heq) as [-> ->].
Qed.

(** X26.  The listing that [formatDirEntries] builds tells the entries
    apart: two lists of entries whose names contain no line feed have the
    same listing only when they are the same list, with the same names,
    kinds and order. *)
Theorem formatDirEntries_injective (entries1 entries2 : list DirEntry) :
  Forall (fun entry => one_line (entry_Name entry) = true) entries1 ->
  Forall (fun entry => one_line (entry_Name entry) = true) entries2 ->
  ForLLM (formatDirEntries entries1) = ForLLM (formatDirEntries entries2) ->
  entries1 = entries2.
Proof.
  cbn [ForLLM formatDirEntries NewToolResult].
  revert entries2.
  induction entries1 as [|[n1 d1] es1 IH]; intros [|[n2 d2] es2] H1 H2;
    cbn [dir_listing entry_IsDir entry_Name].
  - done.
  - destruct d2; rewrite !append_assoc, append_cons; intros [=].
  - destruct d1; rewrite !append_assoc, append_cons; intros [=].
  - apply Forall_cons in H1 as [Hn1 H1]. apply Forall_cons in H2 as [Hn2 H2].
    cbn in Hn1, Hn2.
    destruct d1, d2; rewrite !append_assoc, !append_cons; cbn [String.app];
      try (intros [=]; fail);
      intros [= Heq];
      destruct (one_line_split _ _ _ _ Hn1 Hn2 Heq) as [-> Hrest];
      by rewrite (IH es2 H1 H2 Hrest).
Qed.

Lemma formatDirEntries_injective_witness :
  Forall (fun entry => one_line (entry_Name entry) = true)
    [{| entry_Name := "src"; entry_IsDir := true |}] /\
  Forall (fun entry => one_line (entry_Name entry) = true)
    [{| entry_Name := "src"; entry_IsDir := false |}] /\
  ForLLM (formatDirEntries [{| entry_Name := "src"; entry_IsDir := true |}])
    <> ForLLM (formatDirEntries [{| entry_Name := "src"; entry_IsDir := false |}]).
Proof.
  assert (H1 : Forall (fun entry => one_line (entry_Name entry) = true)
                 [{| entry_Name := "src"; entry_IsDir := true |}])
    by (by repeat constructor).
  assert (H2 : Forall (fun entry => one_line (entry_Name entry) = true)
                 [{| entry_Name := "src"; entry_IsDir := false |}])
    by (by repeat constructor).
  split; [exact H1|]. split; [exact H2|]. intros Heq.
  pose proof (formatDirEntries_injective _ _ H1 H2 Heq) as Hsame.
  discriminate Hsame.
Defined.

(** A name with a line feed makes the listing ambiguous. *)
Example formatDirEntries_line_feed :
  ForLLM (formatDirEntries
            [{| entry_Name := String.app "a" (String "010" "FILE: b");
                entry_IsDir := true |}])
  = ForLLM (formatDirEntries [{| entry_Name := "a"; entry_IsDir := true |};
                              {| entry_Name := "b"; entry_IsDir := false |}]).
Proof. reflexivity. Qed.

(** ** What a write leaves alone *)

(** The write-then-rename core touches the temporary file and the target
    only, whatever fails. *)
Lemma write_core_frame os tmp target data (w : world) q :
  q <> target -> q <> tmp ->
  files (match WriteFile os tmp data w with
         | (Some e, w1) => Remove os tmp w1
         | (None, w1) =>
             match Rename os tmp target w1 with
             | (Some e, w2) => Remove os tmp w2
             | (None, w2) => w2
             end
         end) !! q = files w !! q.
Proof.
  intros Hq1 Hq2. unfold WriteFile, Rename, Remove, called, set_files.
  destruct (write_file os) as [[e [partial|]]|];
    [| |destruct (rename os) as [e|]];
    destruct (remove os) as [e'|]; cbn;
    rewrite ?lookup_insert_eq; cbn;
    by rewrite ?lookup_delete_ne, ?lookup_insert_ne, ?lookup_delete_ne,
      ?lookup_insert_ne by done.
Qed.

(** X27.  [WriteFile], on the host and in the sandbox, changes no file
    but the target and its temporary file, whether it succeeds or fails
    and whatever call fails. *)
Theorem WriteFile_touches_only_target (os : os_answers) (now : Z)
    (path data : string) (w : world) (q : string) :
  (q <> path -> q <> tmp_name path now ->
   files (snd (hostFs_WriteFile os now path data w)) !! q = files w !! q) /\
  (forall workspace,
     (forall rel, getSafeRelPath workspace path = Ok rel ->
                  q <> rel /\ q <> tmp_name rel now) ->
     files (snd (sandboxFs_WriteFile os now workspace path data w)) !! q
       = files w !! q).
Proof.
  split.
  - intros Hq1 Hq2. unfold hostFs_WriteFile, MkdirAll.
    destruct (mkdir_all os) as [e|]; [done|].
    pose proof (write_core_frame os (tmp_name path now) path data
                  (called (SysMkdirAll (Dir path)) w) q Hq1 Hq2) as Hframe.
    destruct (WriteFile os _ data _) as [[e|] w1]; [done|].
    by destruct (Rename os _ path w1) as [[e|] w2].
  - intros workspace Hq. unfold sandboxFs_WriteFile, execute.
    destruct (decide (workspace = "")); [done|].
    destruct (open_root os); [done|].
    destruct (getSafeRelPath workspace path) as [rel|err]; [|done].
    destruct (Hq rel eq_refl) as [Hq1 Hq2].
    unfold sandboxFs_write, MkdirAll.
    destruct (bool_decide (Dir rel <> ".") && bool_decide (Dir rel <> "/")).
    + destruct (mkdir_all os) as [e|]; [done|].
      pose proof (write_core_frame os (tmp_name rel now) rel data
                    (called (SysMkdirAll (Dir rel)) w) q Hq1 Hq2) as Hframe.
      destruct (WriteFile os _ data _) as [[e|] w1]; [done|].
      by destruct (Rename os _ rel w1) as [[e|] w2].
    + pose proof (write_core_frame os (tmp_name rel now) rel data w q Hq1 Hq2)
        as Hframe.
      destruct (WriteFile os _ data _) as [[e|] w1]; [done|].
      by destruct (Rename os _ rel w1) as [[e|] w2].
Qed.

Lemma WriteFile_touches_only_target_witness :
  files (snd (hostFs_WriteFile os_disk_full 17 "report.txt" "new" demo_world))
    !! "notes.txt" = Some "old" /\
  files (snd (sandboxFs_WriteFile os_fine 17 "/w" "report.txt" "new" demo_world))
    !! "notes.txt" = Some "old".
Proof.
  destruct (WriteFile_touches_only_target os_disk_full 17 "report.txt" "new"
              demo_world "notes.txt") as [Hhost _].
  destruct (WriteFile_touches_only_target os_fine 17 "report.txt" "new"
              demo_world "notes.txt") as [_ Hsandbox].
  split.
  - exact (Hhost ltac:(discriminate) ltac:(vm_compute; discriminate)).
  - apply (Hsandbox "/w"). intros rel Hrel.
    assert (Hcomputed : getSafeRelPath "/w" "report.txt" = Ok "report.txt")
      by (vm_compute; reflexivity).
    rewrite Hcomputed in Hrel. injection Hrel as <-.
    split; [discriminate|vm_compute; discriminate].
Defined.

(** ** A validated path is validated again as itself *)

(** [Clean] leaves a cleaned absolute path as it is. *)
Lemma Clean_idempotent_abs x : IsAbs (Clean x) = true -> Clean (Clean x) = Clean x.
Proof.
  intros Habs. destruct (IsAbs x) eqn:Hx.
  - rewrite (Clean_abs x Hx). apply Clean_rendered. by apply elements_plain.
  - by rewrite (Clean_relative x Hx) in Habs.
Qed.

Section ValidateAgain.

Context `{Host}.

Lemma absolute_path_clean absW p q :
  absolute_path absW p = Ok q -> IsAbs q = true -> Clean q = q.
Proof.
  unfold absolute_path, Abs. intros Hq Habs.
  assert (Hjoin : forall a b, IsAbs (Join a b) = true -> Clean (Join a b) = Join a b).
  { intros a b. unfold Join.
    destruct (decide (a = "")); [destruct (decide (b = "")); [done|]|];
      apply Clean_idempotent_abs. }
  destruct (IsAbs p).
  - injection Hq as <-. by apply Clean_idempotent_abs.
  - destruct (IsAbs (Join absW p)).
    + injection Hq as <-. by apply Clean_idempotent_abs.
    + destruct Getwd as [wd|err]; [|done]. injection Hq as <-. by apply Hjoin.
Qed.

(** X28.  A path that [validatePath] has accepted is accepted again and
    returned as it is: for an absolute result [q] of
    [validatePath p W restrict], [validatePath q W restrict] is [q]
    with no error. *)
Theorem validatePath_idempotent (W p q : string) (restrict : bool) :
  IsAbs q = true ->
  validatePath p W restrict = (q, None) ->
  validatePath q W restrict = (q, None).
Proof.
  intros Habs. unfold validatePath. destruct (decide (W = "")); [intros [=]|].
  destruct (Abs W) as [absW|err]; [|intros [=]].
  destruct (absolute_path absW p) as [absP|err] eqn:HabsP; [|intros [=]].
  assert (Hq : absP = q -> absolute_path absW q = Ok q).
  { intros ->. unfold absolute_path. rewrite Habs.
    by rewrite (absolute_path_clean absW p q HabsP Habs). }
  destruct restrict.
  - destruct (restrict_check absP absW) as [err|] eqn:Hcheck; [intros [=]|].
    intros [= Heq]. rewrite (Hq Heq). subst absP. by rewrite Hcheck.
  - intros [= Heq]. by rewrite (Hq Heq).
Qed.

End ValidateAgain.

Lemma validatePath_idempotent_witness :
  IsAbs "/w/notes.txt" = true /\
  @validatePath demo_host "docs/../notes.txt" "/w" true = ("/w/notes.txt", None) /\
  @validatePath demo_host "/w/notes.txt" "/w" true = ("/w/notes.txt", None).
Proof.
  assert (Hfirst : @validatePath demo_host "docs/../notes.txt" "/w" true
                   = ("/w/notes.txt", None)) by (vm_compute; reflexivity).
  split; [reflexivity|]. split; [exact Hfirst|].
  exact (@validatePath_idempotent demo_host "/w" "docs/../notes.txt" "/w/notes.txt"
           true eq_refl Hfirst).
Defined.

(** ** A call whose parameters cannot be encoded *)

Section MarshalProperties.

Context `{Libraries}.

(** X29.  When the parameters of a call cannot be encoded, the stdio
    client returns the error of [json.Marshal] at once: it installs no
    slot and writes nothing.  The SSE client drops that error: it
    installs the slot and posts the request built from empty parameters
    (an empty body when that request cannot be encoded either), and the
    call goes on to wait for a response. *)
Theorem marshal_error_stdio_returns_sse_posts :
  (forall s i t method params err,
     Stdio.threads s !! i = Some t -> at_pc t = AtStart method params ->
     Marshal_params params = Err err ->
     exists s',
       Stdio.step s (Stdio.LRun i) = Some s' /\
       Stdio.threads s' !! i =
         Some (move t (Done (pretty (AddUint64 (Stdio.nextID s))) (Err err))) /\
       Stdio.stdin s' = Stdio.stdin s /\ Stdio.pending s' = Stdio.pending s) /\
  (forall s i t method params err,
     SSE.threads s !! i = Some t -> at_pc t = AtStart method params ->
     Marshal_params params = Err err ->
     let id := pretty (AddUint64 (SSE.nextID s)) in
     let body :=
       match Marshal (request id method "") with Ok b => b | Err _ => "" end in
     exists s',
       SSE.run s [SSE.LRun i; SSE.LRun i; SSE.LPost i (SSE.Status 202 "")] = Some s' /\
       SSE.threads s' !! i = Some (move t (AtSelect id (length (SSE.chans s)))) /\
       SSE.posts s' = SSE.posts s ++ [(SSE.postURL s, body)] /\
       SSE.pending s' !! id = Some (length (SSE.chans s))).
Proof.
  split.
  - intros s i t method params err Hi Hpc Hm.
    pose proof (lookup_lt_Some _ _ _ Hi) as Hlt.
    cbn [Stdio.step]. rewrite Hi. cbn. rewrite Hpc. unfold Stdio.draw_id.
    rewrite Hm. eexists. split; [done|]. cbn.
    by rewrite list_lookup_insert_eq.
  - intros s i t method params err Hi Hpc Hm id body.
    pose proof (lookup_lt_Some _ _ _ Hi) as Hlt.
    cbn [SSE.run SSE.step]. rewrite Hi. cbn. rewrite Hpc. unfold SSE.draw_id.
    rewrite Hm. cbn. rewrite list_lookup_insert_eq by done. cbn.
    rewrite list_lookup_insert_eq by (by rewrite length_insert). cbn.
    eexists. split; [done|]. cbn.
    rewrite list_lookup_insert_eq by (by rewrite !length_insert).
    split; [done|]. split; [done|]. apply lookup_insert_eq.
Qed.

End MarshalProperties.

Lemma marshal_error_stdio_returns_sse_posts_witness :
  (exists s0 s',
     @Stdio.run demo_unencodable Stdio.NewStdioClient [Stdio.LCall "tools/call" ANull]
       = Some s0 /\
     @Stdio.step demo_unencodable s0 (Stdio.LRun 0) = Some s' /\
     Stdio.threads s' !! 0%nat =
       Some {| at_pc := Done "1" (Err (Errorf "json: unsupported type: chan int"));
               ctx_Err := None |} /\
     Stdio.stdin s' = []) /\
  (exists s0 s',
     @SSE.run demo_unencodable demo_sse_client
       [SSE.LHandshake SSE.CasePostReady; SSE.LCall "tools/call" ANull] = Some s0 /\
     @SSE.run demo_unencodable s0
       [SSE.LRun 0; SSE.LRun 0; SSE.LPost 0 (SSE.Status 202 "")] = Some s' /\
     SSE.posts s' = [(demo_sse_url, "1 tools/call ")]).
Proof.
  destruct (@marshal_error_stdio_returns_sse_posts demo_unencodable) as [Hstdio Hsse].
  split.
  - eexists. 
    destruct (Hstdio (default Stdio.NewStdioClient
                        (@Stdio.run demo_unencodable Stdio.NewStdioClient
                           [Stdio.LCall "tools/call" ANull]))
                0%nat _ "tools/call" ANull _ eq_refl eq_refl eq_refl)
      as (s' & Hstep & Ht & Hin & _).
    exists s'. split; [reflexivity|]. split; [exact Hstep|]. split; [exact Ht|exact Hin].
  - eexists.
    destruct (Hsse (default demo_sse_client
                      (@SSE.run demo_unencodable demo_sse_client
                         [SSE.LHandshake SSE.CasePostReady; SSE.LCall "tools/call" ANull]))
                0%nat _ "tools/call" ANull _ eq_refl eq_refl eq_refl)
      as (s' & Hrun & _ & Hposts & _).
    exists s'. split; [reflexivity|]. split; [exact Hrun|].
    rewrite Hposts. vm_compute. reflexivity.
Defined.
